(** * Read-through cache layer of the portfolio backend

    A shallow embedding of [backend/middleware/cache.js] (key derivation,
    the Express middleware, prefix invalidation), of the connection handle in
    [backend/utils/redis.js] and its life cycle, of the start-up code and the
    CORS origins of [backend/server.js], of the write routes in
    [backend/routes] that trigger invalidation, and of the read routes that
    look up one document or group the skills.

    JavaScript values are an inductive type, strings are Rocq strings (one
    character per code unit, 8-bit), the Redis server is a finite map from
    keys to a value and an absolute expiry time, and effectful code lives in
    a small state-and-exception monad over an explicit world. *)

From Stdlib Require Import Ascii String ZArith Lia.
From stdpp Require Import gmap strings list sorting pretty.

Open Scope string_scope.
Set Warnings "-register-all".

(** ** JavaScript values and errors *)

(** [JNum] stands for an integral Number in the range where JavaScript prints
    plain decimal digits; [JBigInt] is a BigInt, the one value of this type
    that [JSON.stringify] refuses.  An object lists its own enumerable
    properties in enumeration order. *)
Inductive jsval :=
| JUndefined
| JNull
| JBool (b : bool)
| JNum (n : Z)
| JBigInt (n : Z)
| JStr (s : string)
| JArr (items : list jsval)
| JObj (props : list (string * jsval)).

Inductive error :=
| TypeError (message : string)
| SyntaxError (message : string)
| ValidationError (messages : list string)
| MongoServerError (code : Z)
| RedisError (message : string)
| OtherError (name message : string).

(** The outcome of evaluating a piece of JavaScript: a value, or a thrown
    exception (for a promise: fulfilled or rejected). *)
Inductive completion (A : Type) :=
| Normal (a : A)
| Throw (e : error).
Arguments Normal {A} a.
Arguments Throw {A} e.

Definition dquote : ascii := "034"%char.

(** [ToString], as a template literal applies it.  An array prints its
    elements joined by commas, with [undefined] and [null] printed empty;
    a plain object prints as [[object Object]]. *)
Fixpoint ToString (v : jsval) : string :=
  match v with
  | JUndefined => "undefined"
  | JNull => "null"
  | JBool true => "true"
  | JBool false => "false"
  | JNum n => pretty n
  | JBigInt n => pretty n
  | JStr s => s
  | JArr items =>
      String.concat ","
        (map (fun x => match x with
                       | JUndefined | JNull => ""
                       | _ => ToString x
                       end) items)
  | JObj _ => "[object Object]"
  end.

(** [ToBoolean]: the truthiness test of [if], [||] and [&&]. *)
Definition ToBoolean (v : jsval) : bool :=
  match v with
  | JUndefined | JNull => false
  | JBool b => b
  | JNum n | JBigInt n => negb (n =? 0)%Z
  | JStr s => negb (s =? "")
  | JArr _ | JObj _ => true
  end.

Fixpoint get_own (props : list (string * jsval)) (key : string) : jsval :=
  match props with
  | [] => JUndefined
  | (k, v) :: rest => if k =? key then v else get_own rest key
  end.

(** [v.key] for the property names this program reads ([success], [title]):
    reading a property of [undefined] or [null] throws, a primitive or an
    array has no such property. *)
Definition get_property (v : jsval) (key : string) : completion jsval :=
  match v with
  | JUndefined => Throw (TypeError "Cannot read properties of undefined")
  | JNull => Throw (TypeError "Cannot read properties of null")
  | JObj props => Normal (get_own props key)
  | _ => Normal JUndefined
  end.

(** [obj.key = v], and the effect of [{...obj, key: v}] on the copy: an
    existing property keeps its place, a new one goes last. *)
Fixpoint set_own (props : list (string * jsval)) (key : string) (v : jsval)
  : list (string * jsval) :=
  match props with
  | [] => [(key, v)]
  | (k, x) :: rest =>
      if k =? key then (k, v) :: rest else (k, x) :: set_own rest key v
  end.

Definition Object_keys (props : list (string * jsval)) : list string :=
  map fst props.

(** [a !== b] against a boolean literal. *)
Definition strict_neq_bool (v : jsval) (b : bool) : bool :=
  match v with
  | JBool b' => negb (Bool.eqb b' b)
  | _ => true
  end.

(** ** JSON.stringify *)

Definition hex_digit (n : nat) : ascii :=
  match String.get n "0123456789abcdef" with
  | Some c => c
  | None => "0"%char
  end.

Definition json_escape (c : ascii) : string :=
  let n := nat_of_ascii c in
  if (n =? 8)%nat then "\b"
  else if (n =? 9)%nat then "\t"
  else if (n =? 10)%nat then "\n"
  else if (n =? 12)%nat then "\f"
  else if (n =? 13)%nat then "\r"
  else if (n =? 34)%nat then String "\"%char (String dquote "")
  else if (n =? 92)%nat then "\\"
  else if (n <? 32)%nat then
    "\u00" ++ String (hex_digit (n / 16)) (String (hex_digit (n mod 16)) "")
  else String c "".

Fixpoint json_escape_all (s : string) : string :=
  match s with
  | EmptyString => ""
  | String c rest => json_escape c ++ json_escape_all rest
  end.

Definition QuoteJSONString (s : string) : string :=
  String dquote (json_escape_all s ++ String dquote "").

(** [SerializeJSONProperty] of ECMAScript for a value with no [toJSON] and no
    replacer.  [Normal None] is the result [undefined]; inside an array it
    prints as [null], inside an object the property is left out. *)
Fixpoint SerializeJSONProperty (v : jsval) : completion (option string) :=
  match v with
  | JUndefined => Normal None
  | JNull => Normal (Some "null")
  | JBool true => Normal (Some "true")
  | JBool false => Normal (Some "false")
  | JNum n => Normal (Some (pretty n))
  | JBigInt _ => Throw (TypeError "Do not know how to serialize a BigInt")
  | JStr s => Normal (Some (QuoteJSONString s))
  | JArr items =>
      let fix elements (l : list jsval) : completion (list string) :=
        match l with
        | [] => Normal []
        | x :: l' =>
            match SerializeJSONProperty x with
            | Throw e => Throw e
            | Normal o =>
                match elements l' with
                | Throw e => Throw e
                | Normal r => Normal (default "null" o :: r)
                end
            end
        end in
      match elements items with
      | Throw e => Throw e
      | Normal parts => Normal (Some ("[" ++ String.concat "," parts ++ "]"))
      end
  | JObj props =>
      let fix members (l : list (string * jsval)) : completion (list string) :=
        match l with
        | [] => Normal []
        | (k, x) :: l' =>
            match SerializeJSONProperty x with
            | Throw e => Throw e
            | Normal o =>
                match members l' with
                | Throw e => Throw e
                | Normal r =>
                    Normal (match o with
                            | Some str => (QuoteJSONString k ++ ":" ++ str) :: r
                            | None => r
                            end)
                end
            end
        end in
      match members props with
      | Throw e => Throw e
      | Normal parts => Normal (Some ("{" ++ String.concat "," parts ++ "}"))
      end
  end.

Definition JSON_stringify (v : jsval) : completion (option string) :=
  SerializeJSONProperty v.

(** ** Requests and the cache key *)

(** The fields of an Express request that the cache layer reads. *)
Record request := {
  method : string;
  originalUrl : option string;
  url : string;
  path : string;
  query : list (string * jsval);
  user : jsval
}.

(** [a || b] on a possibly undefined string. *)
Definition or_else (a : option string) (b : string) : string :=
  match a with
  | Some s => if s =? "" then b else s
  | None => b
  end.

(** [Array.prototype.sort] without a comparator, on strings: ascending by
    code units. *)
Definition sort_strings (l : list string) : list string :=
  merge_sort String.le l.

(** The [queryString] of [generateCacheKey]: the parameters as [name=value],
    names sorted, joined by [&]. *)
Definition queryString (q : list (string * jsval)) : string :=
  String.concat "&"
    (map (fun key => key ++ "=" ++ ToString (get_own q key))
         (sort_strings (Object_keys q))).

Definition generateCacheKey (req : request) : string :=
  let baseKey := method req ++ ":" ++ or_else (originalUrl req) (url req) in
  let queryString := queryString (query req) in
  if queryString =? "" then baseKey else baseKey ++ "?" ++ queryString.

(** The key format the interface documents,
    [METHOD:/api/<resource>[/<path-suffix>][?sorted-query]], for a request
    with method [m], path [target] and parsed query [q]: the sorted query
    once, after the path. *)
Definition documented_key (m target : string) (q : list (string * jsval)) : string :=
  let sorted := queryString q in
  if sorted =? "" then m ++ ":" ++ target else m ++ ":" ++ target ++ "?" ++ sorted.

(** *** Requests as Express builds them *)

Definition raw_query_string (params : list (string * string)) : string :=
  String.concat "&" (map (fun kv => kv.1 ++ "=" ++ kv.2) params).

(** The query parser: one property per parameter name, in order of first
    appearance; a repeated name collects its values in an array. *)
Fixpoint parse_query (params : list (string * string)) (acc : list (string * jsval))
  : list (string * jsval) :=
  match params with
  | [] => acc
  | (k, v) :: rest =>
      parse_query rest
        (set_own acc k
           (match get_own acc k with
            | JUndefined => JStr v
            | JArr items => JArr (items ++ [JStr v])
            | old => JArr [old; JStr v]
            end))
  end.

(** Express keeps the request target as received, query string included, in
    [req.originalUrl]; inside a router [req.url] is the target relative to the
    mount point, [req.path] its path part, and [req.query] the parsed query
    string.  [target] is the path of the request target ([/api/projects]),
    [rel] the path below the router's mount point ([/]). *)
Definition express_request (m target rel : string) (params : list (string * string))
    (u : jsval) : request :=
  let qs := match params with
            | [] => ""
            | _ => "?" ++ raw_query_string params
            end in
  {| method := m;
     originalUrl := Some (target ++ qs);
     url := rel ++ qs;
     path := rel;
     query := parse_query params [];
     user := u |}.


(** ** The world: Redis, the response, and an event trace *)

(** What happened, in order.  The Redis commands and [console.error] calls
    are the program's own effects; the last four constructors are markers:
    the route handler was entered, a promise was rejected with nobody
    awaiting it, [invalidateCache] was called, a database write resolved. *)
Inductive event :=
| EvGet (key : string)
| EvSetEx (key : string) (ttl : nat) (value : string)
| EvKeys (pattern : string)
| EvDel (keys : list string)
| EvConsoleError (label : string) (e : error)
| EvHandler
| EvUnhandledRejection (e : error)
| EvInvalidate (pattern : string)
| EvPersisted (what : string).

Inductive client := RedisClient.

(** [redisClient] is the module variable of [utils/redis.js] ([null] until
    [initRedis] succeeds); [connected] says whether commands sent through the
    handle resolve or reject; [store] is the server's keyspace, each value
    with the time at which it expires; [now] is the server's clock in
    seconds.  [statusCode] and [sent] belong to the response under
    construction: the status set by [res.status] and every body handed to
    [res.send], with the status it went out under. *)
Record world := {
  redisClient : option client;
  connected : bool;
  store : gmap string (string * nat);
  now : nat;
  statusCode : nat;
  sent : list (nat * option string);
  trace : list event
}.

Definition set_store (st : gmap string (string * nat)) (w : world) : world :=
  {| redisClient := redisClient w; connected := connected w; store := st;
     now := now w; statusCode := statusCode w; sent := sent w; trace := trace w |}.

Definition set_statusCode (code : nat) (w : world) : world :=
  {| redisClient := redisClient w; connected := connected w; store := store w;
     now := now w; statusCode := code; sent := sent w; trace := trace w |}.

Definition push_sent (r : nat * option string) (w : world) : world :=
  {| redisClient := redisClient w; connected := connected w; store := store w;
     now := now w; statusCode := statusCode w; sent := sent w ++ [r];
     trace := trace w |}.

Definition log (ev : event) (w : world) : world :=
  {| redisClient := redisClient w; connected := connected w; store := store w;
     now := now w; statusCode := statusCode w; sent := sent w;
     trace := trace w ++ [ev] |}.

(** A new request arrives at time [t]: a fresh response object. *)
Definition arrive (t : nat) (w : world) : world :=
  {| redisClient := redisClient w; connected := connected w; store := store w;
     now := t; statusCode := 200; sent := sent w; trace := trace w |}.

(** ** A state-and-exception monad *)

Definition M (S A : Type) : Type := S -> completion A * S.

#[export] Instance M_ret {S} : MRet (M S) := fun A a s => (Normal a, s).
#[export] Instance M_bind {S} : MBind (M S) := fun A B f m s =>
  match m s with
  | (Normal a, s') => f a s'
  | (Throw e, s') => (Throw e, s')
  end.

Definition throw {S A} (e : error) : M S A := fun s => (Throw e, s).

Definition lift_completion {S A} (c : completion A) : M S A := fun s => (c, s).

(** [try { m } catch (error) { h error }] *)
Definition try_catch {S A} (m : M S A) (h : error -> M S A) : M S A := fun s =>
  match m s with
  | (Throw e, s') => h e s'
  | r => r
  end.

Definition modify {S} (f : S -> S) : M S unit := fun s => (Normal tt, f s).

Definition console_error (label : string) (e : error) : M world unit :=
  modify (log (EvConsoleError label e)).

(** ** The Redis commands the program uses *)

Definition CLOSED : error := RedisError "The client is closed".

(** GET semantics: a value is there until its expiry time. *)
Definition redis_lookup (st : gmap string (string * nat)) (t : nat) (key : string)
  : option string :=
  match st !! key with
  | Some (v, expiry) => if (t <? expiry)%nat then Some v else None
  | None => None
  end.

(** Glob matching of KEYS: [*] matches any run of characters, [?] any one
    character, a backslash makes the next character literal.  Character
    classes are left out: no pattern this program builds contains a bracket.
    (A pattern built from a resource name with a bracket in it would; what is
    stated for arbitrary resource names is stated for [plain] ones.) *)
Fixpoint glob_match (p : string) : string -> bool :=
  match p with
  | EmptyString => fun s => s =? ""
  | String "*" p' =>
      fix star (s : string) : bool :=
        glob_match p' s
        || match s with
           | EmptyString => false
           | String _ s' => star s'
           end
  | String "?" p' => fun s =>
      match s with
      | EmptyString => false
      | String _ s' => glob_match p' s'
      end
  | String "\" (String c p') => fun s =>
      match s with
      | EmptyString => false
      | String d s' => Ascii.eqb c d && glob_match p' s'
      end
  | String c p' => fun s =>
      match s with
      | EmptyString => false
      | String d s' => Ascii.eqb c d && glob_match p' s'
      end
  end.

Definition matching_keys (pattern : string) (st : gmap string (string * nat)) (t : nat)
  : list string :=
  (filter (fun kv => Is_true (glob_match pattern kv.1 && (t <? kv.2.2)%nat))
          (map_to_list st)).*1.

Definition redis_get (c : client) (key : string) : M world (option string) := fun w =>
  let w := log (EvGet key) w in
  if connected w then (Normal (redis_lookup (store w) (now w) key), w)
  else (Throw CLOSED, w).

(** SETEX refuses a zero expiry. *)
Definition redis_setEx (c : client) (key : string) (ttl : nat) (value : string)
  : M world unit := fun w =>
  let w := log (EvSetEx key ttl value) w in
  if connected w then
    if (ttl =? 0)%nat then (Throw (RedisError "ERR invalid expire time"), w)
    else (Normal tt, set_store (<[key := (value, now w + ttl)]> (store w)) w)
  else (Throw CLOSED, w).

Definition redis_keys (c : client) (pattern : string) : M world (list string) := fun w =>
  let w := log (EvKeys pattern) w in
  if connected w then (Normal (matching_keys pattern (store w) (now w)), w)
  else (Throw CLOSED, w).

(** DEL; its reply (the number of keys removed) is not read by the caller. *)
Definition redis_del (c : client) (keys : list string) : M world unit := fun w =>
  let w := log (EvDel keys) w in
  if connected w then (Normal tt, set_store (foldr delete (store w) keys) w)
  else (Throw CLOSED, w).

(** [utils/redis.js]: [getRedisClient] *)
Definition getRedisClient : M world (option client) := fun w =>
  (Normal (redisClient w), w).

(** ** The response object and route handlers *)

(** The one method of [res] that the cache layer replaces. *)
Record response := { json : jsval -> M world unit }.

(** [res.status(code)] *)
Definition res_status (code : nat) : M world unit := modify (set_statusCode code).

(** Express's own [res.json]: serialize the body, then send it.  With no
    [json replacer] configured (the application sets none) the body is
    [JSON.stringify(data)], so a value that cannot be serialized makes the
    call throw before anything is sent. *)
Definition express_json (data : jsval) : M world unit := fun w =>
  match JSON_stringify data with
  | Throw e => (Throw e, w)
  | Normal body => (Normal tt, push_sent (statusCode w, body) w)
  end.

Definition express_res : response := {| json := express_json |}.

(** One request in flight: the world, and the request's [res] object, whose
    [json] property the middleware may reassign. *)
Record exchange := { env : world; res : response }.

Definition in_world {A} (m : M world A) : M exchange A := fun x =>
  match m (env x) with
  | (c, w') => (c, {| env := w'; res := res x |})
  end.

(** [res.json = f] *)
Definition assign_json (f : jsval -> M world unit) : M exchange unit :=
  modify (fun x => {| env := env x; res := {| json := f |} |}).

(** [res.json(data)], through whatever the property holds now. *)
Definition call_json (data : jsval) : M exchange unit := fun x =>
  in_world (json (res x) data) x.

(** A route handler as the middleware sees it: code that may answer through
    [res.status(status).json(data)], continues according to whether that call
    returned or threw, and in the end returns or rejects. *)
Inductive handler :=
| HDone
| HReject (e : error)
| HRespond (status : nat) (data : jsval) (k : completion unit -> handler).

Fixpoint run_handler (h : handler) : M exchange unit :=
  match h with
  | HDone => mret tt
  | HReject e => in_world (modify (log (EvUnhandledRejection e)))
  | HRespond status data k => fun x =>
      match (in_world (res_status status);; call_json data) x with
      | (c, x') => run_handler (k c) x'
      end
  end.

(** [next()] reaching an [async] route handler: the handler runs against the
    current [res]; its promise is dropped, so nothing it throws comes back to
    the caller of [next]. *)
Definition next_handler (h : handler) : M exchange unit :=
  in_world (modify (log EvHandler));; run_handler h.

(** The shape of every read handler of this repository:
    [try { res.status(status).json(data) } catch { res.status(500).json(failure) }]. *)
Definition guarded_handler (status : nat) (data failure : jsval) : handler :=
  HRespond status data (fun c =>
    match c with
    | Normal _ => HDone
    | Throw _ =>
        HRespond 500 failure (fun c' =>
          match c' with
          | Normal _ => HDone
          | Throw e => HReject e
          end)
    end).

(** ** [middleware/cache.js]: the middleware *)

Fixpoint includes (s needle : string) : bool :=
  String.prefix needle s
  || match s with
     | EmptyString => false
     | String _ rest => includes rest needle
     end.

Section Middleware.

(** [JSON.parse], a built-in the model takes as given: the parsed value, or
    the [SyntaxError] it throws. *)
Variable JSON_parse : string -> completion jsval.

(** The function assigned to [res.json] on a miss.  [redisClient] is the
    handle captured by the closure, [originalJson] is [res.json.bind(res)]
    taken before the assignment.  [setEx] is not awaited: its rejection goes
    to the [.catch] and is logged. *)
Definition json_with_cache (redisClient : option client) (cacheKey : string)
    (ttl : nat) (originalJson : jsval -> M world unit) (data : jsval)
  : M world unit :=
  match redisClient with
  | None => mret tt
  | Some c =>
      success ← lift_completion (get_property data "success");
      if strict_neq_bool success false then
        text ← lift_completion (JSON_stringify data);
        match text with
        | Some value =>
            try_catch (redis_setEx c cacheKey ttl value)
                      (fun err => console_error "Redis set error" err)
        | None => throw (TypeError "Invalid argument type")
        end
      else mret tt
  end;;
  originalJson data.

Definition cacheMiddleware (ttl : nat) (req : request) (next : M exchange unit)
  : M exchange unit :=
  if negb (method req =? "GET") then next
  else if includes (path req) "/admin" || ToBoolean (user req) then next
  else
    redisClient ← in_world getRedisClient;
    match redisClient with
    | None => next
    | Some c =>
        try_catch
          (let cacheKey := generateCacheKey req in
           (* cache miss: replace res.json, then continue to the route handler *)
           let miss : M exchange unit :=
             originalJson ← (fun x => (Normal (json (res x)), x));
             assign_json (json_with_cache (Some c) cacheKey ttl originalJson);;
             next in
           cachedData ← in_world (redis_get c cacheKey);
           match cachedData with
           | Some text =>
               if negb (text =? "") then
                 parsedData ← lift_completion (JSON_parse text);
                 call_json parsedData
               else miss
           | None => miss
           end)
          (fun error =>
             in_world (console_error "Cache middleware error" error);;
             next)
    end.

(** A request served by [router.get(path, cacheMiddleware(ttl), handler)]:
    it arrives at time [t] with a fresh response object, and the world it
    leaves behind is the result. *)
Definition serve (ttl : nat) (req : request) (h : handler) (t : nat) (w : world)
  : world :=
  env (cacheMiddleware ttl req (next_handler h)
         {| env := arrive t w; res := express_res |}).2.

End Middleware.

(** The same request served by [router.get(path, handler)], with no cache
    layer in front of the handler. *)
Definition serve_uncached (h : handler) (t : nat) (w : world) : world :=
  env (next_handler h {| env := arrive t w; res := express_res |}).2.

(** ** [middleware/cache.js]: invalidation *)

Definition invalidateCache (pattern : string) : M world unit :=
  modify (log (EvInvalidate pattern));;
  redisClient ← getRedisClient;
  match redisClient with
  | None => mret tt
  | Some c =>
      try_catch
        (keys ← redis_keys c pattern;
         if (0 <? length keys)%nat then redis_del c keys else mret tt)
        (fun error => console_error "Cache invalidation error" error)
  end.

Definition invalidateRouteCache (route : string) : M world unit :=
  invalidateCache ("GET:/api/" ++ route ++ "*").

Definition invalidateResourceCache (resource : string) : M world unit :=
  invalidateRouteCache resource;;
  (if resource =? "blog" then
     invalidateRouteCache "blog/categories";;
     invalidateRouteCache "blog/tags"
   else mret tt);;
  (if resource =? "skills" then invalidateRouteCache "skills/categories"
   else mret tt).

(** The patterns [invalidateResourceCache] purges for a resource: its own
    prefix, then the secondary views the two [if] statements name. *)
Definition resource_patterns (resource : string) : list string :=
  let primary := "GET:/api/" ++ resource ++ "*" in
  (primary
   :: (if resource =? "blog"
       then ["GET:/api/blog/categories*"; "GET:/api/blog/tags*"] else [])
   ++ (if resource =? "skills" then ["GET:/api/skills/categories*"] else []))%list.

(** The world [invalidateCache(pattern)] leaves behind, written as one
    function of the world it starts from. *)
Definition invalidated (pattern : string) (w : world) : world :=
  let called := log (EvInvalidate pattern) w in
  match redisClient w with
  | None => called
  | Some _ =>
      let asked := log (EvKeys pattern) called in
      if connected w then
        match matching_keys pattern (store w) (now w) with
        | [] => asked
        | keys => set_store (foldr delete (store w) keys) (log (EvDel keys) asked)
        end
      else log (EvConsoleError "Cache invalidation error" CLOSED) asked
  end.

Definition invalidated_all (patterns : list string) (w : world) : world :=
  foldl (fun w p => invalidated p w) w patterns.

(** No key that starts with [prefix] can be read back, now or later. *)
Definition purged (prefix : string) (w : world) : Prop :=
  forall key t,
    String.prefix prefix key = true -> now w <= t ->
    redis_lookup (store w) t key = None.

(** A pattern text with no glob operator in it. *)
Definition literal (p : string) : bool :=
  forallb (fun c => negb (Ascii.eqb c "*") && negb (Ascii.eqb c "?")
                    && negb (Ascii.eqb c "\"))
          (list_ascii_of_string p).

(** A name that KEYS reads as plain text when it stands in a pattern: no
    glob operator and no bracket, which would open a character class. *)
Definition plain (name : string) : bool :=
  literal name
  && forallb (fun c => negb (Ascii.eqb c "[")) (list_ascii_of_string name).

(** ** Reading the trace *)

(** The events a run added to the trace. *)
Definition new_events (before after : world) : list event :=
  drop (length (trace before)) (trace after).

Definition is_command (ev : event) : bool :=
  match ev with
  | EvGet _ | EvSetEx _ _ _ | EvKeys _ | EvDel _ => true
  | _ => false
  end.

(** The Redis commands among some events. *)
Definition commands (evs : list event) : list event := List.filter is_command evs.

Definition is_marker (ev : event) : bool :=
  match ev with
  | EvPersisted _ | EvInvalidate _ => true
  | _ => false
  end.

(** The database writes that resolved and the invalidation calls among some
    events, in the order they happened. *)
Definition markers (evs : list event) : list event := List.filter is_marker evs.

Definition is_handler_entry (ev : event) : bool :=
  match ev with
  | EvHandler => true
  | _ => false
  end.

(** How often the route handler was entered. *)
Definition handler_calls (evs : list event) : nat :=
  length (List.filter is_handler_entry evs).

(** Among the events of one run: either no database write resolved and no
    invalidation was called, or one write resolved and the invalidation calls
    for [patterns] follow it, in order. *)
Definition written_then_invalidated (patterns : list string) (before after : world)
  : Prop :=
  markers (new_events before after) = []
  \/ exists what,
       markers (new_events before after)
       = EvPersisted what :: map EvInvalidate patterns.

(** An event that is neither a Redis command, nor a handler entry, nor a
    marker. *)
Definition silent (ev : event) : Prop :=
  is_command ev = false /\ is_handler_entry ev = false /\ is_marker ev = false.

(** ** The write routes *)

(** [createSlug]: lower-case the title, turn every run of characters outside
    [a-z0-9] into one dash, drop a dash at either end.  Only the ASCII letters
    need their lower case: every other character ends up in a dash whatever
    its case.  A title that is not a string has no [toLowerCase] to call. *)
Definition to_lower (c : ascii) : ascii :=
  let n := nat_of_ascii c in
  if (65 <=? n)%nat && (n <=? 90)%nat then ascii_of_nat (n + 32) else c.

Definition is_slug_char (c : ascii) : bool :=
  let n := nat_of_ascii c in
  ((97 <=? n)%nat && (n <=? 122)%nat) || ((48 <=? n)%nat && (n <=? 57)%nat).

Fixpoint dashes (s : string) (in_run : bool) : string :=
  match s with
  | EmptyString => ""
  | String c rest =>
      let c := to_lower c in
      if is_slug_char c then String c (dashes rest false)
      else if in_run then dashes rest true
      else String "-" (dashes rest true)
  end.

Fixpoint drop_last_dash (s : string) : string :=
  match s with
  | EmptyString => ""
  | String c EmptyString => if Ascii.eqb c "-" then "" else s
  | String c rest => String c (drop_last_dash rest)
  end.

Definition drop_first_dash (s : string) : string :=
  match s with
  | String "-" rest => rest
  | _ => s
  end.

Definition createSlug (title : jsval) : completion string :=
  match title with
  | JStr s => Normal (drop_last_dash (drop_first_dash (dashes s false)))
  | JUndefined | JNull => Throw (TypeError "Cannot read properties of undefined")
  | _ => Throw (TypeError "title.toLowerCase is not a function")
  end.

(** What a write route reads of its request. *)
Record write_request := {
  body : jsval;
  params_id : string;
  file : jsval
}.

(** The own properties [{...v}] copies. *)
Definition spread (v : jsval) : list (string * jsval) :=
  match v with
  | JObj props => props
  | _ => []
  end.

(** [target.key = v] *)
Definition assign_property (target : jsval) (key : string) (v : jsval) : jsval :=
  match target with
  | JObj props => JObj (set_own props key v)
  | other => other
  end.

(** [Object.assign(target, source)] *)
Definition Object_assign (target source : jsval) : jsval :=
  fold_left (fun t kv => assign_property t kv.1 kv.2) (spread source) target.

(** A computation that may also still be running when its fuel is spent
    ([None]): the slug search has no bound of its own. *)
Definition MF (S A : Type) : Type := S -> option (completion A * S).

#[export] Instance MF_ret {S} : MRet (MF S) := fun A a s => Some (Normal a, s).
#[export] Instance MF_bind {S} : MBind (MF S) := fun A B f m s =>
  match m s with
  | Some (Normal a, s') => f a s'
  | Some (Throw e, s') => Some (Throw e, s')
  | None => None
  end.

Definition total {S A} (m : M S A) : MF S A := fun s => Some (m s).

Definition try_catchF {S A} (m : MF S A) (h : error -> MF S A) : MF S A := fun s =>
  match m s with
  | Some (Throw e, s') => h e s'
  | r => r
  end.

Section Routes.

(** The document database behind Mongoose, taken as given: a state [DB] and
    the model operations the routes call, each of which resolves with a
    document ([null] when none matched) or rejects. *)
Variable DB : Type.
Variable Model_new : string -> jsval -> jsval.
Variable Model_findOne : string -> jsval -> M DB jsval.
Variable Document_save : string -> jsval -> M DB jsval.
Variable Model_findByIdAndUpdate : string -> string -> jsval -> M DB jsval.
Variable Model_findByIdAndDelete : string -> string -> M DB jsval.

Record backend := { database : DB; cache : world }.

Definition in_cache {A} (m : M world A) : M backend A := fun s =>
  match m (cache s) with
  | (c, w') => (c, {| database := database s; cache := w' |})
  end.

Definition db_read {A} (m : M DB A) : M backend A := fun s =>
  match m (database s) with
  | (c, d') => (c, {| database := d'; cache := cache s |})
  end.

(** [await doc.save()]: once the promise resolves the document is stored. *)
Definition db_save (what : string) (m : M DB jsval) : M backend jsval := fun s =>
  match m (database s) with
  | (Normal doc, d') =>
      (Normal doc, {| database := d'; cache := log (EvPersisted what) (cache s) |})
  | (Throw e, d') => (Throw e, {| database := d'; cache := cache s |})
  end.

(** [findByIdAndUpdate] and [findByIdAndDelete] resolve with the document
    they changed, or with [null] when no document has the id and nothing was
    written. *)
Definition db_change (what : string) (m : M DB jsval) : M backend jsval := fun s =>
  match m (database s) with
  | (Normal doc, d') =>
      (Normal doc,
       {| database := d';
          cache := if ToBoolean doc then log (EvPersisted what) (cache s)
                   else cache s |})
  | (Throw e, d') => (Throw e, {| database := d'; cache := cache s |})
  end.

(** [res.status(code).json(data)] and [res.json(data)] on the untouched
    response object: the write routes do not run behind the cache middleware. *)
Definition respond (code : nat) (data : jsval) : M backend unit :=
  in_cache (res_status code;; express_json data).

Definition respond_json (data : jsval) : M backend unit :=
  in_cache (express_json data).

Definition failure (message : string) : jsval :=
  JObj [("success", JBool false); ("message", JStr message)].

Definition validation_failure (errors : list string) : jsval :=
  JObj [("success", JBool false); ("message", JStr "Validation error");
        ("errors", JArr (map JStr errors))].

Definition success_with (message : string) (data : jsval) : jsval :=
  JObj [("success", JBool true); ("message", JStr message); ("data", data)].

(** [while (await Model.findOne({ slug })) { slug = `${baseSlug}-${counter}`; counter++; }] *)
Fixpoint unique_slug (fuel : nat) (model baseSlug slug : string) (counter : Z)
  : MF backend string :=
  match fuel with
  | O => fun _ => None
  | S fuel' =>
      existing ← total (db_read (Model_findOne model (JObj [("slug", JStr slug)])));
      if ToBoolean existing then
        unique_slug fuel' model baseSlug (baseSlug ++ "-" ++ pretty counter)
                    (counter + 1)%Z
      else mret slug
  end.

(** [router.post('/')] of [routes/blog.js] and [routes/projects.js]. *)
Definition create_with_slug (model resource created failed : string)
    (fuel : nat) (req : write_request) : MF backend unit :=
  try_catchF
    (title ← total (lift_completion (get_property (body req) "title"));
     baseSlug ← total (lift_completion (createSlug title));
     slug ← unique_slug fuel model baseSlug baseSlug 1;
     let postData := JObj (set_own (spread (body req)) "slug" (JStr slug)) in
     post ← total (db_save model (Document_save model (Model_new model postData)));
     total (in_cache (invalidateResourceCache resource));;
     total (respond 201 (success_with created post)))
    (fun error =>
       total (match error with
              | ValidationError errors => respond 400 (validation_failure errors)
              | _ => respond 500 (failure failed)
              end)).

Definition blog_post : nat -> write_request -> MF backend unit :=
  create_with_slug "BlogPost" "blog" "Blog post created successfully"
                   "Server error creating blog post".

Definition projects_post : nat -> write_request -> MF backend unit :=
  create_with_slug "Project" "projects" "Project created successfully"
                   "Server error creating project".

(** [router.put('/:id')] of [routes/blog.js] and [routes/projects.js]. *)
Definition update_with_slug (model resource updated missing failed : string)
    (req : write_request) : M backend unit :=
  try_catch
    (title ← lift_completion (get_property (body req) "title");
     body' ← (if ToBoolean title then
                newSlug ← lift_completion (createSlug title);
                existing ← db_read (Model_findOne model
                              (JObj [("slug", JStr newSlug);
                                     ("_id", JObj [("$ne", JStr (params_id req))])]));
                if ToBoolean existing then mret (body req)
                else mret (assign_property (body req) "slug" (JStr newSlug))
              else mret (body req));
     doc ← db_change model (Model_findByIdAndUpdate model (params_id req) body');
     if negb (ToBoolean doc) then respond 404 (failure missing)
     else
       in_cache (invalidateResourceCache resource);;
       respond_json (success_with updated doc))
    (fun error => respond 500 (failure failed)).

Definition blog_put : write_request -> M backend unit :=
  update_with_slug "BlogPost" "blog" "Blog post updated successfully"
                   "Blog post not found" "Server error updating blog post".

Definition projects_put : write_request -> M backend unit :=
  update_with_slug "Project" "projects" "Project updated successfully"
                   "Project not found" "Server error updating project".

(** [router.delete('/:id')] of all three resource routers. *)
Definition delete_by_id (model resource deleted missing failed : string)
    (req : write_request) : M backend unit :=
  try_catch
    (doc ← db_change model (Model_findByIdAndDelete model (params_id req));
     if negb (ToBoolean doc) then respond 404 (failure missing)
     else
       in_cache (invalidateResourceCache resource);;
       respond_json (JObj [("success", JBool true); ("message", JStr deleted)]))
    (fun error => respond 500 (failure failed)).

Definition blog_delete : write_request -> M backend unit :=
  delete_by_id "BlogPost" "blog" "Blog post deleted successfully"
               "Blog post not found" "Server error deleting blog post".

Definition projects_delete : write_request -> M backend unit :=
  delete_by_id "Project" "projects" "Project deleted successfully"
               "Project not found" "Server error deleting project".

Definition skills_delete : write_request -> M backend unit :=
  delete_by_id "Skill" "skills" "Skill deleted successfully"
               "Skill not found" "Server error deleting skill".

(** [routes/skills.js] *)
Definition skills_post (req : write_request) : M backend unit :=
  try_catch
    (skill ← db_save "Skill" (Document_save "Skill" (Model_new "Skill" (body req)));
     in_cache (invalidateResourceCache "skills");;
     respond 201 (success_with "Skill created successfully" skill))
    (fun error =>
       match error with
       | ValidationError errors => respond 400 (validation_failure errors)
       | MongoServerError 11000 =>
           respond 400 (failure "Skill with this name already exists")
       | _ => respond 500 (failure "Server error creating skill")
       end).

Definition skills_put (req : write_request) : M backend unit :=
  try_catch
    (skill ← db_change "Skill"
               (Model_findByIdAndUpdate "Skill" (params_id req) (body req));
     if negb (ToBoolean skill) then respond 404 (failure "Skill not found")
     else
       in_cache (invalidateResourceCache "skills");;
       respond_json (success_with "Skill updated successfully" skill))
    (fun error => respond 500 (failure "Server error updating skill")).

(** [routes/profile.js] *)
Definition active_profile : jsval := JObj [("isActive", JBool true)].

Definition profile_put (req : write_request) : M backend unit :=
  try_catch
    (found ← db_read (Model_findOne "Profile" active_profile);
     let profile :=
       if negb (ToBoolean found) then
         Model_new "Profile"
           (JObj (set_own (spread (body req)) "isActive" (JBool true)))
       else Object_assign found (body req) in
     saved ← db_save "Profile" (Document_save "Profile" profile);
     in_cache (invalidateRouteCache "profile");;
     respond_json (success_with "Profile updated successfully" saved))
    (fun error =>
       match error with
       | ValidationError errors => respond 400 (validation_failure errors)
       | _ => respond 500 (failure "Server error updating profile")
       end).

(** [router.post('/upload-image')] and [router.post('/upload-resume')]:
    [field] is the document property that receives the uploaded file's URL,
    [payload] builds the [data] of the answer from the URL and the saved
    profile. *)
Definition profile_upload (field no_file uploaded failed : string)
    (payload : jsval -> jsval -> jsval) (req : write_request) : M backend unit :=
  try_catch
    (file_path ← (if ToBoolean (file req)
                  then lift_completion (get_property (file req) "path")
                  else mret JUndefined);
     if negb (ToBoolean file_path) then respond 400 (failure no_file)
     else
       profile ← db_read (Model_findOne "Profile" active_profile);
       if negb (ToBoolean profile) then respond 404 (failure "Profile not found")
       else
         saved ← db_save "Profile"
                   (Document_save "Profile" (assign_property profile field file_path));
         in_cache (invalidateRouteCache "profile");;
         respond_json (success_with uploaded (payload file_path saved)))
    (fun error => respond 500 (failure failed)).

Definition profile_upload_image : write_request -> M backend unit :=
  profile_upload "profileImage" "No image file provided"
    "Profile image uploaded successfully" "Server error uploading image"
    (fun imageUrl profile => JObj [("imageUrl", imageUrl); ("profile", profile)]).

Definition profile_upload_resume : write_request -> M backend unit :=
  profile_upload "resumeUrl" "No resume file provided"
    "Resume uploaded successfully" "Server error uploading resume"
    (fun resumeUrl _ => JObj [("resumeUrl", resumeUrl)]).

(** Every route that changes a resource, with the patterns its invalidation
    call purges. *)
Definition write_routes (fuel : nat)
  : list (string * list string * (write_request -> MF backend unit)) :=
  let blog := ["GET:/api/blog*"; "GET:/api/blog/categories*"; "GET:/api/blog/tags*"] in
  let projects := ["GET:/api/projects*"] in
  let skills := ["GET:/api/skills*"; "GET:/api/skills/categories*"] in
  let profile := ["GET:/api/profile*"] in
  [ ("POST /api/blog", blog, blog_post fuel);
    ("PUT /api/blog/:id", blog, fun req => total (blog_put req));
    ("DELETE /api/blog/:id", blog, fun req => total (blog_delete req));
    ("POST /api/projects", projects, projects_post fuel);
    ("PUT /api/projects/:id", projects, fun req => total (projects_put req));
    ("DELETE /api/projects/:id", projects, fun req => total (projects_delete req));
    ("POST /api/skills", skills, fun req => total (skills_post req));
    ("PUT /api/skills/:id", skills, fun req => total (skills_put req));
    ("DELETE /api/skills/:id", skills, fun req => total (skills_delete req));
    ("PUT /api/profile", profile, fun req => total (profile_put req));
    ("POST /api/profile/upload-image", profile,
     fun req => total (profile_upload_image req));
    ("POST /api/profile/upload-resume", profile,
     fun req => total (profile_upload_resume req)) ].

End Routes.

Arguments database {DB} _.
Arguments cache {DB} _.

(** ** Concrete inputs *)

(** [GET /api/projects?featured=true&status=all] and the same request with
    its two parameters in the other order. *)
Definition listing_featured_first : request :=
  express_request "GET" "/api/projects" "/"
    [("featured", "true"); ("status", "all")] JUndefined.

Definition listing_status_first : request :=
  express_request "GET" "/api/projects" "/"
    [("status", "all"); ("featured", "true")] JUndefined.

(** [GET /api/blog?page=2] and [GET /api/blog] *)
Definition blog_page_two : request :=
  express_request "GET" "/api/blog" "/" [("page", "2")] JUndefined.

Definition blog_listing : request :=
  express_request "GET" "/api/blog" "/" [] JUndefined.

(** [POST /api/blog], as the cache middleware would see it. *)
Definition blog_submission : request :=
  express_request "POST" "/api/blog" "/" [] JUndefined.

(** An empty cache behind a working connection, and the same with no
    connection handle. *)
Definition fresh_world : world :=
  {| redisClient := Some RedisClient; connected := true; store := ∅; now := 100;
     statusCode := 200; sent := []; trace := [] |}.

Definition offline_world : world :=
  {| redisClient := None; connected := false; store := ∅; now := 100;
     statusCode := 200; sent := []; trace := [] |}.

(** A cache that holds the blog listing, one post and an unrelated key. *)
Definition stocked_world : world :=
  set_store (<["GET:/api/blog" := ("[]", 3700)]>
            (<["GET:/api/blog/tags" := ("[]", 4500)]>
            (<["GET:/api/projects" := ("[]", 3700)]> ∅))) fresh_world.

Definition listing_payload : jsval :=
  JObj [("success", JBool true); ("count", JNum 1);
        ("data", JArr [JStr "portfolio"])].

Definition listing_text : string :=
  Eval vm_compute in
    match JSON_stringify listing_payload with
    | Normal (Some text) => text
    | _ => ""
    end.

Definition untagged_payload : list (string * jsval) :=
  [("data", JArr [JStr "portfolio"])].

Definition untagged_text : string :=
  Eval vm_compute in
    match JSON_stringify (JObj untagged_payload) with
    | Normal (Some text) => text
    | _ => ""
    end.



(** A payload with a BigInt in it: [JSON.stringify] throws on it. *)
Definition bigint_payload : jsval :=
  JObj [("success", JBool true); ("count", JBigInt 10)].

Definition server_error : jsval :=
  JObj [("success", JBool false); ("message", JStr "Server error")].

Definition server_error_text : string :=
  Eval vm_compute in
    match JSON_stringify server_error with
    | Normal (Some text) => text
    | _ => ""
    end.

(** A stand-in for [JSON.parse] that knows one text. *)
Definition sample_parse (text : string) : completion jsval :=
  if text =? listing_text then Normal listing_payload
  else Throw (SyntaxError "Unexpected token").

(** A [res.json] that accepts every value and notes that it was called. *)
Definition recording_json (data : jsval) : M world unit :=
  modify (push_sent (200, Some "called")).

(** A document store that counts its documents: every lookup finds nothing,
    every write succeeds. *)
Definition counter_new (model : string) (data : jsval) : jsval := data.

Definition counter_findOne (model : string) (filter : jsval) : M nat jsval :=
  fun n => (Normal JNull, n).

Definition counter_save (model : string) (doc : jsval) : M nat jsval :=
  fun n => (Normal doc, S n).

Definition counter_update (model id : string) (changes : jsval) : M nat jsval :=
  fun n => (Normal changes, n).

Definition counter_delete (model id : string) : M nat jsval :=
  fun n => (Normal (JObj [("_id", JStr id)]), pred n).

Definition new_post : write_request :=
  {| body := JObj [("title", JStr "Hello, World!")]; params_id := "";
     file := JUndefined |}.

Definition empty_backend : backend nat :=
  {| database := 0; cache := fresh_world |}.

Definition blog_post_result : option (completion unit * backend nat) :=
  blog_post nat counter_new counter_findOne counter_save 1 new_post empty_backend.

Definition backend_after_post : backend nat :=
  match blog_post_result with
  | Some (_, s') => s'
  | None => empty_backend
  end.

(** ** [utils/redis.js]: the connection handle *)

(** What the reconnect strategy tells the client library: try again after
    [delay] milliseconds, or give up with an error. *)
Inductive reconnect :=
| RetryIn (delay : Z)
| GiveUp (e : error).

(** [reconnectStrategy(retries)]: the lines it writes to [console.error], and
    its answer. *)
Definition reconnectStrategy (retries : Z) : list string * reconnect :=
  if (10 <? retries)%Z then
    (["!! Redis: Too many reconnection attempts"],
     GiveUp (OtherError "Error" "Too many retries"))
  else ([], RetryIn (Z.min (retries * 100) 3000)).

Definition set_redisClient (c : option client) (w : world) : world :=
  {| redisClient := c; connected := connected w; store := store w;
     now := now w; statusCode := statusCode w; sent := sent w; trace := trace w |}.

Definition set_connected (b : bool) (w : world) : world :=
  {| redisClient := redisClient w; connected := b; store := store w;
     now := now w; statusCode := statusCode w; sent := sent w; trace := trace w |}.

(** [client.connect()] and [client.quit()].  Whether the promise resolves is
    for the server and the network to decide: it is the argument [outcome].
    A resolved [connect] leaves a connection through which commands resolve,
    a rejected one none; a resolved [quit] closes the connection. *)
Definition redis_connect (c : client) (outcome : completion unit) : M world unit :=
  fun w =>
    match outcome with
    | Normal _ => (Normal tt, set_connected true w)
    | Throw e => (Throw e, set_connected false w)
    end.

Definition redis_quit (c : client) (outcome : completion unit) : M world unit :=
  fun w =>
    match outcome with
    | Normal _ => (Normal tt, set_connected false w)
    | Throw e => (Throw e, w)
    end.

(** [createRedisClient]: [created] is what [redis.createClient(redisConfig)]
    evaluates to (it throws on a configuration it cannot read).  The event
    listeners registered on the client only write to the console. *)
Definition createRedisClient (created : completion client)
    (connect_outcome : completion unit) : M world (option client) :=
  try_catch
    (c ← lift_completion created;
     modify (set_redisClient (Some c));;
     redis_connect c connect_outcome;;
     getRedisClient)
    (fun error => console_error "Redis connection failed" error;; mret None).

(** [initRedis] *)
Definition initRedis (created : completion client)
    (connect_outcome : completion unit) : M world (option client) :=
  current ← getRedisClient;
  match current with
  | None =>
      fresh ← createRedisClient created connect_outcome;
      modify (set_redisClient fresh)
  | Some _ => mret tt
  end;;
  getRedisClient.

(** [closeRedis] *)
Definition closeRedis (quit_outcome : completion unit) : M world unit :=
  current ← getRedisClient;
  match current with
  | Some c =>
      redis_quit c quit_outcome;;
      modify (set_redisClient None)
  | None => mret tt
  end.

(** With no connection handle in place the cache layer is switched off:
    requests are served as they are without the middleware, and
    invalidation returns without sending a command. *)
Definition cache_layer_off (JSON_parse : string -> completion jsval) (w : world) : Prop :=
  (forall ttl req h t, serve JSON_parse ttl req h t w = serve_uncached h t w)
  /\ (forall resource,
        (invalidateResourceCache resource w).1 = Normal tt
        /\ store (invalidateResourceCache resource w).2 = store w
        /\ commands (new_events w (invalidateResourceCache resource w).2) = []).

(** ** [server.js]: the CORS origins and start-up *)

(** The white space [String.prototype.trim] removes, among the code units
    below 256: tab, line feed, vertical tab, form feed, carriage return,
    space and no-break space. *)
Definition is_white_space (c : ascii) : bool :=
  let n := nat_of_ascii c in
  ((9 <=? n)%nat && (n <=? 13)%nat) || (n =? 32)%nat || (n =? 160)%nat.

Fixpoint trim_start (s : string) : string :=
  match s with
  | EmptyString => ""
  | String c rest => if is_white_space c then trim_start rest else s
  end.

Fixpoint trim_end (s : string) : string :=
  match s with
  | EmptyString => ""
  | String c rest =>
      match trim_end rest with
      | EmptyString => if is_white_space c then "" else String c ""
      | kept => String c kept
      end
  end.

Definition trim (s : string) : string := trim_end (trim_start s).

(** [s.split(sep)] for a one-character separator: the pieces between the
    separators, empty pieces included; never an empty array. *)
Fixpoint split_on (sep : ascii) (s : string) : list string :=
  match s with
  | EmptyString => [""]
  | String c rest =>
      if Ascii.eqb c sep then "" :: split_on sep rest
      else match split_on sep rest with
           | piece :: pieces => String c piece :: pieces
           | [] => [String c ""]
           end
  end.

(** [allowedOrigins], from the value of [process.env.FRONTEND_ORIGIN]
    ([None] when the variable is not set). *)
Definition allowedOrigins (FRONTEND_ORIGIN : option string) : list string :=
  match FRONTEND_ORIGIN with
  | Some s =>
      if s =? "" then ["http://localhost:3000"]
      else map trim (split_on "," s)
  | None => ["http://localhost:3000"]
  end.

Definition comma_free (s : string) : bool :=
  forallb (fun c => negb (Ascii.eqb c ",")) (list_ascii_of_string s).

(** Nothing but white space. *)
Definition blank (s : string) : bool :=
  forallb is_white_space (list_ascii_of_string s).

Definition starts_blank (s : string) : bool :=
  match s with
  | String c _ => is_white_space c
  | EmptyString => false
  end.

Fixpoint ends_blank (s : string) : bool :=
  match s with
  | EmptyString => false
  | String c EmptyString => is_white_space c
  | String _ rest => ends_blank rest
  end.

(** An origin as it should end up in the list: no comma, no white space at
    either end. *)
Definition clean_origin (s : string) : bool :=
  comma_free s && negb (starts_blank s) && negb (ends_blank s).

Definition count_commas (s : string) : nat :=
  length (List.filter (fun c => Ascii.eqb c ",") (list_ascii_of_string s)).

(** One entry of the variable as an administrator may write it: white space,
    the origin, white space. *)
Definition padded (entry : string * string * string) : string :=
  entry.1.1 ++ entry.1.2 ++ entry.2.

(** How a start-up function ends: it returns, its promise is rejected, or it
    ends the process with an exit code. *)
Inductive ended (A : Type) :=
| Returned (a : A)
| Rejected (e : error)
| ProcessExit (code : Z).
Arguments Returned {A} a.
Arguments Rejected {A} e.
Arguments ProcessExit {A} code.

(** [process.env.PORT || 5000] *)
Definition PORT (env_PORT : option string) : jsval :=
  match env_PORT with
  | Some s => if s =? "" then JNum 5000 else JStr s
  | None => JNum 5000
  end.

(** [connectDB]: [mongoose_connect] is the outcome of [mongoose.connect]. *)
Definition connectDB (mongoose_connect : completion unit) : world -> ended unit * world :=
  fun w =>
    match mongoose_connect with
    | Normal _ => (Returned tt, w)
    | Throw e =>
        (ProcessExit 1, log (EvConsoleError "Database connection failed" e) w)
    end.

(** [startServer]: [app_listen] is what the call [app.listen(PORT, callback)]
    does with the port it is handed: it returns, or it throws (a port the
    platform refuses).  The call is not awaited and is the last statement, so
    what it throws rejects the promise of [startServer]; what the server
    reports later (the port is in use) comes as an event after [startServer]
    has returned.  The result is the port the server was started on. *)
Definition startServer (env_PORT : option string) (mongoose_connect : completion unit)
    (created : completion client) (connect_outcome : completion unit)
    (app_listen : jsval -> completion unit)
  : world -> ended jsval * world :=
  fun w =>
    match connectDB mongoose_connect w with
    | (Returned _, w1) =>
        match initRedis created connect_outcome w1 with
        | (Normal _, w2) =>
            match app_listen (PORT env_PORT) with
            | Normal _ => (Returned (PORT env_PORT), w2)
            | Throw e => (Rejected e, w2)
            end
        | (Throw e, w2) => (Rejected e, w2)
        end
    | (Rejected e, w1) => (Rejected e, w1)
    | (ProcessExit code, w1) => (ProcessExit code, w1)
    end.

(** ** Slugs *)

(** Words of [a-z0-9] joined by single dashes; [after_char] says whether the
    character before was a letter or a digit. *)
Fixpoint slug_words (s : string) (after_char : bool) : bool :=
  match s with
  | EmptyString => after_char
  | String c rest =>
      if is_slug_char c then slug_words rest true
      else Ascii.eqb c "-" && after_char && slug_words rest false
  end.

(** A slug in its final form: empty, or words joined by single dashes with
    no dash at either end. *)
Definition well_formed_slug (s : string) : bool :=
  (s =? "") || slug_words s false.

(** A title without any ASCII letter or digit. *)
Definition no_slug_char (s : string) : bool :=
  forallb (fun c => negb (is_slug_char (to_lower c))) (list_ascii_of_string s).

Definition has_slug_char (s : string) : bool :=
  existsb is_slug_char (list_ascii_of_string s).

(** Letters, digits and dashes with no two dashes in a row; [after_dash]
    says whether the character before was a dash. *)
Fixpoint single_dashes (s : string) (after_dash : bool) : bool :=
  match s with
  | EmptyString => true
  | String c rest =>
      if is_slug_char c then single_dashes rest false
      else Ascii.eqb c "-" && negb after_dash && single_dashes rest true
  end.

(** The slugs the search of [router.post('/')] tries, in order: the base
    slug, then the base slug with [-1], [-2], ... appended. *)
Definition candidate (baseSlug : string) (n : nat) : string :=
  match n with
  | O => baseSlug
  | S _ => baseSlug ++ "-" ++ pretty (Z.of_nat n)
  end.

(** The same, counted from a state [slug], [counter] of the loop. *)
Fixpoint later_candidate (baseSlug slug : string) (counter : Z) (n : nat) : string :=
  match n with
  | O => slug
  | S n' => later_candidate baseSlug (baseSlug ++ "-" ++ pretty counter) (counter + 1) n'
  end.

(** ** What a write route leaves behind *)

(** The [success] flag of an answer. *)
Definition reports (data : jsval) (flag : bool) : Prop :=
  get_property data "success" = Normal (JBool flag).

(** One run of a write route, seen from the cache world [w] it started in
    and the world [w'] it left: it sent exactly one answer, the serialization
    of [data] under status [code]; and either it wrote nothing, left the
    cache alone and reported a failure, or a write resolved, the patterns of
    the route were invalidated, and then the answer went out. *)
Definition route_outcome (pats : list string) (w w' : world) : Prop :=
  exists code data body,
    JSON_stringify data = Normal (Some body)
    /\ sent w' = (sent w ++ [(code, Some body)])%list
    /\ now w' = now w
    /\ ((trace w' = trace w /\ store w' = store w
         /\ code ∈ [400; 404; 500] /\ reports data false)
        \/ (exists what,
              let w1 := invalidated_all pats (log (EvPersisted what) w) in
              trace w' = trace w1 /\ store w' = store w1
              /\ ((code ∈ [200; 201] /\ reports data true)
                  \/ (code = 500 /\ reports data false)))).

(** The text [JSON.stringify] gives for a value it accepts. *)
Definition text_of (v : jsval) : string :=
  match JSON_stringify v with
  | Normal (Some text) => text
  | _ => ""
  end.

(** Two backends that hold the same database and the same response under
    construction; their caches may differ in everything else. *)
Definition same_but_cache {DB} (s1 s2 : backend DB) : Prop :=
  database s1 = database s2
  /\ sent (cache s1) = sent (cache s2)
  /\ statusCode (cache s1) = statusCode (cache s2).

(** A computation whose result, database and response do not depend on the
    cache. *)
Definition oblivious {DB A} (m : MF (backend DB) A) : Prop :=
  forall s1 s2, same_but_cache s1 s2 ->
    match m s1, m s2 with
    | Some (c1, s1'), Some (c2, s2') => c1 = c2 /\ same_but_cache s1' s2'
    | None, None => True
    | _, _ => False
    end.

(** ** The read routes *)

(** An [async] handler given as code, called and not awaited: what it throws
    rejects a promise nobody holds. *)
Definition detached (h : M exchange unit) : M exchange unit := fun x =>
  match h x with
  | (Normal _, x') => (Normal tt, x')
  | (Throw e, x') =>
      (Normal tt, {| env := log (EvUnhandledRejection e) (env x'); res := res x' |})
  end.

(** [next()] reaching such a handler. *)
Definition next_async (h : M exchange unit) : M exchange unit :=
  in_world (modify (log EvHandler));; detached h.

Section ReadRoutes.

Variable JSON_parse : string -> completion jsval.

(** A request served by [router.get(path, cacheMiddleware(ttl), h)]. *)
Definition serve_route (ttl : nat) (req : request) (h : M exchange unit) (t : nat)
    (w : world) : world :=
  env (cacheMiddleware JSON_parse ttl req (next_async h)
         {| env := arrive t w; res := express_res |}).2.

End ReadRoutes.

(** The handlers that look up one document: [found] is the outcome of the
    database query, [label] the text written to [console.error]. *)
Definition find_or_404 (found : completion jsval) (label missing failed : string)
  : M exchange unit :=
  try_catch
    (doc ← lift_completion found;
     if negb (ToBoolean doc) then
       in_world (res_status 404);; call_json (failure missing)
     else call_json (JObj [("success", JBool true); ("data", doc)]))
    (fun error =>
       in_world (console_error label error);;
       in_world (res_status 500);; call_json (failure failed)).

(** [router.get('/')] of [routes/profile.js] *)
Definition profile_get (findOne : jsval -> completion jsval) : M exchange unit :=
  find_or_404 (findOne active_profile) "Error fetching profile" "Profile not found"
    "Server error fetching profile".

(** [router.get('/:id')] of [routes/skills.js] *)
Definition skills_get_one (findById : string -> completion jsval) (id : string)
  : M exchange unit :=
  find_or_404 (findById id) "Error fetching skill" "Skill not found"
    "Server error fetching skill".

Definition is_hex_digit (c : ascii) : bool :=
  let n := nat_of_ascii c in
  ((48 <=? n)%nat && (n <=? 57)%nat) || ((97 <=? n)%nat && (n <=? 102)%nat)
  || ((65 <=? n)%nat && (n <=? 70)%nat).

(** [identifier.match(/^[0-9a-fA-F]{24}$/)] *)
Definition is_object_id (identifier : string) : bool :=
  (String.length identifier =? 24)%nat
  && forallb is_hex_digit (list_ascii_of_string identifier).

(** [router.get('/:identifier')] of [routes/projects.js] *)
Definition projects_get_one (findById : string -> completion jsval)
    (findOne : jsval -> completion jsval) (identifier : string) : M exchange unit :=
  find_or_404
    (if is_object_id identifier then findById identifier
     else findOne (JObj [("slug", JStr identifier); ("status", JStr "published")]))
    "Error fetching project" "Project not found" "Server error fetching project".

(** ** [routes/skills.js]: grouping the skills by category *)

(** The property names every object inherits from [Object.prototype]. *)
Definition Object_prototype_names : list string :=
  ["constructor"; "__defineGetter__"; "__defineSetter__"; "hasOwnProperty";
   "__lookupGetter__"; "__lookupSetter__"; "isPrototypeOf"; "propertyIsEnumerable";
   "toString"; "valueOf"; "__proto__"; "toLocaleString"].

(** One step of the [reduce]: [acc] is the object under construction, used
    as a map from category names to arrays.  An inherited property passes the
    test [!acc[skill.category]] and has no [push]. *)
Definition group_step (acc : gmap string (list jsval)) (skill : jsval)
  : completion (gmap string (list jsval)) :=
  match get_property skill "category" with
  | Throw e => Throw e
  | Normal category =>
      let key := ToString category in
      match acc !! key with
      | Some group => Normal (<[key := (group ++ [skill])%list]> acc)
      | None =>
          if bool_decide (key ∈ Object_prototype_names) then
            Throw (TypeError "acc[skill.category].push is not a function")
          else Normal (<[key := [skill]]> acc)
      end
  end.

Fixpoint reduce_groups (acc : gmap string (list jsval)) (skills : list jsval)
  : completion (gmap string (list jsval)) :=
  match skills with
  | [] => Normal acc
  | skill :: rest =>
      match group_step acc skill with
      | Normal acc' => reduce_groups acc' rest
      | Throw e => Throw e
      end
  end.

(** [skills.reduce((acc, skill) => ..., {})] *)
Definition groupedSkills (skills : list jsval) : completion (gmap string (list jsval)) :=
  reduce_groups ∅ skills.

(** The name a skill is filed under, when its category can be read. *)
Definition category_key (skill : jsval) : option string :=
  match get_property skill "category" with
  | Normal category => Some (ToString category)
  | Throw _ => None
  end.

(** A skill the grouping accepts: its category can be read and is not the
    name of an inherited property. *)
Definition groupable (skill : jsval) : bool :=
  match category_key skill with
  | Some key => negb (bool_decide (key ∈ Object_prototype_names))
  | None => false
  end.

(** The skills filed under [key], in the order of the list. *)
Definition filed_under (key : string) (skills : list jsval) : list jsval :=
  filter (fun skill => category_key skill = Some key) skills.

Definition nonempty {A} (l : list A) : option (list A) :=
  match l with
  | [] => None
  | _ => Some l
  end.

(** ** Traces *)

Definition set_trace (tr : list event) (w : world) : world :=
  {| redisClient := redisClient w; connected := connected w; store := store w;
     now := now w; statusCode := statusCode w; sent := sent w; trace := tr |}.

(** A [res.json] that adds no handler entry to the trace. *)
Definition quiet (j : jsval -> M world unit) : Prop :=
  forall d w, exists evs,
    trace (j d w).2 = (trace w ++ evs)%list /\ handler_calls evs = 0.

(** ** More concrete inputs *)

(** The featured-first listing with its query object in the other order. *)
Definition listing_reparsed : request :=
  {| method := "GET";
     originalUrl := Some "/api/projects?featured=true&status=all";
     url := "/?featured=true&status=all"; path := "/";
     query := [("status", JStr "all"); ("featured", JStr "true")];
     user := JUndefined |}.

(** [GET /api/profile] *)
Definition profile_request : request :=
  express_request "GET" "/api/profile" "/" [] JUndefined.

(** A connection handle whose connection is down. *)
Definition disconnected_world : world :=
  {| redisClient := Some RedisClient; connected := false; store := ∅; now := 100;
     statusCode := 200; sent := []; trace := [] |}.

(** The counting store behind the stocked cache, and behind no cache. *)
Definition stocked_backend : backend nat :=
  {| database := 0; cache := stocked_world |}.

Definition offline_backend : backend nat :=
  {| database := 0; cache := offline_world |}.

Definition stocked_after_post : backend nat :=
  match blog_post nat counter_new counter_findOne counter_save 1 new_post
          stocked_backend with
  | Some (_, s') => s'
  | None => stocked_backend
  end.

Definition post_answer : option string :=
  match sent (cache stocked_after_post) with
  | [(_, body)] => body
  | _ => None
  end.

Definition blog_patterns : list string :=
  ["GET:/api/blog*"; "GET:/api/blog/categories*"; "GET:/api/blog/tags*"].

Definition untitled_post : write_request :=
  {| body := JObj [("content", JStr "text")]; params_id := ""; file := JUndefined |}.

(** A document store that holds a list of slugs: a lookup by slug finds a
    document when the slug is on the list. *)
Definition shelf_findOne (model : string) (filter : jsval) : M (list string) jsval :=
  fun taken =>
    match get_property filter "slug" with
    | Normal (JStr slug) =>
        (Normal (if bool_decide (slug ∈ taken) then JObj [("slug", JStr slug)]
                 else JNull), taken)
    | _ => (Normal JNull, taken)
    end.

Definition crowded_backend : backend (list string) :=
  {| database := ["hello-world"; "hello-world-1"]; cache := stocked_world |}.

Definition sample_profile : jsval :=
  JObj [("firstName", JStr "Ada"); ("isActive", JBool true)].

Definition sample_profile_text : string :=
  Eval vm_compute in
    match JSON_stringify (JObj [("success", JBool true); ("data", sample_profile)]) with
    | Normal (Some text) => text
    | _ => ""
    end.

Definition sample_skills : list jsval :=
  [JObj [("name", JStr "Rocq"); ("category", JStr "languages")];
   JObj [("name", JStr "Redis"); ("category", JStr "databases")];
   JObj [("name", JStr "OCaml"); ("category", JStr "languages")]].

(** * Properties *)

Arguments generateCacheKey : simpl never.
Arguments redis_lookup : simpl never.
Arguments matching_keys : simpl never.
Arguments JSON_stringify : simpl never.
Arguments get_property : simpl never.
Arguments strict_neq_bool : simpl never.
Arguments ToBoolean : simpl never.
Arguments includes : simpl never.
Arguments createSlug : simpl never.
Arguments set_own : simpl never.
Arguments assign_property : simpl never.
Arguments Object_assign : simpl never.
Arguments json_with_cache : simpl never.
Arguments express_json : simpl never.
Arguments invalidateCache : simpl never.
Arguments invalidateResourceCache : simpl never.
Arguments invalidated : simpl never.
Arguments invalidated_all : simpl never.
Arguments resource_patterns : simpl never.

(** Unfold the monadic plumbing and the primitive operations, then compute. *)
Ltac mstep :=
  unfold mbind, M_bind, mret, M_ret, lift_completion, throw, try_catch, modify,
    in_world, call_json, assign_json, getRedisClient, redis_get, redis_setEx,
    redis_keys, redis_del, console_error, res_status; cbn.

(** ** Key derivation *)

Lemma get_own_perm (q1 q2 : list (string * jsval)) key :
  NoDup (Object_keys q1) -> q1 ≡ₚ q2 -> get_own q1 key = get_own q2 key.
Proof.
  intros Hnd Hp.
  induction Hp as [|[k v] l l' Hp IH|[k1 v1] [k2 v2] l|l l' l'' Hp1 IH1 Hp2 IH2].
  - reflexivity.
  - simpl. destruct (k =? key); [reflexivity|].
    apply IH. unfold Object_keys in Hnd. simpl in Hnd. by apply NoDup_cons_1_2 in Hnd.
  - unfold Object_keys in Hnd. simpl in Hnd.
    apply NoDup_cons in Hnd as [Hnotin _].
    simpl. destruct (String.eqb_spec k2 key) as [->|]; [|reflexivity].
    destruct (String.eqb_spec k1 key) as [->|]; [|reflexivity].
    exfalso. apply Hnotin. left.
  - rewrite IH1 by assumption. apply IH2.
    unfold Object_keys in *.
    assert (map fst l ≡ₚ map fst l') as <- by (by apply Permutation_map).
    exact Hnd.
Qed.

Lemma get_own_absent props key :
  key ∉ Object_keys props -> get_own props key = JUndefined.
Proof.
  induction props as [|[k v] props IH]; [done|]. unfold Object_keys. cbn.
  intros Hnotin. apply not_elem_of_cons in Hnotin as [Hne Hnotin].
  destruct (String.eqb_spec k key); [congruence|]. by apply IH.
Qed.

Lemma sort_strings_perm (l1 l2 : list string) :
  l1 ≡ₚ l2 -> sort_strings l1 = sort_strings l2.
Proof.
  intros Hp. unfold sort_strings.
  apply (Sorted_unique String.le); try apply Sorted_merge_sort; try apply _.
  by rewrite !merge_sort_Permutation.
Qed.

(** The sorted query string does not depend on the order in which the
    parameters were parsed. *)
Lemma queryString_perm (q1 q2 : list (string * jsval)) :
  NoDup (Object_keys q1) -> q1 ≡ₚ q2 -> queryString q1 = queryString q2.
Proof.
  intros Hnd Hp. unfold queryString.
  rewrite (sort_strings_perm (Object_keys q1) (Object_keys q2))
    by (unfold Object_keys; by apply Permutation_map).
  f_equal. apply map_ext. intros key. by rewrite (get_own_perm q1 q2).
Qed.

(** X1: the key is a function of the method, the request target as Express
    keeps it, and the sorted query string: two requests that agree on the first two
    and carry the same parameters in any order get the same key. *)
Lemma generateCacheKey_same_target (r1 r2 : request) :
  method r1 = method r2 ->
  or_else (originalUrl r1) (url r1) = or_else (originalUrl r2) (url r2) ->
  NoDup (Object_keys (query r1)) -> query r1 ≡ₚ query r2 ->
  generateCacheKey r1 = generateCacheKey r2.
Proof.
  intros Hm Hu Hnd Hp. unfold generateCacheKey.
  by rewrite Hm, Hu, (queryString_perm _ _ Hnd Hp).
Qed.

Lemma append_assoc (a b c : string) : (a ++ b) ++ c = a ++ b ++ c.
Proof.
  induction a as [|x a IH]; [reflexivity|].
  change (String x ((a ++ b) ++ c) = String x (a ++ b ++ c)). by rewrite IH.
Qed.

Lemma append_nil_r (a : string) : a ++ "" = a.
Proof.
  induction a as [|x a IH]; [reflexivity|].
  change (String x (a ++ "") = String x a). by rewrite IH.
Qed.

(** The key of a request with a query string, as Express delivers it: the
    request target with the query string as sent, then the sorted query
    string once more. *)
Lemma generateCacheKey_of_express_request m target rel p params u :
  let req := express_request m target rel (p :: params) u in
  generateCacheKey req
  = m ++ ":" ++ target ++ "?" ++ raw_query_string (p :: params)
    ++ (if queryString (query req) =? "" then ""
        else "?" ++ queryString (query req)).
Proof.
  intros req. unfold generateCacheKey.
  assert (or_else (originalUrl req) (url req)
          = target ++ "?" ++ raw_query_string (p :: params)) as ->.
  { subst req. unfold express_request, or_else. cbn [originalUrl url].
    destruct (String.eqb_spec (target ++ "?" ++ raw_query_string (p :: params)) "")
      as [E|]; [|done].
    by destruct target. }
  cbn [method req express_request].
  destruct (queryString (query req) =? "").
  - by rewrite append_nil_r.
  - by rewrite !append_assoc.
Qed.

(** C2, evaluated on the code: two requests with the same method, the same
    path and the same two query parameters in opposite orders get different
    keys, because the request target that opens the key still carries the
    query string in the order it was sent. *)
Theorem generateCacheKey_keeps_raw_query_order :
  method listing_featured_first = method listing_status_first
  /\ path listing_featured_first = path listing_status_first
  /\ query listing_featured_first ≡ₚ query listing_status_first
  /\ generateCacheKey listing_featured_first
     = "GET:/api/projects?featured=true&status=all?featured=true&status=all"
  /\ generateCacheKey listing_status_first
     = "GET:/api/projects?status=all&featured=true?featured=true&status=all"
  /\ (generateCacheKey listing_featured_first
      =? generateCacheKey listing_status_first) = false.
Proof.
  repeat split; try reflexivity.
  simpl. apply Permutation_swap.
Qed.

(** C8, evaluated on the code: for a request with a query string the key
    holds the query twice, once as sent inside the request target and once
    sorted, and so is not of the documented form; without a query string it
    is. *)
Theorem generateCacheKey_repeats_query :
  generateCacheKey blog_page_two = "GET:/api/blog?page=2?page=2"
  /\ documented_key "GET" "/api/blog" (query blog_page_two) = "GET:/api/blog?page=2"
  /\ (generateCacheKey blog_page_two
      =? documented_key "GET" "/api/blog" (query blog_page_two)) = false
  /\ generateCacheKey blog_listing = documented_key "GET" "/api/blog" [].
Proof. repeat split; reflexivity. Qed.

(** ** The trace *)

Lemma new_events_app w w' d :
  trace w' = (trace w ++ d)%list -> new_events w w' = d.
Proof. unfold new_events. intros ->. apply drop_app_length. Qed.

Lemma markers_app d1 d2 : markers (d1 ++ d2) = (markers d1 ++ markers d2)%list.
Proof. apply List.filter_app. Qed.

Lemma commands_app d1 d2 : commands (d1 ++ d2) = (commands d1 ++ commands d2)%list.
Proof. apply List.filter_app. Qed.

Lemma handler_calls_app d1 d2 :
  handler_calls (d1 ++ d2) = handler_calls d1 + handler_calls d2.
Proof. unfold handler_calls. by rewrite List.filter_app, length_app. Qed.

Lemma commands_silent d : Forall silent d -> commands d = [].
Proof.
  induction 1 as [|ev d [H1 _] _ IH]; [done|].
  unfold commands in *. cbn. by rewrite H1.
Qed.

Lemma handler_calls_silent d : Forall silent d -> handler_calls d = 0.
Proof.
  induction 1 as [|ev d (_ & H1 & _) _ IH]; [done|].
  unfold handler_calls in *. cbn. by rewrite H1.
Qed.

(** ** Serialization *)

Lemma pretty_N_go_nonempty x s : s <> "" -> pretty_N_go x s <> "".
Proof.
  revert s. induction (N.lt_wf_0 x) as [x _ IH]; intros s Hs.
  assert (x = 0 \/ 0 < x)%N as [->|Hx] by lia.
  - by rewrite pretty_N_go_0.
  - rewrite pretty_N_go_step by done. apply IH; [by apply N.div_lt|done].
Qed.

Lemma pretty_Z_nonempty (n : Z) : pretty n <> "".
Proof.
  destruct n as [|p|p]; [done| |done].
  unfold pretty, pretty_Z, pretty, pretty_positive, pretty, pretty_N.
  case_decide; [done|].
  rewrite pretty_N_go_step by lia. by apply pretty_N_go_nonempty.
Qed.

(** What [JSON.stringify] returns is never the empty string, so a cached
    text always passes the truthiness test on a hit. *)
Lemma JSON_stringify_nonempty v text :
  JSON_stringify v = Normal (Some text) -> text <> "".
Proof.
  unfold JSON_stringify.
  destruct v as [| |[|]|n|n|s|items|props]; simpl; try congruence.
  - intros [= <-]. apply pretty_Z_nonempty.
  - intros [= <-]. done.
  - destruct (_ items); [|done]. by intros [= <-].
  - destruct (_ props); [|done]. by intros [= <-].
Qed.

(** Only [undefined] serializes to [undefined]; reading its [success]
    property has thrown before the serializer is reached. *)
Lemma JSON_stringify_undefined v : JSON_stringify v = Normal None -> v = JUndefined.
Proof.
  unfold JSON_stringify.
  destruct v as [| |[|]|n|n|s|items|props]; simpl; try congruence.
  - by destruct (_ items).
  - by destruct (_ props).
Qed.

Lemma unserializable_has_properties d e :
  JSON_stringify d = Throw e -> exists v, get_property d "success" = Normal v.
Proof.
  destruct d as [| |[|]| | | | |]; unfold JSON_stringify, get_property; cbn;
    try done; eauto.
Qed.

Lemma strict_neq_bool_false v : strict_neq_bool v false = false <-> v = JBool false.
Proof.
  destruct v as [| |[|]| | | | |]; unfold strict_neq_bool; cbn; split; congruence.
Qed.

Lemma express_json_throws d e w :
  JSON_stringify d = Throw e -> express_json d w = (Throw e, w).
Proof. unfold express_json. by intros ->. Qed.

Lemma express_json_sends d body w :
  JSON_stringify d = Normal body ->
  express_json d w = (Normal tt, push_sent (statusCode w, body) w).
Proof. unfold express_json. by intros ->. Qed.

Lemma redis_lookup_insert st key v expiry t :
  redis_lookup (<[key := (v, expiry)]> st) t key
  = if (t <? expiry)%nat then Some v else None.
Proof. unfold redis_lookup. by rewrite lookup_insert_eq. Qed.

(** ** The replaced [res.json] *)

Lemma json_with_cache_skips c key ttl oj data w :
  get_property data "success" = Normal (JBool false) ->
  json_with_cache (Some c) key ttl oj data w = oj data w.
Proof. intros H. unfold json_with_cache. mstep. by rewrite H. Qed.

Lemma json_with_cache_stores c key ttl oj d v text w :
  get_property d "success" = Normal v -> strict_neq_bool v false = true ->
  JSON_stringify d = Normal (Some text) -> connected w = true -> 0 < ttl ->
  json_with_cache (Some c) key ttl oj d w
  = oj d (set_store (<[key := (text, now w + ttl)]> (store w))
            (log (EvSetEx key ttl text) w)).
Proof.
  intros Hs Hv Ht Hc Httl. unfold json_with_cache. mstep.
  rewrite Hs, Hv, Ht, Hc.
  destruct ttl; [lia|]. cbn. reflexivity.
Qed.


(** Whatever the cache step does with a payload that has properties and
    serializes, the original [res.json] then runs on that payload, with the
    response untouched so far. *)
Lemma json_with_cache_delivers c key ttl oj d v text w :
  get_property d "success" = Normal v -> JSON_stringify d = Normal (Some text) ->
  exists w1, json_with_cache (Some c) key ttl oj d w = oj d w1
             /\ sent w1 = sent w /\ statusCode w1 = statusCode w.
Proof.
  intros Hs Ht. unfold json_with_cache. mstep. rewrite Hs.
  destruct (strict_neq_bool v false); [|by exists w].
  rewrite Ht. destruct (connected w); [|by eexists].
  destruct ttl; by eexists.
Qed.

Lemma json_with_cache_throws c key ttl oj d v e w :
  get_property d "success" = Normal v -> strict_neq_bool v false = true ->
  JSON_stringify d = Throw e ->
  json_with_cache (Some c) key ttl oj d w = (Throw e, w).
Proof.
  intros Hs Hv Ht. unfold json_with_cache. mstep. by rewrite Hs, Hv, Ht.
Qed.




(** A payload that cannot be serialized makes the replaced [res.json] throw
    what Express's own [res.json] throws, in an unchanged world. *)
Lemma json_with_cache_throws_as_express c key ttl data e w :
  JSON_stringify data = Throw e ->
  json_with_cache (Some c) key ttl express_json data w = (Throw e, w).
Proof.
  intros Ht. destruct (unserializable_has_properties _ _ Ht) as [v Hv].
  destruct (strict_neq_bool v false) eqn:E.
  - by apply (json_with_cache_throws _ _ _ _ _ v).
  - apply strict_neq_bool_false in E as ->.
    rewrite json_with_cache_skips by done. by apply express_json_throws.
Qed.

(** C7, as the code has it: for a payload that cannot be serialized nothing
    is cached and nothing is sent; the replaced [res.json] throws the
    serializer's exception to the handler without reaching the original
    [res.json] (unless the payload is tagged [success: false], when no
    serialization is attempted and the original is called directly), and
    that is the exception Express's own [res.json] throws for the same
    payload, leaving the same world. *)
Theorem json_with_cache_unserializable c key ttl data e w :
  JSON_stringify data = Throw e ->
  json_with_cache (Some c) key ttl express_json data w = (Throw e, w)
  /\ express_json data w = (Throw e, w)
  /\ (forall oj, get_property data "success" <> Normal (JBool false) ->
        json_with_cache (Some c) key ttl oj data w = (Throw e, w)).
Proof.
  intros Ht. split; [by apply json_with_cache_throws_as_express|].
  split; [by apply express_json_throws|].
  intros oj Hne. destruct (unserializable_has_properties _ _ Ht) as [v Hv].
  apply (json_with_cache_throws _ _ _ _ _ v); try done.
  destruct (strict_neq_bool v false) eqn:E; [done|].
  apply strict_neq_bool_false in E. congruence.
Qed.

(** The amended C7 at the BigInt payload. *)
Lemma json_with_cache_unserializable_witness :
  json_with_cache (Some RedisClient) "GET:/api/blog" 3600 express_json
    bigint_payload fresh_world
  = (Throw (TypeError "Do not know how to serialize a BigInt"), fresh_world)
  /\ express_json bigint_payload fresh_world
     = (Throw (TypeError "Do not know how to serialize a BigInt"), fresh_world)
  /\ (forall oj, get_property bigint_payload "success" <> Normal (JBool false) ->
        json_with_cache (Some RedisClient) "GET:/api/blog" 3600 oj
          bigint_payload fresh_world
        = (Throw (TypeError "Do not know how to serialize a BigInt"), fresh_world)).
Proof.
  apply (json_with_cache_unserializable RedisClient "GET:/api/blog" 3600
           bigint_payload (TypeError "Do not know how to serialize a BigInt")
           fresh_world).
  reflexivity.
Defined.

(** X2: for every payload whose properties can be read, the replaced
    [res.json] ends as Express's own does and leaves the same responses
    behind: the cache step never changes what the caller receives.  ([null] and
    [undefined] are the payloads left out: reading [data.success] throws on
    them, where Express's [res.json] would send them.) *)
Lemma json_with_cache_transparent c key ttl data v w :
  get_property data "success" = Normal v ->
  (json_with_cache (Some c) key ttl express_json data w).1 = (express_json data w).1
  /\ sent (json_with_cache (Some c) key ttl express_json data w).2
     = sent (express_json data w).2.
Proof.
  intros Hv. destruct (JSON_stringify data) as [[text|]|e] eqn:Ht.
  - destruct (json_with_cache_delivers c key ttl express_json data v text w Hv Ht)
      as (w1 & -> & Hsent & Hst).
    rewrite !(express_json_sends _ (Some text)) by done. cbn.
    by rewrite Hsent, Hst.
  - apply JSON_stringify_undefined in Ht. subst data. discriminate.
  - by rewrite (json_with_cache_throws_as_express c key ttl data e w Ht),
      (express_json_throws data e w Ht).
Qed.

Example null_payload_is_not_transparent :
  json_with_cache (Some RedisClient) "GET:/api/blog" 3600 express_json JNull fresh_world
  = (Throw (TypeError "Cannot read properties of null"), fresh_world)
  /\ express_json JNull fresh_world
     = (Normal tt, push_sent (200, Some "null") fresh_world).
Proof. split; reflexivity. Qed.

(** C10: the test is [success !== false] and nothing more.  A payload whose
    [success] property reads as anything other than the boolean [false] (in
    particular an object with no such property, where it reads as
    [undefined]) is stored and can be read back until its expiry; only
    [success: false] keeps a payload out of the cache. *)
Theorem json_with_cache_tests_only_false c key ttl data v text w :
  get_property data "success" = Normal v ->
  JSON_stringify data = Normal (Some text) ->
  connected w = true -> 0 < ttl ->
  let w' := (json_with_cache (Some c) key ttl express_json data w).2 in
  let cached :=
    store w' = <[key := (text, now w + ttl)]> (store w)
    /\ forall t, now w <= t < now w + ttl ->
                 redis_lookup (store w') t key = Some text in
  (v <> JBool false -> cached)
  /\ (v = JBool false -> store w' = store w)
  /\ (forall props, data = JObj props -> "success" ∉ Object_keys props -> cached).
Proof.
  intros Hv Ht Hc Httl w' cached.
  assert (v <> JBool false -> cached) as Hcached.
  { intros Hne. subst cached w'.
    rewrite (json_with_cache_stores _ _ _ _ _ v text); try done.
    - rewrite (express_json_sends _ (Some text)) by done. cbn. split; [done|].
      intros t Hlt. rewrite redis_lookup_insert.
      destruct (Nat.ltb_spec t (now w + ttl)); [done|lia].
    - destruct (strict_neq_bool _ false) eqn:E; [done|].
      by apply strict_neq_bool_false in E. }
  split; [exact Hcached|]. split.
  - intros ->. subst w'. rewrite json_with_cache_skips by done.
    by rewrite (express_json_sends _ (Some text)).
  - intros props -> Habs. apply Hcached.
    unfold get_property in Hv. injection Hv as <-. by rewrite get_own_absent.
Qed.

(** C10 at a payload that has no [success] property. *)
Lemma json_with_cache_tests_only_false_witness :
  let w' := (json_with_cache (Some RedisClient) "GET:/api/blog" 3600 express_json
               (JObj untagged_payload) fresh_world).2 in
  let cached :=
    store w' = <["GET:/api/blog" := (untagged_text, now fresh_world + 3600)]>
                 (store fresh_world)
    /\ forall t, now fresh_world <= t < now fresh_world + 3600 ->
                 redis_lookup (store w') t "GET:/api/blog" = Some untagged_text in
  (JUndefined <> JBool false -> cached)
  /\ (JUndefined = JBool false -> store w' = store fresh_world)
  /\ (forall props, JObj untagged_payload = JObj props ->
                    "success" ∉ Object_keys props -> cached).
Proof.
  apply (json_with_cache_tests_only_false RedisClient "GET:/api/blog" 3600
           (JObj untagged_payload) JUndefined untagged_text fresh_world);
    [reflexivity | reflexivity | reflexivity | lia].
Defined.

(** ** Route handlers *)

Lemma try_catch_normal {S A} (m : M S A) h x a :
  (m x).1 = Normal a -> try_catch m h x = m x.
Proof. unfold try_catch. destruct (m x) as [[?|?] ?]; simpl; congruence. Qed.

(** Nothing a handler throws comes back through [next()]. *)
Lemma run_handler_normal h x : (run_handler h x).1 = Normal tt.
Proof.
  revert x. induction h as [| e | st d k IH]; intros x; [reflexivity..|].
  simpl.
  match goal with |- context [match ?m with _ => _ end] => destruct m as [c x'] end.
  apply IH.
Qed.

Lemma next_handler_normal h x : (next_handler h x).1 = Normal tt.
Proof. unfold next_handler. mstep. apply run_handler_normal. Qed.

(** A handler that answers through Express's own [res.json] leaves the
    keyspace alone and adds only silent events. *)
Lemma run_handler_express h x :
  res x = express_res ->
  exists d, let x' := (run_handler h x).2 in
    res x' = express_res /\ store (env x') = store (env x)
    /\ trace (env x') = (trace (env x) ++ d)%list /\ Forall silent d.
Proof.
  revert x. induction h as [| e | st d k IH]; intros x Hres.
  - exists []. cbn. by rewrite app_nil_r.
  - exists [EvUnhandledRejection e]. cbn. repeat split; try done. by repeat constructor.
  - cbn. repeat (progress mstep). rewrite Hres. cbn. unfold express_json.
    destruct (JSON_stringify d) as [body|e]; cbn.
    + match goal with |- context [run_handler ?h ?y] =>
        destruct (IH (Normal tt) y) as (d' & H1 & H2 & H3 & H4); [by destruct x|] end.
      exists d'. cbn in *. by rewrite H1, H2, H3.
    + match goal with |- context [run_handler ?h ?y] =>
        destruct (IH (Throw e) y) as (d' & H1 & H2 & H3 & H4); [by destruct x|] end.
      exists d'. cbn in *. by rewrite H1, H2, H3.
Qed.

Lemma serve_uncached_effect h t w :
  let w' := serve_uncached h t w in
  store w' = store w
  /\ commands (new_events w w') = []
  /\ handler_calls (new_events w w') = 1.
Proof.
  unfold serve_uncached, next_handler. repeat (progress mstep).
  match goal with |- context [run_handler ?h ?y] =>
    destruct (run_handler_express h y) as (d & H1 & H2 & H3 & H4); [done|] end.
  cbn in *. rewrite H2. split; [done|].
  rewrite (new_events_app _ _ (EvHandler :: d)).
  - unfold commands, handler_calls. cbn. fold (commands d). fold (handler_calls d).
    by rewrite commands_silent, handler_calls_silent.
  - rewrite H3. cbn. by rewrite <- app_assoc.
Qed.

(** ** The middleware *)

Section MiddlewareFacts.

Variable JSON_parse : string -> completion jsval.

Lemma cacheMiddleware_bypass ttl req next x :
  method req <> "GET" \/ ToBoolean (user req) = true
  \/ includes (path req) "/admin" = true ->
  cacheMiddleware JSON_parse ttl req next x = next x.
Proof.
  intros H. unfold cacheMiddleware.
  destruct (String.eqb_spec (method req) "GET") as [Hm|Hm]; cbn; [|reflexivity].
  destruct H as [H|[H|H]]; [done| |]; rewrite H; cbn; try reflexivity.
  by rewrite orb_true_r.
Qed.

Lemma cacheMiddleware_no_client ttl req next x :
  redisClient (env x) = None ->
  cacheMiddleware JSON_parse ttl req next x = next x.
Proof.
  intros H. destruct x as [w r]. cbn in H. unfold cacheMiddleware.
  destruct (negb _); [reflexivity|]. destruct (_ || _); [reflexivity|].
  mstep. by rewrite H.
Qed.

Lemma cacheMiddleware_miss ttl req next x c :
  method req = "GET" -> includes (path req) "/admin" = false ->
  ToBoolean (user req) = false ->
  redisClient (env x) = Some c -> connected (env x) = true ->
  redis_lookup (store (env x)) (now (env x)) (generateCacheKey req) = None ->
  cacheMiddleware JSON_parse ttl req next x
  = try_catch next
      (fun error => in_world (console_error "Cache middleware error" error);; next)
      {| env := log (EvGet (generateCacheKey req)) (env x);
         res := {| json := json_with_cache (Some c) (generateCacheKey req) ttl
                             (json (res x)) |} |}.
Proof.
  intros Hm Ha Hu Hc Hcon Hmiss. unfold cacheMiddleware.
  rewrite Hm, Ha, Hu. mstep. rewrite Hc. cbn. rewrite Hcon. cbn. by rewrite Hmiss.
Qed.

Lemma cacheMiddleware_hit ttl req next x c text d' :
  method req = "GET" -> includes (path req) "/admin" = false ->
  ToBoolean (user req) = false ->
  redisClient (env x) = Some c -> connected (env x) = true ->
  redis_lookup (store (env x)) (now (env x)) (generateCacheKey req) = Some text ->
  text <> "" -> JSON_parse text = Normal d' ->
  cacheMiddleware JSON_parse ttl req next x
  = try_catch (call_json d')
      (fun error => in_world (console_error "Cache middleware error" error);; next)
      {| env := log (EvGet (generateCacheKey req)) (env x); res := res x |}.
Proof.
  intros Hm Ha Hu Hc Hcon Hhit Hne Hp. unfold cacheMiddleware.
  rewrite Hm, Ha, Hu. mstep. rewrite Hc. cbn. rewrite Hcon. cbn. rewrite Hhit.
  apply String.eqb_neq in Hne. rewrite Hne. cbn. by rewrite Hp.
Qed.

(** A command that rejects is a miss: the error is logged and the handler
    runs against the untouched [res.json]. *)
Lemma cacheMiddleware_get_fails ttl req next x c :
  method req = "GET" -> includes (path req) "/admin" = false ->
  ToBoolean (user req) = false ->
  redisClient (env x) = Some c -> connected (env x) = false ->
  cacheMiddleware JSON_parse ttl req next x
  = next {| env := log (EvConsoleError "Cache middleware error" CLOSED)
                     (log (EvGet (generateCacheKey req)) (env x));
            res := res x |}.
Proof.
  intros Hm Ha Hu Hc Hcon. unfold cacheMiddleware.
  rewrite Hm, Ha, Hu. mstep. rewrite Hc. cbn. by rewrite Hcon.
Qed.

(** C1: a GET request that is not bypassed, on a working store that holds
    nothing under its key, enters the handler once, stores the serialized
    payload under the key until [t1 + ttl], and answers with it; the same
    request at any time [t2] before that expiry is answered with the stored
    text, issues one GET and does not enter its handler. *)
Theorem cache_aside_first_and_second_read
    ttl req st d k v text d' h2 t1 t2 w :
  method req = "GET" -> includes (path req) "/admin" = false ->
  ToBoolean (user req) = false ->
  redisClient w = Some RedisClient -> connected w = true ->
  redis_lookup (store w) t1 (generateCacheKey req) = None ->
  k (Normal tt) = HDone ->
  get_property d "success" = Normal v -> v <> JBool false ->
  JSON_stringify d = Normal (Some text) ->
  JSON_parse text = Normal d' -> JSON_stringify d' = Normal (Some text) ->
  0 < ttl -> t1 <= t2 < t1 + ttl ->
  let key := generateCacheKey req in
  let w1 := serve JSON_parse ttl req (HRespond st d k) t1 w in
  let w2 := serve JSON_parse ttl req h2 t2 w1 in
  new_events w w1 = [EvGet key; EvHandler; EvSetEx key ttl text]
  /\ handler_calls (new_events w w1) = 1
  /\ store w1 = <[key := (text, t1 + ttl)]> (store w)
  /\ sent w1 = (sent w ++ [(st, Some text)])%list
  /\ new_events w1 w2 = [EvGet key]
  /\ handler_calls (new_events w1 w2) = 0
  /\ store w2 = store w1
  /\ sent w2 = (sent w1 ++ [(200, Some text)])%list.
Proof.
  intros Hm Hadm Husr Hcl Hcon Hmiss Hk Hsucc Hneq Hstr Hparse Hstr' Httl Ht
         key w1 w2.
  assert (strict_neq_bool v false = true) as Hneq'.
  { destruct (strict_neq_bool v false) eqn:E; [done|].
    by apply strict_neq_bool_false in E. }
  assert (Hw1 : w1 = push_sent (st, Some text)
            (set_store (<[key := (text, t1 + ttl)]> (store w))
               (log (EvSetEx key ttl text)
                  (set_statusCode st
                     (log EvHandler (log (EvGet key) (arrive t1 w))))))).
  { subst w1. unfold serve.
    rewrite (cacheMiddleware_miss _ _ _ _ RedisClient) by done.
    rewrite (try_catch_normal _ _ _ tt) by apply next_handler_normal.
    unfold next_handler. repeat (progress mstep).
    rewrite (json_with_cache_stores _ _ _ _ _ v text) by done.
    unfold express_json. rewrite Hstr. cbn. by rewrite Hk. }
  assert (Hw2 : w2 = push_sent (200, Some text) (log (EvGet key) (arrive t2 w1))).
  { subst w2. unfold serve.
    rewrite (cacheMiddleware_hit _ _ _ _ RedisClient text d'); try done.
    - mstep. unfold express_json. by rewrite Hstr'.
    - rewrite Hw1. cbn. done.
    - rewrite Hw1. cbn. done.
    - rewrite Hw1. cbn. rewrite redis_lookup_insert.
      destruct (Nat.ltb_spec t2 (t1 + ttl)); [done|lia].
    - by eapply JSON_stringify_nonempty. }
  assert (new_events w w1 = [EvGet key; EvHandler; EvSetEx key ttl text]) as E1.
  { apply new_events_app. rewrite Hw1. cbn. by rewrite <- !app_assoc. }
  assert (new_events w1 w2 = [EvGet key]) as E2.
  { apply new_events_app. by rewrite Hw2. }
  rewrite E1, E2. clearbody w1 w2. subst w2 w1. by repeat split.
Qed.

(** C4: for a request that is not a GET, or carries [req.user], or has
    [/admin] in its path, the middleware is the bare call of [next()] on the
    untouched response object, whatever the cache holds; served that way, a
    request issues no Redis command, leaves the keyspace as it was and
    enters its handler once. *)
Theorem bypass_touches_no_cache ttl req :
  method req <> "GET" \/ ToBoolean (user req) = true
  \/ includes (path req) "/admin" = true ->
  (forall next x, cacheMiddleware JSON_parse ttl req next x = next x)
  /\ (forall h t w,
        let w' := serve JSON_parse ttl req h t w in
        w' = serve_uncached h t w
        /\ store w' = store w
        /\ commands (new_events w w') = []
        /\ handler_calls (new_events w w') = 1).
Proof.
  intros H. split; [intros; by apply cacheMiddleware_bypass|].
  intros h t w w'. subst w'. unfold serve. rewrite cacheMiddleware_bypass by done.
  split; [done|]. apply serve_uncached_effect.
Qed.

End MiddlewareFacts.

(** C1 on the blog listing: first served at time 100, then again at time 200
    with a handler that would answer nothing. *)
Lemma cache_aside_first_and_second_read_witness :
  let key := generateCacheKey blog_listing in
  let w1 := serve sample_parse 3600 blog_listing
              (guarded_handler 200 listing_payload server_error) 100 fresh_world in
  let w2 := serve sample_parse 3600 blog_listing HDone 200 w1 in
  new_events fresh_world w1 = [EvGet key; EvHandler; EvSetEx key 3600 listing_text]
  /\ handler_calls (new_events fresh_world w1) = 1
  /\ store w1 = <[key := (listing_text, 100 + 3600)]> (store fresh_world)
  /\ sent w1 = (sent fresh_world ++ [(200, Some listing_text)])%list
  /\ new_events w1 w2 = [EvGet key]
  /\ handler_calls (new_events w1 w2) = 0
  /\ store w2 = store w1
  /\ sent w2 = (sent w1 ++ [(200, Some listing_text)])%list.
Proof.
  apply (cache_aside_first_and_second_read sample_parse 3600 blog_listing 200
           listing_payload _ (JBool true) listing_text listing_payload HDone
           100 200 fresh_world);
    try reflexivity; try lia; discriminate.
Defined.

(** C4 on a POST request. *)
Lemma bypass_touches_no_cache_witness :
  (forall next x, cacheMiddleware sample_parse 3600 blog_submission next x = next x)
  /\ (forall h t w,
        let w' := serve sample_parse 3600 blog_submission h t w in
        w' = serve_uncached h t w
        /\ store w' = store w
        /\ commands (new_events w w') = []
        /\ handler_calls (new_events w w') = 1).
Proof.
  apply (bypass_touches_no_cache sample_parse 3600 blog_submission).
  left. discriminate.
Defined.

(** ** Invalidation *)

Lemma glob_star s : glob_match "*" s = true.
Proof. induction s as [|c s IH]; [reflexivity|]. cbn in *. exact IH. Qed.

Lemma glob_literal c p s :
  negb (Ascii.eqb c "*") && negb (Ascii.eqb c "?") && negb (Ascii.eqb c "\") = true ->
  glob_match (String c p) s
  = match s with
    | EmptyString => false
    | String d s' => Ascii.eqb c d && glob_match p s'
    end.
Proof.
  destruct c as [[] [] [] [] [] [] [] []]; cbn; try discriminate; intros _;
    reflexivity.
Qed.

(** A literal text followed by a star matches exactly the keys that start
    with the text. *)
Lemma glob_prefix p s :
  literal p = true -> glob_match (p ++ "*") s = String.prefix p s.
Proof.
  revert s. induction p as [|c p IH]; intros s Hp.
  - change ("" ++ "*") with "*". rewrite glob_star. by destruct s.
  - unfold literal in Hp. cbn in Hp. apply andb_prop in Hp as [Hc Hp].
    change (String c p ++ "*") with (String c (p ++ "*")).
    rewrite glob_literal by exact Hc.
    destruct s as [|d s]; [reflexivity|]. cbn [String.prefix].
    destruct (ascii_dec c d) as [->|Hne].
    + rewrite Ascii.eqb_refl. cbn. by apply IH.
    + apply Ascii.eqb_neq in Hne. by rewrite Hne.
Qed.

Lemma elem_of_matching_keys p st t k :
  k ∈ matching_keys p st t
  <-> exists v expiry, st !! k = Some (v, expiry) /\ glob_match p k = true /\ t < expiry.
Proof.
  unfold matching_keys. rewrite list_elem_of_fmap. split.
  - intros ([k' [v e]] & -> & Hin). apply list_elem_of_filter in Hin as [HP Hin].
    apply elem_of_map_to_list in Hin. cbn in *.
    apply Is_true_true, andb_prop in HP as [Hg Ht]. apply Nat.ltb_lt in Ht. eauto.
  - intros (v & e & Hst & Hg & Ht). exists (k, (v, e)). split; [done|].
    apply list_elem_of_filter. split; [|by apply elem_of_map_to_list].
    cbn. apply Is_true_true. rewrite Hg. cbn. by apply Nat.ltb_lt.
Qed.

(** [invalidateCache] never throws, and [invalidated] is the world it
    leaves. *)
Lemma invalidateCache_eq p w : invalidateCache p w = (Normal tt, invalidated p w).
Proof.
  unfold invalidateCache, invalidated. mstep.
  destruct (redisClient w); [|reflexivity]. cbn.
  destruct (connected w) eqn:Hc; [|reflexivity]. cbn.
  destruct (matching_keys p (store w) (now w)); cbn; [reflexivity|]. by rewrite Hc.
Qed.

Lemma invalidateRouteCache_eq route w :
  invalidateRouteCache route w
  = (Normal tt, invalidated_all ["GET:/api/" ++ route ++ "*"] w).
Proof. unfold invalidateRouteCache. by rewrite invalidateCache_eq. Qed.

Lemma invalidateResourceCache_eq resource w :
  invalidateResourceCache resource w
  = (Normal tt, invalidated_all (resource_patterns resource) w).
Proof.
  unfold invalidateResourceCache, invalidateRouteCache, resource_patterns,
    invalidated_all. mstep.
  rewrite invalidateCache_eq. cbn.
  destruct (resource =? "blog"); cbn; rewrite ?invalidateCache_eq; cbn;
    destruct (resource =? "skills"); cbn; rewrite ?invalidateCache_eq; reflexivity.
Qed.

Lemma invalidated_all_cons p pats w :
  invalidated_all (p :: pats) w = invalidated_all pats (invalidated p w).
Proof. reflexivity. Qed.

Lemma invalidated_fields p w :
  redisClient (invalidated p w) = redisClient w
  /\ connected (invalidated p w) = connected w
  /\ now (invalidated p w) = now w
  /\ sent (invalidated p w) = sent w
  /\ statusCode (invalidated p w) = statusCode w.
Proof.
  unfold invalidated. destruct (redisClient w) eqn:E1; [|done].
  destruct (connected w) eqn:E2; [|done]. by destruct (matching_keys _ _ _).
Qed.

Lemma invalidated_store_connected p w c :
  redisClient w = Some c -> connected w = true ->
  store (invalidated p w)
  = foldr delete (store w) (matching_keys p (store w) (now w)).
Proof.
  intros H1 H2. unfold invalidated. rewrite H1, H2. by destruct (matching_keys _ _ _).
Qed.

(** Invalidation only removes. *)
Lemma invalidated_store_sub p w k x :
  store (invalidated p w) !! k = Some x -> store w !! k = Some x.
Proof.
  assert (exists ks, store (invalidated p w) = foldr delete (store w) ks) as [ks ->].
  { unfold invalidated. destruct (redisClient w); [|by exists []].
    destruct (connected w); [|by exists []].
    destruct (matching_keys _ _ _) as [|k0 ks]; [by exists []|by exists (k0 :: ks)]. }
  intros H. by apply lookup_foldr_delete_Some in H as [_ H].
Qed.

(** A key the pattern does not match stays as it was. *)
Lemma invalidated_keeps_other_keys p w k :
  glob_match p k = false -> store (invalidated p w) !! k = store w !! k.
Proof.
  intros Hg. unfold invalidated. destruct (redisClient w); [|done].
  destruct (connected w); [|done].
  destruct (matching_keys p (store w) (now w)) as [|k0 ks] eqn:E; [done|].
  cbn [store set_store]. rewrite <- E. apply lookup_foldr_delete_not_elem_of.
  intros Hin. apply elem_of_matching_keys in Hin as (v & e & _ & Hg' & _).
  congruence.
Qed.

Lemma invalidated_purges prefix w c :
  redisClient w = Some c -> connected w = true -> literal prefix = true ->
  purged prefix (invalidated (prefix ++ "*") w).
Proof.
  intros H1 H2 Hp k t Hk Ht.
  destruct (invalidated_fields (prefix ++ "*") w) as (_ & _ & Hnow & _).
  rewrite Hnow in Ht. unfold redis_lookup.
  rewrite (invalidated_store_connected _ _ c) by done.
  destruct (foldr delete _ _ !! k) as [[v e]|] eqn:E; [|done].
  apply lookup_foldr_delete_Some in E as [Hnotin Hst].
  destruct (Nat.ltb_spec t e); [|done].
  exfalso. apply Hnotin. apply elem_of_matching_keys. exists v, e.
  rewrite glob_prefix by done. repeat split; try done. lia.
Qed.

Lemma invalidated_keeps_purged prefix p w :
  purged prefix w -> purged prefix (invalidated p w).
Proof.
  intros H k t Hk Ht.
  destruct (invalidated_fields p w) as (_ & _ & Hnow & _).
  rewrite Hnow in Ht. specialize (H k t Hk Ht).
  unfold redis_lookup in *.
  destruct (store (invalidated p w) !! k) as [[v e]|] eqn:E; [|done].
  apply invalidated_store_sub in E. by rewrite E in H.
Qed.

Lemma invalidated_trace p w :
  exists d, trace (invalidated p w) = (trace w ++ EvInvalidate p :: d)%list
            /\ markers d = [] /\ handler_calls d = 0.
Proof.
  unfold invalidated. destruct (redisClient w); [|by exists []].
  destruct (connected w).
  - destruct (matching_keys _ _ _) as [|k ks].
    + exists [EvKeys p]. cbn. by rewrite <- app_assoc.
    + exists [EvKeys p; EvDel (k :: ks)]. cbn. by rewrite <- !app_assoc.
  - eexists [EvKeys p; _]. cbn. by rewrite <- !app_assoc.
Qed.

Lemma invalidated_all_trace pats : forall w,
  exists d, trace (invalidated_all pats w) = (trace w ++ d)%list
            /\ markers d = map EvInvalidate pats /\ handler_calls d = 0.
Proof.
  induction pats as [|p pats IH]; intros w.
  - exists []. cbn. by rewrite app_nil_r.
  - rewrite invalidated_all_cons.
    destruct (IH (invalidated p w)) as (d & Hd & Hm & Hh).
    destruct (invalidated_trace p w) as (d0 & Hd0 & Hm0 & Hh0).
    exists ((EvInvalidate p :: d0) ++ d)%list. rewrite Hd, Hd0, <- app_assoc.
    split; [done|].
    rewrite markers_app, handler_calls_app, Hm, Hh.
    change (markers (EvInvalidate p :: d0)) with (EvInvalidate p :: markers d0).
    change (handler_calls (EvInvalidate p :: d0)) with (handler_calls d0).
    by rewrite Hm0, Hh0.
Qed.

Lemma invalidated_all_keeps_purged prefix pats : forall w,
  purged prefix w -> purged prefix (invalidated_all pats w).
Proof.
  induction pats as [|p pats IH]; intros w H; [done|].
  rewrite invalidated_all_cons. apply IH. by apply invalidated_keeps_purged.
Qed.

Lemma invalidated_all_purges prefix pats : forall w c,
  redisClient w = Some c -> connected w = true -> literal prefix = true ->
  prefix ++ "*" ∈ pats -> purged prefix (invalidated_all pats w).
Proof.
  induction pats as [|p pats IH]; intros w c H1 H2 Hp Hin;
    [by apply elem_of_nil in Hin|].
  rewrite invalidated_all_cons.
  apply elem_of_cons in Hin as [<-|Hin].
  - apply invalidated_all_keeps_purged. by apply (invalidated_purges prefix w c).
  - destruct (invalidated_fields p w) as (E1 & E2 & _).
    apply (IH _ c); try done; congruence.
Qed.

Lemma invalidated_all_nothing pats : forall w c,
  redisClient w = Some c -> connected w = true ->
  (forall p, p ∈ pats -> matching_keys p (store w) (now w) = []) ->
  store (invalidated_all pats w) = store w
  /\ commands (new_events w (invalidated_all pats w)) = map EvKeys pats.
Proof.
  induction pats as [|p pats IH]; intros w c H1 H2 Hnone.
  - split; [done|]. unfold new_events. cbn. by rewrite drop_all.
  - rewrite invalidated_all_cons.
    assert (invalidated p w = log (EvKeys p) (log (EvInvalidate p) w)) as Hw.
    { unfold invalidated. rewrite H1, H2, (Hnone p); [done|left]. }
    destruct (IH (invalidated p w) c) as [Hst Hcmd].
    + by rewrite Hw.
    + by rewrite Hw.
    + intros q Hq. rewrite Hw. cbn. apply Hnone. by right.
    + split; [by rewrite Hst, Hw|].
      destruct (invalidated_all_trace pats (invalidated p w)) as (d & Hd & _).
      rewrite (new_events_app _ _ _ Hd) in Hcmd.
      rewrite (new_events_app w _ ([EvInvalidate p; EvKeys p] ++ d)).
      * by rewrite commands_app, Hcmd.
      * rewrite Hd, Hw. cbn. by rewrite <- !app_assoc.
Qed.

Lemma invalidated_all_no_client pats : forall w,
  redisClient w = None ->
  invalidated_all pats w
  = {| redisClient := redisClient w; connected := connected w; store := store w;
       now := now w; statusCode := statusCode w; sent := sent w;
       trace := (trace w ++ map EvInvalidate pats)%list |}.
Proof.
  induction pats as [|p pats IH]; intros w H.
  - cbn. rewrite app_nil_r. by destruct w.
  - rewrite invalidated_all_cons.
    assert (invalidated p w = log (EvInvalidate p) w) as -> by
      (unfold invalidated; by rewrite H).
    rewrite IH by done. cbn. by rewrite <- app_assoc.
Qed.

(** C3: on a working store, [invalidateResourceCache("blog")] returns
    normally and leaves no key beginning [GET:/api/blog] readable, the
    categories and tags views included; [invalidateResourceCache("skills")]
    does the same for [GET:/api/skills] and its categories view; for every
    resource the invalidation calls are the fixed list [resource_patterns],
    and when no live key matches any of them the keyspace is unchanged and
    only KEYS commands were sent. *)
Theorem invalidateResourceCache_purges w c :
  redisClient w = Some c -> connected w = true ->
  (exists w', invalidateResourceCache "blog" w = (Normal tt, w')
     /\ purged "GET:/api/blog" w'
     /\ purged "GET:/api/blog/categories" w'
     /\ purged "GET:/api/blog/tags" w')
  /\ (exists w', invalidateResourceCache "skills" w = (Normal tt, w')
     /\ purged "GET:/api/skills" w'
     /\ purged "GET:/api/skills/categories" w')
  /\ (forall resource, exists w',
        invalidateResourceCache resource w = (Normal tt, w')
        /\ markers (new_events w w') = map EvInvalidate (resource_patterns resource)
        /\ ((forall p, p ∈ resource_patterns resource ->
                       matching_keys p (store w) (now w) = []) ->
            store w' = store w
            /\ commands (new_events w w') = map EvKeys (resource_patterns resource))).
Proof.
  intros H1 H2. split; [|split].
  - eexists. split; [apply invalidateResourceCache_eq|].
    repeat split; apply (invalidated_all_purges _ _ w c); try done.
    + left.
    + right; left.
    + right; right; left.
  - eexists. split; [apply invalidateResourceCache_eq|].
    repeat split; apply (invalidated_all_purges _ _ w c); try done.
    + left.
    + right; left.
  - intros resource. eexists. split; [apply invalidateResourceCache_eq|].
    split.
    + destruct (invalidated_all_trace (resource_patterns resource) w)
        as (d & Hd & Hm & _).
      by rewrite (new_events_app _ _ _ Hd).
    + intros Hnone. by apply (invalidated_all_nothing _ w c).
Qed.

(** C3 on a cache that holds two blog keys and a projects key. *)
Lemma invalidateResourceCache_purges_witness :
  (exists w', invalidateResourceCache "blog" stocked_world = (Normal tt, w')
     /\ purged "GET:/api/blog" w'
     /\ purged "GET:/api/blog/categories" w'
     /\ purged "GET:/api/blog/tags" w')
  /\ (exists w', invalidateResourceCache "skills" stocked_world = (Normal tt, w')
     /\ purged "GET:/api/skills" w'
     /\ purged "GET:/api/skills/categories" w')
  /\ (forall resource, exists w',
        invalidateResourceCache resource stocked_world = (Normal tt, w')
        /\ markers (new_events stocked_world w')
           = map EvInvalidate (resource_patterns resource)
        /\ ((forall p, p ∈ resource_patterns resource ->
                       matching_keys p (store stocked_world) (now stocked_world) = []) ->
            store w' = store stocked_world
            /\ commands (new_events stocked_world w')
               = map EvKeys (resource_patterns resource))).
Proof.
  apply (invalidateResourceCache_purges stocked_world RedisClient); reflexivity.
Defined.

(** C5: with no connection handle the middleware is the bare call of
    [next()], so a request is served exactly as it is without the cache
    layer; [invalidateCache], [invalidateRouteCache] and
    [invalidateResourceCache] return normally, send no command, log no error
    and change nothing but the record of their own calls. *)
Theorem no_client_means_no_cache (JSON_parse : string -> completion jsval) w :
  redisClient w = None ->
  (forall ttl req next r,
      cacheMiddleware JSON_parse ttl req next {| env := w; res := r |}
      = next {| env := w; res := r |})
  /\ (forall ttl req h t,
        serve JSON_parse ttl req h t w = serve_uncached h t w)
  /\ (forall pattern,
        invalidateCache pattern w = (Normal tt, log (EvInvalidate pattern) w))
  /\ (forall route,
        invalidateRouteCache route w
        = (Normal tt, log (EvInvalidate ("GET:/api/" ++ route ++ "*")) w))
  /\ (forall resource, exists w',
        invalidateResourceCache resource w = (Normal tt, w')
        /\ store w' = store w /\ sent w' = sent w
        /\ new_events w w' = map EvInvalidate (resource_patterns resource)
        /\ commands (new_events w w') = []).
Proof.
  intros H. repeat split.
  - intros. by apply cacheMiddleware_no_client.
  - intros. unfold serve. by rewrite cacheMiddleware_no_client.
  - intros. rewrite invalidateCache_eq. unfold invalidated. by rewrite H.
  - intros. unfold invalidateRouteCache. rewrite invalidateCache_eq.
    unfold invalidated. by rewrite H.
  - intros resource. eexists. split; [apply invalidateResourceCache_eq|].
    rewrite invalidated_all_no_client by done. cbn.
    assert (new_events w
              {| redisClient := redisClient w; connected := connected w;
                 store := store w; now := now w; statusCode := statusCode w;
                 sent := sent w;
                 trace := (trace w ++ map EvInvalidate (resource_patterns resource))%list |}
            = map EvInvalidate (resource_patterns resource)) as ->
      by (by apply new_events_app).
    repeat split. unfold commands.
    induction (resource_patterns resource) as [|p l IH]; [done|]. cbn. exact IH.
Qed.

(** C5 on the world with no connection handle. *)
Lemma no_client_means_no_cache_witness :
  (forall ttl req next r,
      cacheMiddleware sample_parse ttl req next {| env := offline_world; res := r |}
      = next {| env := offline_world; res := r |})
  /\ (forall ttl req h t,
        serve sample_parse ttl req h t offline_world = serve_uncached h t offline_world)
  /\ (forall pattern,
        invalidateCache pattern offline_world
        = (Normal tt, log (EvInvalidate pattern) offline_world))
  /\ (forall route,
        invalidateRouteCache route offline_world
        = (Normal tt, log (EvInvalidate ("GET:/api/" ++ route ++ "*")) offline_world))
  /\ (forall resource, exists w',
        invalidateResourceCache resource offline_world = (Normal tt, w')
        /\ store w' = store offline_world /\ sent w' = sent offline_world
        /\ new_events offline_world w' = map EvInvalidate (resource_patterns resource)
        /\ commands (new_events offline_world w') = []).
Proof.
  apply (no_client_means_no_cache sample_parse offline_world). reflexivity.
Defined.

(** C7, the claim as stated, at the BigInt payload: the replaced [res.json]
    throws before a [res.json] that would have accepted the value is called,
    and the request that produced the payload ends with the handler's 500
    answer, not with the payload; nothing is cached. *)
Lemma unserializable_payload_is_not_returned :
  JSON_stringify bigint_payload
  = Throw (TypeError "Do not know how to serialize a BigInt")
  /\ json_with_cache (Some RedisClient) "GET:/api/blog" 3600 recording_json
       bigint_payload fresh_world
     = (Throw (TypeError "Do not know how to serialize a BigInt"), fresh_world)
  /\ recording_json bigint_payload fresh_world
     = (Normal tt, push_sent (200, Some "called") fresh_world)
  /\ sent (serve sample_parse 3600 blog_listing
             (guarded_handler 200 bigint_payload server_error) 100 fresh_world)
     = [(500, Some server_error_text)]
  /\ store (serve sample_parse 3600 blog_listing
              (guarded_handler 200 bigint_payload server_error) 100 fresh_world)
     = ∅.
Proof. repeat split; reflexivity. Qed.

(** ** The write routes *)

Lemma written_nothing pats w w' :
  trace w' = trace w -> written_then_invalidated pats w w'.
Proof.
  intros H. left. rewrite (new_events_app w w' []); [done|]. by rewrite app_nil_r.
Qed.

Lemma written_and_invalidated pats what w w' :
  trace w' = trace (invalidated_all pats (log (EvPersisted what) w)) ->
  written_then_invalidated pats w w'.
Proof.
  intros H. right. exists what.
  destruct (invalidated_all_trace pats (log (EvPersisted what) w))
    as (d & Hd & Hm & _).
  rewrite (new_events_app w w' (EvPersisted what :: d)).
  - change (markers (EvPersisted what :: d)) with (EvPersisted what :: markers d).
    by rewrite Hm.
  - rewrite H, Hd. cbn. by rewrite <- app_assoc.
Qed.

(** Unfold a route down to the database calls and the serializer. *)
Ltac rstep :=
  unfold mbind, MF_bind, M_bind, mret, MF_ret, M_ret, lift_completion, throw,
    try_catch, try_catchF, total, modify, db_read, db_save, db_change, in_cache,
    respond, respond_json, res_status, express_json; cbn.

(** Case-split on every outcome a route branches on, innermost first. *)
Ltac crack :=
  repeat (progress rstep
          || rewrite invalidateResourceCache_eq
          || rewrite invalidateRouteCache_eq
          || match goal with
             | |- context [match ?x with _ => _ end] =>
                 lazymatch x with
                 | context [match _ with _ => _ end] => fail
                 | _ => destruct x eqn:?
                 end
             end).

Ltac settle :=
  first [ by (cbn in *; discriminate)
        | apply written_nothing; reflexivity
        | eapply written_and_invalidated; reflexivity ].

Section RouteFacts.

Variable DB : Type.
Variable Model_new : string -> jsval -> jsval.
Variable Model_findOne : string -> jsval -> M DB jsval.
Variable Document_save : string -> jsval -> M DB jsval.
Variable Model_findByIdAndUpdate : string -> string -> jsval -> M DB jsval.
Variable Model_findByIdAndDelete : string -> string -> M DB jsval.

Lemma delete_by_id_ordered model resource deleted missing failed req s :
  written_then_invalidated (resource_patterns resource) (cache s)
    (cache (delete_by_id DB Model_findByIdAndDelete model resource deleted missing
              failed req s).2).
Proof. unfold delete_by_id. crack; settle. Qed.

Lemma update_with_slug_ordered model resource updated missing failed req s :
  written_then_invalidated (resource_patterns resource) (cache s)
    (cache (update_with_slug DB Model_findOne Model_findByIdAndUpdate model resource
              updated missing failed req s).2).
Proof. unfold update_with_slug. crack; settle. Qed.

Lemma skills_post_ordered req s :
  written_then_invalidated (resource_patterns "skills") (cache s)
    (cache (skills_post DB Model_new Document_save req s).2).
Proof. unfold skills_post. crack; settle. Qed.

Lemma skills_put_ordered req s :
  written_then_invalidated (resource_patterns "skills") (cache s)
    (cache (skills_put DB Model_findByIdAndUpdate req s).2).
Proof. unfold skills_put. crack; settle. Qed.

Lemma profile_put_ordered req s :
  written_then_invalidated ["GET:/api/profile*"] (cache s)
    (cache (profile_put DB Model_new Model_findOne Document_save req s).2).
Proof. unfold profile_put. crack; settle. Qed.

Lemma profile_upload_ordered field no_file uploaded failed payload req s :
  written_then_invalidated ["GET:/api/profile*"] (cache s)
    (cache (profile_upload DB Model_findOne Document_save field no_file uploaded
              failed payload req s).2).
Proof. unfold profile_upload. crack; settle. Qed.

(** The slug search only reads. *)
Lemma unique_slug_cache fuel : forall model baseSlug slug counter s c s',
  unique_slug DB Model_findOne fuel model baseSlug slug counter s = Some (c, s') ->
  cache s' = cache s.
Proof.
  induction fuel as [|fuel IH]; intros model baseSlug slug counter s c s'; [done|].
  cbn. rstep. destruct (Model_findOne _ _ _) as [[doc|e] d']; cbn.
  - destruct (ToBoolean doc).
    + intros H. by apply IH in H.
    + by intros [= <- <-].
  - by intros [= <- <-].
Qed.

(** Fuel only bounds the search: a search that ends within [fuel] lookups
    ends the same way with more, and a slug nobody holds is found at the
    first lookup. *)
Lemma unique_slug_step fuel model baseSlug slug counter s :
  unique_slug DB Model_findOne (S fuel) model baseSlug slug counter s
  = match Model_findOne model (JObj [("slug", JStr slug)]) (database s) with
    | (Normal doc, d') =>
        let s' := {| database := d'; cache := cache s |} in
        if ToBoolean doc then
          unique_slug DB Model_findOne fuel model baseSlug
            (baseSlug ++ "-" ++ pretty counter) (counter + 1)%Z s'
        else Some (Normal slug, s')
    | (Throw e, d') => Some (Throw e, {| database := d'; cache := cache s |})
    end.
Proof.
  cbn [unique_slug]. rstep.
  destruct (Model_findOne _ _ _) as [[doc|e] d']; cbn; [|done].
  by destruct (ToBoolean doc).
Qed.

Lemma unique_slug_more_fuel fuel : forall model baseSlug slug counter s r,
  unique_slug DB Model_findOne fuel model baseSlug slug counter s = Some r ->
  unique_slug DB Model_findOne (S fuel) model baseSlug slug counter s = Some r.
Proof.
  induction fuel as [|fuel IH]; intros model baseSlug slug counter s r; [done|].
  rewrite (unique_slug_step (S fuel)), (unique_slug_step fuel).
  destruct (Model_findOne _ _ _) as [[doc|e] d']; [|done].
  cbn zeta. destruct (ToBoolean doc); [|done]. apply IH.
Qed.

Lemma unique_slug_free fuel model baseSlug slug counter s doc d' :
  Model_findOne model (JObj [("slug", JStr slug)]) (database s) = (Normal doc, d') ->
  ToBoolean doc = false ->
  unique_slug DB Model_findOne (S fuel) model baseSlug slug counter s
  = Some (Normal slug, {| database := d'; cache := cache s |}).
Proof. intros H Hfree. rewrite unique_slug_step. by rewrite H, Hfree. Qed.

Lemma create_with_slug_more_fuel model resource created failed fuel req s r :
  create_with_slug DB Model_new Model_findOne Document_save model resource created
    failed fuel req s = Some r ->
  create_with_slug DB Model_new Model_findOne Document_save model resource created
    failed (S fuel) req s = Some r.
Proof.
  remember (S fuel) as more eqn:Hmore.
  unfold create_with_slug. rstep.
  destruct (get_property (body req) "title") as [title|e]; cbn; [|done].
  destruct (createSlug title) as [baseSlug|e]; cbn; [|done].
  destruct (unique_slug _ _ fuel _ _ _ _ _) as [r0|] eqn:Hslug; [|done].
  subst more. by rewrite (unique_slug_more_fuel _ _ _ _ _ _ _ Hslug).
Qed.

Lemma create_with_slug_ordered model resource created failed fuel req s c s' :
  create_with_slug DB Model_new Model_findOne Document_save model resource created
    failed fuel req s = Some (c, s') ->
  written_then_invalidated (resource_patterns resource) (cache s) (cache s').
Proof.
  unfold create_with_slug. rstep.
  destruct (get_property (body req) "title") as [title|e]; cbn.
  - destruct (createSlug title) as [baseSlug|e]; cbn.
    + destruct (unique_slug _ _ _ _ _ _ _ _) as [[[slug|e] s1]|] eqn:Hslug;
        [| |done]; apply unique_slug_cache in Hslug.
      * crack; intros [= <- <-]; cbn; rewrite ?Hslug; settle.
      * crack; intros [= <- <-]; cbn; rewrite ?Hslug; settle.
    + crack; intros [= <- <-]; settle.
  - crack; intros [= <- <-]; settle.
Qed.

(** C9: in every run of every write route that comes to an end, either no
    database write resolved and the invalidation was never called (the write
    rejected, matched no document, or was not reached), or the write resolved
    first and the route's invalidation calls follow it; the invalidation is
    never called before the write and never without it. *)
Theorem invalidation_follows_the_write fuel name pats route req s c s' :
  (name, pats, route)
    ∈ write_routes DB Model_new Model_findOne Document_save
        Model_findByIdAndUpdate Model_findByIdAndDelete fuel ->
  route req s = Some (c, s') ->
  written_then_invalidated pats (cache s) (cache s').
Proof.
  intros Hin Hrun. unfold write_routes in Hin.
  repeat (apply elem_of_cons in Hin as [Hin|Hin]);
    [..|by apply elem_of_nil in Hin];
    injection Hin as -> -> ->;
    try (unfold total in Hrun; injection Hrun as Hrun;
         apply (f_equal snd) in Hrun; cbn in Hrun; subst s').
  - by apply (create_with_slug_ordered _ _ _ _ _ _ _ _ _ Hrun).
  - apply update_with_slug_ordered.
  - apply delete_by_id_ordered.
  - by apply (create_with_slug_ordered _ _ _ _ _ _ _ _ _ Hrun).
  - apply update_with_slug_ordered.
  - apply delete_by_id_ordered.
  - apply skills_post_ordered.
  - apply skills_put_ordered.
  - apply delete_by_id_ordered.
  - apply profile_put_ordered.
  - apply profile_upload_ordered.
  - apply profile_upload_ordered.
Qed.

End RouteFacts.

(** C9 on [POST /api/blog] against the counting store: the post is saved,
    then the three blog patterns are invalidated. *)
Lemma invalidation_follows_the_write_witness :
  written_then_invalidated
    ["GET:/api/blog*"; "GET:/api/blog/categories*"; "GET:/api/blog/tags*"]
    (cache empty_backend) (cache backend_after_post).
Proof.
  apply (invalidation_follows_the_write nat counter_new counter_findOne counter_save
           counter_update counter_delete 1 "POST /api/blog"
           ["GET:/api/blog*"; "GET:/api/blog/categories*"; "GET:/api/blog/tags*"]
           (blog_post nat counter_new counter_findOne counter_save 1)
           new_post empty_backend (Normal tt) backend_after_post).
  - left.
  - reflexivity.
Defined.

(** The same run, spelled out: the route finishes, and its markers are the
    save followed by the three invalidation calls. *)
Example blog_post_run :
  (exists s', blog_post_result = Some (Normal tt, s'))
  /\ markers (new_events (cache empty_backend) (cache backend_after_post))
     = [EvPersisted "BlogPost"; EvInvalidate "GET:/api/blog*";
        EvInvalidate "GET:/api/blog/categories*"; EvInvalidate "GET:/api/blog/tags*"]
  /\ (exists body,
        JSON_stringify
          (JObj [("success", JBool true);
                 ("message", JStr "Blog post created successfully");
                 ("data", JObj [("title", JStr "Hello, World!");
                                ("slug", JStr "hello-world")])])
        = Normal body
        /\ sent (cache backend_after_post) = [(201, body)]).
Proof.
  split; [eexists; reflexivity|]. split; [reflexivity|].
  eexists. split; reflexivity.
Qed.

(** * Further properties *)

(** ** Key derivation, continued *)

(** X1 on the featured-first listing, against the same request with its
    query object built in the other order. *)
Lemma generateCacheKey_same_target_witness :
  generateCacheKey listing_featured_first = generateCacheKey listing_reparsed.
Proof.
  apply (generateCacheKey_same_target listing_featured_first listing_reparsed).
  - reflexivity.
  - reflexivity.
  - by apply (bool_decide_unpack _).
  - apply Permutation_swap.
Defined.

(** X2 on the listing payload. *)
Lemma json_with_cache_transparent_witness :
  (json_with_cache (Some RedisClient) "GET:/api/blog" 3600 express_json
     listing_payload fresh_world).1
  = (express_json listing_payload fresh_world).1
  /\ sent (json_with_cache (Some RedisClient) "GET:/api/blog" 3600 express_json
             listing_payload fresh_world).2
     = sent (express_json listing_payload fresh_world).2.
Proof.
  apply (json_with_cache_transparent RedisClient "GET:/api/blog" 3600 listing_payload
           (JBool true) fresh_world).
  reflexivity.
Defined.

(** ** Serialization, continued *)

Lemma jsval_nested_ind (P : jsval -> Prop) :
  P JUndefined -> P JNull -> (forall b, P (JBool b)) -> (forall n, P (JNum n)) ->
  (forall n, P (JBigInt n)) -> (forall s, P (JStr s)) ->
  (forall items, Forall P items -> P (JArr items)) ->
  (forall props, Forall (fun kv => P kv.2) props -> P (JObj props)) ->
  forall v, P v.
Proof.
  intros H1 H2 H3 H4 H5 H6 HA HO. fix IH 1.
  intros [| |b|n|n|s|items|props];
    [exact H1|exact H2|apply H3|apply H4|apply H5|apply H6| |].
  - apply HA. induction items as [|x items IHl]; constructor; [apply IH|exact IHl].
  - apply HO. induction props as [|[k x] props IHl]; constructor; [apply IH|exact IHl].
Qed.

(** The one exception [JSON.stringify] throws on the values of the model. *)
Lemma JSON_stringify_throws v : forall e,
  JSON_stringify v = Throw e ->
  e = TypeError "Do not know how to serialize a BigInt".
Proof.
  unfold JSON_stringify.
  induction v as [| |b|n|n|s|items IH|props IH] using jsval_nested_ind; intros e;
    cbn; try discriminate.
  - by destruct b.
  - by intros [= <-].
  - match goal with |- match ?f items with _ => _ end = _ -> _ =>
      assert (forall e', f items = Throw e' ->
                e' = TypeError "Do not know how to serialize a BigInt") as Hel
    end.
    { induction IH as [|x l Hx Hl IHl]; intros e'; [discriminate|].
      destruct (SerializeJSONProperty x) as [o|e0] eqn:E.
      - match goal with |- match ?g with _ => _ end = _ -> _ =>
          destruct g as [r|e1] eqn:E1 end; [discriminate|].
        intros [= <-]. by apply IHl.
      - intros [= <-]. by apply Hx. }
    match goal with |- match ?g with _ => _ end = _ -> _ =>
      destruct g as [r|e1] eqn:E1 end; [discriminate|].
    intros [= <-]. by apply Hel.
  - match goal with |- match ?f props with _ => _ end = _ -> _ =>
      assert (forall e', f props = Throw e' ->
                e' = TypeError "Do not know how to serialize a BigInt") as Hel
    end.
    { induction IH as [|[k x] l Hx Hl IHl]; intros e'; [discriminate|].
      cbn in Hx.
      destruct (SerializeJSONProperty x) as [o|e0] eqn:E.
      - match goal with |- match ?g with _ => _ end = _ -> _ =>
          destruct g as [r|e1] eqn:E1 end; [discriminate|].
        intros [= <-]. by apply IHl.
      - intros [= <-]. by apply Hx. }
    match goal with |- match ?g with _ => _ end = _ -> _ =>
      destruct g as [r|e1] eqn:E1 end; [discriminate|].
    intros [= <-]. by apply Hel.
Qed.

Lemma JSON_stringify_failure m :
  JSON_stringify (failure m) = Normal (Some (text_of (failure m))).
Proof. reflexivity. Qed.

Lemma JSON_stringify_strings errors :
  exists text, JSON_stringify (JArr (map JStr errors)) = Normal (Some text).
Proof.
  unfold JSON_stringify. cbn.
  match goal with |- context [match ?f (map JStr errors) with _ => _ end] =>
    assert (exists parts, f (map JStr errors) = Normal parts) as [parts ->]
  end; [|by eexists].
  induction errors as [|x errors [parts IH]]; [by eexists|].
  cbn. rewrite IH. by eexists.
Qed.

Lemma JSON_stringify_validation_failure errors :
  JSON_stringify (validation_failure errors)
  = Normal (Some (text_of (validation_failure errors))).
Proof.
  unfold text_of.
  destruct (JSON_stringify_strings errors) as [text H].
  unfold validation_failure, JSON_stringify in *. cbn in *.
  match type of H with context [match ?g with _ => _ end] =>
    destruct g as [parts|e] end; [|discriminate].
  reflexivity.
Qed.

Lemma JSON_stringify_deleted m :
  JSON_stringify (JObj [("success", JBool true); ("message", JStr m)])
  = Normal (Some (text_of (JObj [("success", JBool true); ("message", JStr m)]))).
Proof. reflexivity. Qed.

Opaque text_of.

(** ** The middleware, continued *)

(** A handler that answers through Express's own [res.json] does not read
    the trace: on a world with another trace it ends the same way, adds the
    same events and leaves the same world otherwise. *)
Lemma run_handler_set_trace h : forall x,
  res x = express_res ->
  exists d, forall tr,
    run_handler h {| env := set_trace tr (env x); res := express_res |}
    = ((run_handler h x).1,
       {| env := set_trace (tr ++ d) (env (run_handler h x).2); res := express_res |})
    /\ trace (env (run_handler h x).2) = (trace (env x) ++ d)%list.
Proof.
  induction h as [| e | st d k IH]; intros [w r] Hres; cbn in Hres; subst r.
  - exists []. intros tr. cbn. by rewrite !app_nil_r.
  - exists [EvUnhandledRejection e]. intros tr. by cbn.
  - cbn [run_handler]. repeat (progress mstep). unfold express_json.
    destruct (JSON_stringify d) as [body|e]; cbn.
    + match goal with |- context [run_handler (k ?c) ?y] =>
        destruct (IH c y eq_refl) as [d' Hd'] end.
      exists d'. intros tr. destruct (Hd' tr) as [H1 H2]. cbn in *.
      split; [|done].
      match goal with |- run_handler _ ?y = _ =>
        match type of H1 with run_handler _ ?y' = _ => change y with y' end end.
      exact H1.
    + match goal with |- context [run_handler (k ?c) ?y] =>
        destruct (IH c y eq_refl) as [d' Hd'] end.
      exists d'. intros tr. destruct (Hd' tr) as [H1 H2]. cbn in *.
      split; [|done].
      match goal with |- run_handler _ ?y = _ =>
        match type of H1 with run_handler _ ?y' = _ => change y with y' end end.
      exact H1.
Qed.

Lemma log_twice e1 e2 t w :
  log e2 (log e1 (arrive t w)) = set_trace (trace w ++ [e1; e2]) (arrive t w).
Proof. unfold log, set_trace. cbn. by rewrite <- app_assoc. Qed.

(** A request that reaches its handler after the middleware has logged some
    events is served as it is without the middleware, the events apart. *)
Lemma served_after_events h t w evs :
  env (next_handler h {| env := set_trace (trace w ++ evs) (arrive t w);
                         res := express_res |}).2
  = set_trace (trace w ++ evs ++ new_events w (serve_uncached h t w))
      (serve_uncached h t w).
Proof.
  unfold serve_uncached, next_handler. repeat (progress mstep).
  destruct (run_handler_set_trace h
              {| env := log EvHandler (arrive t w); res := express_res |} eq_refl)
    as [d Hd].
  destruct (Hd ((trace w ++ evs) ++ [EvHandler])%list) as [H1 H2]. cbn in H1, H2.
  change (log EvHandler (set_trace (trace w ++ evs) (arrive t w)))
    with (set_trace ((trace w ++ evs) ++ [EvHandler]) (log EvHandler (arrive t w))).
  rewrite H1. cbn.
  rewrite (new_events_app w _ ([EvHandler] ++ d)) by (by rewrite H2, <- app_assoc).
  by rewrite <- !app_assoc.
Qed.

Lemma cacheMiddleware_parse_fails JSON_parse ttl req next x c text e :
  method req = "GET" -> includes (path req) "/admin" = false ->
  ToBoolean (user req) = false ->
  redisClient (env x) = Some c -> connected (env x) = true ->
  redis_lookup (store (env x)) (now (env x)) (generateCacheKey req) = Some text ->
  text <> "" -> JSON_parse text = Throw e ->
  cacheMiddleware JSON_parse ttl req next x
  = next {| env := log (EvConsoleError "Cache middleware error" e)
                     (log (EvGet (generateCacheKey req)) (env x));
            res := res x |}.
Proof.
  intros Hm Ha Hu Hc Hcon Hhit Hne Hp. unfold cacheMiddleware.
  rewrite Hm, Ha, Hu. mstep. rewrite Hc. cbn. rewrite Hcon. cbn. rewrite Hhit.
  apply String.eqb_neq in Hne. rewrite Hne. cbn. by rewrite Hp.
Qed.

Lemma express_json_quiet : quiet express_json.
Proof.
  intros d w. exists []. unfold express_json.
  destruct (JSON_stringify d); cbn; by rewrite app_nil_r.
Qed.

Lemma json_with_cache_quiet rc key ttl oj :
  quiet oj -> quiet (json_with_cache rc key ttl oj).
Proof.
  intros Hoj d w. unfold json_with_cache. mstep.
  destruct rc as [c|]; cbn; [|apply Hoj].
  destruct (get_property d "success") as [v|e]; cbn;
    [|exists []; by rewrite app_nil_r].
  destruct (strict_neq_bool v false); cbn; [|apply Hoj].
  destruct (JSON_stringify d) as [[text|]|e]; cbn;
    [| exists []; by rewrite app_nil_r..].
  destruct (connected w) eqn:Hc; cbn.
  - destruct (ttl =? 0)%nat; cbn.
    + match goal with |- context [oj d ?y] =>
        destruct (Hoj d y) as (evs & H1 & H2) end.
      eexists (_ :: _ :: evs). rewrite H1. cbn. rewrite <- !app_assoc. split; [done|].
      exact H2.
    + match goal with |- context [oj d ?y] =>
        destruct (Hoj d y) as (evs & H1 & H2) end.
      eexists (_ :: evs). rewrite H1. cbn. rewrite <- !app_assoc. split; [done|].
      exact H2.
  - match goal with |- context [oj d ?y] =>
      destruct (Hoj d y) as (evs & H1 & H2) end.
    eexists (_ :: _ :: evs). rewrite H1. cbn. rewrite <- !app_assoc. split; [done|].
    exact H2.
Qed.

Lemma run_handler_quiet h : forall x,
  quiet (json (res x)) ->
  exists evs, trace (env (run_handler h x).2) = (trace (env x) ++ evs)%list
              /\ handler_calls evs = 0.
Proof.
  induction h as [| e | st d k IH]; intros [w r] Hq; cbn in Hq.
  - exists []. cbn. by rewrite app_nil_r.
  - exists [EvUnhandledRejection e]. by cbn.
  - cbn [run_handler]. repeat (progress mstep).
    destruct (Hq d (set_statusCode st w)) as (evs & H1 & H2).
    destruct (json r d (set_statusCode st w)) as [c w1] eqn:E. cbn in *.
    destruct (IH c {| env := w1; res := r |} Hq) as (evs' & H1' & H2').
    exists (evs ++ evs')%list. rewrite H1'. cbn. rewrite H1, <- app_assoc.
    split; [done|]. by rewrite handler_calls_app, H2, H2'.
Qed.

Lemma next_handler_once h x :
  quiet (json (res x)) ->
  exists evs, trace (env (next_handler h x).2) = (trace (env x) ++ EvHandler :: evs)%list
              /\ handler_calls evs = 0.
Proof.
  intros Hq. unfold next_handler. repeat (progress mstep).
  destruct x as [w r].
  destruct (run_handler_quiet h {| env := log EvHandler w; res := r |} Hq)
    as (evs & H1 & H2).
  exists evs. cbn in *. rewrite H1. by rewrite <- app_assoc.
Qed.

Lemma handled_once h x w0 pre :
  quiet (json (res x)) ->
  trace (env x) = (trace w0 ++ pre)%list -> handler_calls pre = 0 ->
  handler_calls (new_events w0 (env (next_handler h x).2)) = 1.
Proof.
  intros Hq Htr Hpre.
  destruct (next_handler_once h x Hq) as (evs & H1 & H2).
  rewrite (new_events_app w0 _ (pre ++ EvHandler :: evs)).
  - rewrite handler_calls_app, Hpre.
    change (handler_calls (EvHandler :: evs)) with (S (handler_calls evs)).
    by rewrite H2.
  - by rewrite H1, Htr, <- app_assoc.
Qed.

Section MoreMiddlewareFacts.

Variable JSON_parse : string -> completion jsval.

(** Every path through the middleware: the handler is entered once, or a
    stored text was parsed and sent. *)
Lemma serve_cases ttl req h t w :
  let w' := serve JSON_parse ttl req h t w in
  handler_calls (new_events w w') = 1
  \/ (handler_calls (new_events w w') = 0
      /\ store w' = store w
      /\ exists text d body,
           redis_lookup (store w) t (generateCacheKey req) = Some text
           /\ JSON_parse text = Normal d /\ JSON_stringify d = Normal body
           /\ sent w' = (sent w ++ [(200, body)])%list).
Proof.
  intros w'. subst w'. unfold serve.
  set (x0 := {| env := arrive t w; res := express_res |}).
  assert (Hdirect : handler_calls (new_events w (env (next_handler h x0).2)) = 1).
  { apply (handled_once _ _ _ []); [apply express_json_quiet|by cbn; rewrite app_nil_r|done]. }
  unfold cacheMiddleware.
  destruct (negb (method req =? "GET")); [by left|].
  destruct (includes (path req) "/admin" || ToBoolean (user req)); [by left|].
  repeat (progress mstep).
  destruct (redisClient w) as [c|]; cbn; [|by left].
  destruct (connected w) eqn:Hcon; cbn.
  - destruct (redis_lookup (store w) t (generateCacheKey req)) as [text|] eqn:Hget; cbn.
    + destruct (negb (text =? "")) eqn:Hne; cbn.
      * destruct (JSON_parse text) as [d|e] eqn:Hp; cbn.
        -- destruct (JSON_stringify d) as [body|e] eqn:Hs.
           ++ rewrite (express_json_sends d body) by done. cbn.
              right. rewrite (new_events_app w _ [EvGet (generateCacheKey req)]) by done.
              split; [done|]. split; [done|]. by exists text, d, body.
           ++ rewrite (express_json_throws d e) by done. cbn.
              left. eapply (handled_once _ _ _ [_; _]);
                [apply express_json_quiet|by cbn; rewrite <- app_assoc|done].
        -- left. eapply (handled_once _ _ _ [_; _]);
             [apply express_json_quiet|by cbn; rewrite <- app_assoc|done].
      * left.
        match goal with |- context [next_handler h ?y] =>
          pose proof (next_handler_normal h y) as Hn;
          destruct (next_handler h y) as [[[]|?] x'] eqn:En; cbn in Hn; [|discriminate];
          cbn; change x' with ((@Normal unit tt, x').2); rewrite <- En
        end.
        eapply (handled_once _ _ _ [_]);
          [apply json_with_cache_quiet, express_json_quiet|done|done].
    + left.
      match goal with |- context [next_handler h ?y] =>
        pose proof (next_handler_normal h y) as Hn;
        destruct (next_handler h y) as [[[]|?] x'] eqn:En; cbn in Hn; [|discriminate];
        cbn; change x' with ((@Normal unit tt, x').2); rewrite <- En
      end.
      eapply (handled_once _ _ _ [_]);
        [apply json_with_cache_quiet, express_json_quiet|done|done].
  - left. eapply (handled_once _ _ _ [_; _]);
      [apply express_json_quiet|by cbn; rewrite <- app_assoc|done].
Qed.

(** X3: the middleware never lets a request go unanswered and never runs a
    handler twice.  Whatever the request, the cache and [JSON.parse] do,
    either the route handler is entered exactly once, or it is not entered
    and the response is a stored text, parsed and sent under status 200 with
    the keyspace left as it was. *)
Theorem serve_never_skips_a_request ttl req h t w :
  let w' := serve JSON_parse ttl req h t w in
  handler_calls (new_events w w') = 1
  \/ (handler_calls (new_events w w') = 0
      /\ store w' = store w
      /\ exists text d body,
           redis_lookup (store w) t (generateCacheKey req) = Some text
           /\ JSON_parse text = Normal d /\ JSON_stringify d = Normal body
           /\ sent w' = (sent w ++ [(200, body)])%list).
Proof. apply serve_cases. Qed.

(** X4: when the store rejects the GET, the request is served as it is
    without the cache layer: same answer, same status, nothing stored; the
    only traces of the attempt are the GET and the logged error. *)
Theorem store_failure_is_a_miss ttl req h t w c :
  method req = "GET" -> includes (path req) "/admin" = false ->
  ToBoolean (user req) = false ->
  redisClient w = Some c -> connected w = false ->
  let w' := serve JSON_parse ttl req h t w in
  let uncached := serve_uncached h t w in
  sent w' = sent uncached
  /\ statusCode w' = statusCode uncached
  /\ store w' = store w
  /\ new_events w w'
     = EvGet (generateCacheKey req)
       :: EvConsoleError "Cache middleware error" CLOSED
       :: new_events w uncached.
Proof.
  intros Hm Ha Hu Hc Hcon w' uncached. subst w' uncached. unfold serve.
  rewrite (cacheMiddleware_get_fails _ _ _ _ _ c) by done.
  cbn [env res].
  rewrite log_twice, served_after_events.
  destruct (serve_uncached_effect h t w) as (Hst & _).
  cbn. repeat split; [done|].
  by apply new_events_app.
Qed.

(** X5: a stored text that [JSON.parse] rejects is treated as a miss that
    repairs nothing: the error is logged, the handler answers through the
    untouched [res.json], and the unreadable entry stays in the store. *)
Theorem corrupt_entry_is_served_by_handler ttl req h t w c text e :
  method req = "GET" -> includes (path req) "/admin" = false ->
  ToBoolean (user req) = false ->
  redisClient w = Some c -> connected w = true ->
  redis_lookup (store w) t (generateCacheKey req) = Some text ->
  text <> "" -> JSON_parse text = Throw e ->
  let w' := serve JSON_parse ttl req h t w in
  let uncached := serve_uncached h t w in
  sent w' = sent uncached
  /\ statusCode w' = statusCode uncached
  /\ store w' = store w
  /\ redis_lookup (store w') t (generateCacheKey req) = Some text
  /\ new_events w w'
     = EvGet (generateCacheKey req)
       :: EvConsoleError "Cache middleware error" e
       :: new_events w uncached.
Proof.
  intros Hm Ha Hu Hc Hcon Hhit Hne Hp w' uncached. subst w' uncached. unfold serve.
  rewrite (cacheMiddleware_parse_fails _ _ _ _ _ c text e) by done.
  cbn [env res].
  rewrite log_twice, served_after_events.
  destruct (serve_uncached_effect h t w) as (Hst & _).
  cbn. repeat split; [done|by rewrite Hst|].
  by apply new_events_app.
Qed.

End MoreMiddlewareFacts.

(** X4 on the blog listing, with the connection down. *)
Lemma store_failure_is_a_miss_witness :
  let w' := serve sample_parse 3600 blog_listing
              (guarded_handler 200 listing_payload server_error) 100
              disconnected_world in
  let uncached := serve_uncached (guarded_handler 200 listing_payload server_error)
                    100 disconnected_world in
  sent w' = sent uncached
  /\ statusCode w' = statusCode uncached
  /\ store w' = store disconnected_world
  /\ new_events disconnected_world w'
     = EvGet (generateCacheKey blog_listing)
       :: EvConsoleError "Cache middleware error" CLOSED
       :: new_events disconnected_world uncached.
Proof.
  apply (store_failure_is_a_miss sample_parse 3600 blog_listing
           (guarded_handler 200 listing_payload server_error) 100
           disconnected_world RedisClient); reflexivity.
Defined.

(** X5 on the blog listing, whose stored text the parser does not accept. *)
Lemma corrupt_entry_is_served_by_handler_witness :
  let w' := serve sample_parse 3600 blog_listing
              (guarded_handler 200 listing_payload server_error) 100 stocked_world in
  let uncached := serve_uncached (guarded_handler 200 listing_payload server_error)
                    100 stocked_world in
  sent w' = sent uncached
  /\ statusCode w' = statusCode uncached
  /\ store w' = store stocked_world
  /\ redis_lookup (store w') 100 (generateCacheKey blog_listing) = Some "[]"
  /\ new_events stocked_world w'
     = EvGet (generateCacheKey blog_listing)
       :: EvConsoleError "Cache middleware error" (SyntaxError "Unexpected token")
       :: new_events stocked_world uncached.
Proof.
  apply (corrupt_entry_is_served_by_handler sample_parse 3600 blog_listing
           (guarded_handler 200 listing_payload server_error) 100
           stocked_world RedisClient "[]" (SyntaxError "Unexpected token"));
    try reflexivity.
  discriminate.
Defined.

(** ** Invalidation, continued *)

Lemma prefix_trans a : forall b k,
  String.prefix a b = true -> String.prefix b k = true -> String.prefix a k = true.
Proof.
  induction a as [|x a IH]; intros b k; [by destruct k|].
  destruct b as [|y b]; [done|]. destruct k as [|z k]; [done|]. cbn.
  destruct (ascii_dec x y) as [->|]; [|done].
  destruct (ascii_dec y z) as [->|]; [|done]. apply IH.
Qed.

Lemma prefix_app a b : String.prefix a (a ++ b) = true.
Proof.
  induction a as [|c a IH]; [by destruct b|].
  change (String c a ++ b) with (String c (a ++ b)). cbn.
  by destruct (ascii_dec c c).
Qed.

Lemma literal_app a b : literal (a ++ b) = literal a && literal b.
Proof.
  unfold literal. induction a as [|c a IH]; [done|].
  change (String c a ++ b) with (String c (a ++ b)). cbn. rewrite IH.
  by rewrite andb_assoc.
Qed.

Lemma invalidated_nothing_to_do p w :
  matching_keys p (store w) (now w) = [] -> store (invalidated p w) = store w.
Proof.
  intros H. unfold invalidated. destruct (redisClient w); [|done].
  destruct (connected w); [|done]. by rewrite H.
Qed.

Lemma invalidated_without_connection p w :
  redisClient w = None \/ connected w = false -> store (invalidated p w) = store w.
Proof.
  intros H. unfold invalidated. destruct (redisClient w); [|done].
  destruct (connected w); [|done]. by destruct H.
Qed.

Lemma purged_no_match prefix prefix' w :
  purged prefix w -> literal prefix' = true -> String.prefix prefix prefix' = true ->
  matching_keys (prefix' ++ "*") (store w) (now w) = [].
Proof.
  intros Hp Hl Hpre.
  destruct (matching_keys _ _ _) as [|k ks] eqn:E; [done|]. exfalso.
  assert (k ∈ matching_keys (prefix' ++ "*") (store w) (now w)) as Hin
    by (rewrite E; left).
  apply elem_of_matching_keys in Hin as (v & e & Hst & Hg & Ht).
  rewrite glob_prefix in Hg by done.
  specialize (Hp k (now w) (prefix_trans _ _ _ Hpre Hg) (le_n _)).
  unfold redis_lookup in Hp. rewrite Hst in Hp.
  destruct (Nat.ltb_spec (now w) e); [done|lia].
Qed.

(** After the primary pattern of a resource has been invalidated, a pattern
    that extends it finds nothing to delete. *)
Lemma invalidated_extension prefix prefix' w :
  literal prefix = true -> literal prefix' = true ->
  String.prefix prefix prefix' = true ->
  let w1 := invalidated (prefix ++ "*") w in
  store (invalidated (prefix' ++ "*") w1) = store w1
  /\ (purged prefix w1 \/ redisClient w1 = None \/ connected w1 = false).
Proof.
  intros Hl Hl' Hpre w1.
  destruct (invalidated_fields (prefix ++ "*") w) as (E1 & E2 & _).
  destruct (redisClient w) as [c|] eqn:Hc.
  - destruct (connected w) eqn:Hcon.
    + assert (purged prefix w1) as Hp by (by apply (invalidated_purges prefix w c)).
      split; [|by left].
      apply invalidated_nothing_to_do. by apply (purged_no_match prefix).
    + split; [|right; right; exact E2].
      apply invalidated_without_connection. right. exact E2.
  - split; [|right; left; exact E1].
    apply invalidated_without_connection. left. exact E1.
Qed.

Lemma resource_store resource w :
  store (invalidated_all (resource_patterns resource) w)
  = store (invalidated ("GET:/api/" ++ resource ++ "*") w).
Proof.
  unfold resource_patterns.
  destruct (String.eqb_spec resource "blog") as [->|Hb].
  - cbn [String.eqb app]. change ("blog" =? "skills") with false. cbn [app].
    rewrite !invalidated_all_cons. cbn [invalidated_all foldl].
    set (w1 := invalidated "GET:/api/blog*" w).
    destruct (invalidated_extension "GET:/api/blog" "GET:/api/blog/categories" w)
      as [H2 Hoff]; [done..|]. fold w1 in H2, Hoff.
    set (w2 := invalidated "GET:/api/blog/categories*" w1) in *.
    transitivity (store w2); [|exact H2].
    destruct (invalidated_fields "GET:/api/blog/categories*" w1) as (E1 & E2 & _).
    fold w2 in E1, E2.
    destruct Hoff as [Hp|Hoff].
    + apply invalidated_nothing_to_do.
      apply (purged_no_match "GET:/api/blog" "GET:/api/blog/tags"); [|done..].
      by apply invalidated_keeps_purged.
    + apply invalidated_without_connection. rewrite E1, E2. exact Hoff.
  - destruct (String.eqb_spec resource "skills") as [->|Hs].
    + cbn [app]. rewrite !invalidated_all_cons. cbn [invalidated_all foldl].
      by destruct (invalidated_extension "GET:/api/skills" "GET:/api/skills/categories" w)
        as [H2 _].
    + reflexivity.
Qed.

Lemma invalidated_all_fields pats : forall w,
  redisClient (invalidated_all pats w) = redisClient w
  /\ connected (invalidated_all pats w) = connected w
  /\ now (invalidated_all pats w) = now w
  /\ sent (invalidated_all pats w) = sent w
  /\ statusCode (invalidated_all pats w) = statusCode w.
Proof.
  induction pats as [|p pats IH]; intros w; [done|].
  rewrite invalidated_all_cons.
  destruct (IH (invalidated p w)) as (-> & -> & -> & -> & ->).
  apply invalidated_fields.
Qed.

Lemma invalidated_all_sent pats w : sent (invalidated_all pats w) = sent w.
Proof. apply invalidated_all_fields. Qed.

Lemma invalidated_all_now pats w : now (invalidated_all pats w) = now w.
Proof. apply invalidated_all_fields. Qed.

Lemma invalidated_all_statusCode pats w :
  statusCode (invalidated_all pats w) = statusCode w.
Proof. apply invalidated_all_fields. Qed.

Lemma invalidated_all_store_sub pats : forall w k x,
  store (invalidated_all pats w) !! k = Some x -> store w !! k = Some x.
Proof.
  induction pats as [|p pats IH]; intros w k x H; [done|].
  rewrite invalidated_all_cons in H. apply IH in H.
  by apply invalidated_store_sub in H.
Qed.

Lemma invalidated_all_keeps_other_keys pats : forall w k,
  (forall p, p ∈ pats -> glob_match p k = false) ->
  store (invalidated_all pats w) !! k = store w !! k.
Proof.
  induction pats as [|p pats IH]; intros w k H; [done|].
  rewrite invalidated_all_cons, IH by (intros q Hq; apply H; by right).
  apply invalidated_keeps_other_keys, H. left.
Qed.

(** X6: the secondary invalidations of [invalidateResourceCache] never
    delete anything.  For every resource name and every state of the cache,
    the call ends as [invalidateRouteCache] does for the same name and leaves
    the same keyspace: the patterns for the categories and tags views only
    match keys the primary pattern has already removed. *)
Theorem secondary_invalidations_are_redundant resource w :
  (invalidateResourceCache resource w).1 = (invalidateRouteCache resource w).1
  /\ store (invalidateResourceCache resource w).2
     = store (invalidateRouteCache resource w).2.
Proof.
  rewrite invalidateResourceCache_eq, invalidateRouteCache_eq. cbn.
  split; [done|]. apply resource_store.
Qed.

(** X7: invalidating one resource leaves every key outside its prefix alone.
    For a resource name that is plain text to KEYS (no [*], [?], backslash or
    bracket), a key that does not start with [GET:/api/<resource>] holds the
    same value with the same expiry afterwards. *)
Theorem invalidation_keeps_other_resources resource w key :
  plain resource = true ->
  String.prefix ("GET:/api/" ++ resource) key = false ->
  store (invalidateResourceCache resource w).2 !! key = store w !! key
  /\ forall t, redis_lookup (store (invalidateResourceCache resource w).2) t key
               = redis_lookup (store w) t key.
Proof.
  intros Hl Hk. apply andb_prop in Hl as [Hl _].
  rewrite invalidateResourceCache_eq. cbn. rewrite resource_store.
  assert (store (invalidated ("GET:/api/" ++ resource ++ "*") w) !! key = store w !! key)
    as H.
  { apply invalidated_keeps_other_keys. rewrite <- append_assoc.
    rewrite glob_prefix; [done|]. by rewrite literal_app, Hl. }
  split; [done|]. intros t. unfold redis_lookup. by rewrite H.
Qed.

(** X7 on the stocked cache: invalidating the blog leaves the projects
    listing where it is. *)
Lemma invalidation_keeps_other_resources_witness :
  store (invalidateResourceCache "blog" stocked_world).2 !! "GET:/api/projects"
  = store stocked_world !! "GET:/api/projects"
  /\ forall t,
       redis_lookup (store (invalidateResourceCache "blog" stocked_world).2) t
         "GET:/api/projects"
       = redis_lookup (store stocked_world) t "GET:/api/projects".
Proof.
  apply (invalidation_keeps_other_resources "blog" stocked_world "GET:/api/projects");
    reflexivity.
Defined.

(** The key of a GET request for a path under [/api/<resource>] starts with
    the text the invalidation pattern of the resource starts with. *)
Lemma generateCacheKey_prefix req resource rest :
  method req = "GET" -> originalUrl req = Some ("/api/" ++ resource ++ rest) ->
  String.prefix ("GET:/api/" ++ resource) (generateCacheKey req) = true.
Proof.
  intros Hm Hu. unfold generateCacheKey. rewrite Hm, Hu. cbn [or_else].
  change ("/api/" ++ resource ++ rest =? "") with false. cbn iota.
  assert ("GET" ++ ":" ++ "/api/" ++ resource ++ rest
          = ("GET:/api/" ++ resource) ++ rest) as ->
    by (by rewrite (append_assoc "GET:/api/" resource rest)).
  destruct (_ =? ""); rewrite ?append_assoc; rewrite <- (append_assoc "GET:/api/");
    apply prefix_app.
Qed.

Section Composition.

Variable JSON_parse : string -> completion jsval.

(** X8: the keys the middleware writes and the patterns the invalidation
    deletes fit together.  For a resource name that is plain text to KEYS
    (no [*], [?], backslash or bracket), after
    [invalidateResourceCache(resource)] on a working connection a GET request
    for any path under [/api/<resource>] finds nothing under its key and its
    handler is entered. *)
Theorem invalidation_forces_a_miss resource rest req ttl h t w c :
  method req = "GET" -> originalUrl req = Some ("/api/" ++ resource ++ rest) ->
  plain resource = true ->
  redisClient w = Some c -> connected w = true -> now w <= t ->
  let w1 := (invalidateResourceCache resource w).2 in
  redis_lookup (store w1) t (generateCacheKey req) = None
  /\ handler_calls (new_events w1 (serve JSON_parse ttl req h t w1)) = 1.
Proof.
  intros Hm Hu Hl Hc Hcon Ht w1. apply andb_prop in Hl as [Hl _].
  assert (redis_lookup (store w1) t (generateCacheKey req) = None) as Hmiss.
  { subst w1. rewrite invalidateResourceCache_eq. cbn.
    assert (literal ("GET:/api/" ++ resource) = true) as Hlit
      by (by rewrite literal_app, Hl).
    assert (("GET:/api/" ++ resource) ++ "*" ∈ resource_patterns resource) as Hin
      by (unfold resource_patterns; rewrite append_assoc; left).
    apply (invalidated_all_purges _ _ w c Hc Hcon Hlit Hin).
    - by apply (generateCacheKey_prefix _ _ rest).
    - by rewrite invalidated_all_now. }
  split; [done|].
  destruct (serve_cases JSON_parse ttl req h t w1)
    as [H|(_ & _ & text & d & body & Hhit & _)]; [done|].
  rewrite Hmiss in Hhit. discriminate.
Qed.

End Composition.

(** X8 on the stocked cache: after the blog has been invalidated, the blog
    listing is a miss. *)
Lemma invalidation_forces_a_miss_witness :
  let w1 := (invalidateResourceCache "blog" stocked_world).2 in
  redis_lookup (store w1) 200 (generateCacheKey blog_listing) = None
  /\ handler_calls (new_events w1 (serve sample_parse 3600 blog_listing HDone 200 w1)) = 1.
Proof.
  apply (invalidation_forces_a_miss sample_parse "blog" "" blog_listing 3600 HDone 200
           stocked_world RedisClient); try reflexivity.
  cbn. lia.
Defined.

(** ** The connection handle *)

(** X9: the reconnect strategy grants a retry exactly for the retry counts up
    to 10, after a wait of 100 ms per retry so far, and refuses from the 11th
    on with a logged message; a wait it grants is never longer than one
    second, so the cap of 3000 ms is never what decides. *)
Theorem reconnectStrategy_delays retries :
  reconnectStrategy retries
  = (if (retries <=? 10)%Z then ([], RetryIn (retries * 100))
     else (["!! Redis: Too many reconnection attempts"],
           GiveUp (OtherError "Error" "Too many retries")))
  /\ forall delay,
       (reconnectStrategy retries).2 = RetryIn delay -> (delay <= 1000)%Z.
Proof.
  unfold reconnectStrategy. split.
  - destruct (Z.ltb_spec 10 retries), (Z.leb_spec retries 10); try lia; [done|].
    by rewrite Z.min_l by lia.
  - intros delay. destruct (Z.ltb_spec 10 retries); [done|].
    cbn. intros [= <-]. lia.
Qed.

Lemma initRedis_has_client created outcome w c :
  redisClient w = Some c -> initRedis created outcome w = (Normal (Some c), w).
Proof. intros H. unfold initRedis. mstep. rewrite H. cbn. by rewrite H. Qed.

(** [initRedis] resolves, with the handle [getRedisClient] returns from then
    on. *)
Lemma initRedis_returns_handle created outcome w :
  (initRedis created outcome w).1 = Normal (redisClient (initRedis created outcome w).2).
Proof.
  destruct (redisClient w) as [c|] eqn:H.
  - rewrite (initRedis_has_client _ _ _ c H). cbn. by rewrite H.
  - unfold initRedis, createRedisClient, redis_connect. mstep. rewrite H. cbn.
    destruct created as [c|e]; cbn; [destruct outcome as [[]|e]; cbn|]; done.
Qed.

(** X10: [initRedis] never rejects and never touches the keyspace or the
    response.  It resolves with the handle that [getRedisClient] returns
    from then on; with a handle already in place it attempts no connection
    and changes nothing; with none, it leaves a connected handle when the
    client was created and connected, and otherwise no handle and one logged
    error. *)
Theorem initRedis_never_rejects created outcome w :
  let r := initRedis created outcome w in
  r.1 = Normal (redisClient r.2)
  /\ store r.2 = store w /\ sent r.2 = sent w
  /\ (forall c, redisClient w = Some c -> r = (Normal (Some c), w))
  /\ (redisClient w = None ->
      match created, outcome with
      | Normal c, Normal _ =>
          r.2 = set_connected true (set_redisClient (Some c) w)
      | Throw e, _ | Normal _, Throw e =>
          redisClient r.2 = None
          /\ new_events w r.2 = [EvConsoleError "Redis connection failed" e]
      end).
Proof.
  intros r. subst r. destruct (redisClient w) as [c|] eqn:H.
  - rewrite (initRedis_has_client _ _ _ c H). cbn. repeat split; try done.
    + by rewrite H.
    + intros c' E. congruence.
  - unfold initRedis, createRedisClient, redis_connect. mstep. rewrite H. cbn.
    destruct created as [c|e]; cbn; [destruct outcome as [[]|e]; cbn|];
      repeat split; try done; by apply new_events_app.
Qed.

(** X11: [closeRedis] clears the handle only when QUIT resolves.  With no
    handle it does nothing; when QUIT resolves the handle is gone, and an
    [initRedis] that connects afterwards puts a connected handle back in
    front of the unchanged keyspace; when QUIT rejects, [closeRedis] rejects,
    the stale handle stays, and [initRedis] afterwards attempts nothing. *)
Theorem closeRedis_then_initRedis quit_outcome fresh w :
  let closed := closeRedis quit_outcome w in
  let reopened := initRedis (Normal fresh) (Normal tt) closed.2 in
  match redisClient w, quit_outcome with
  | None, _ => closed = (Normal tt, w)
  | Some c, Normal _ =>
      closed = (Normal tt, set_redisClient None (set_connected false w))
      /\ reopened
         = (Normal (Some fresh), set_connected true (set_redisClient (Some fresh) w))
  | Some c, Throw e =>
      closed = (Throw e, w) /\ reopened = (Normal (Some c), w)
  end.
Proof.
  intros closed reopened. subst closed reopened.
  unfold closeRedis, redis_quit. mstep.
  destruct (redisClient w) as [c|] eqn:H; [|done].
  destruct quit_outcome as [[]|e]; cbn.
  - split; [done|]. unfold initRedis, createRedisClient, redis_connect. by mstep.
  - split; [done|]. by apply initRedis_has_client.
Qed.

(** X11 on a connection that is closed and opened again. *)
Lemma closeRedis_then_initRedis_witness :
  closeRedis (Normal tt) fresh_world
  = (Normal tt, set_redisClient None (set_connected false fresh_world))
  /\ initRedis (Normal RedisClient) (Normal tt) (closeRedis (Normal tt) fresh_world).2
     = (Normal (Some RedisClient),
        set_connected true (set_redisClient (Some RedisClient) fresh_world)).
Proof. apply (closeRedis_then_initRedis (Normal tt) RedisClient fresh_world). Defined.

Lemma commands_invalidate pats : commands (map EvInvalidate pats) = [].
Proof. induction pats as [|p pats IH]; [done|]. exact IH. Qed.

Lemma no_client_cache_layer_off JSON_parse w :
  redisClient w = None -> cache_layer_off JSON_parse w.
Proof.
  intros H. split.
  - intros. unfold serve. by rewrite cacheMiddleware_no_client.
  - intros resource. rewrite invalidateResourceCache_eq.
    rewrite invalidated_all_no_client by done. cbn. repeat split.
    rewrite (new_events_app _ _ (map EvInvalidate (resource_patterns resource)))
      by done.
    apply commands_invalidate.
Qed.

(** X12: whenever [initRedis] resolves with [null], and whenever
    [closeRedis] resolves, the cache layer is switched off from then on:
    every request is served exactly as without the middleware, and
    [invalidateResourceCache] returns without sending a command. *)
Theorem cache_layer_off_without_handle JSON_parse created outcome quit_outcome w :
  ((initRedis created outcome w).1 = Normal None ->
   cache_layer_off JSON_parse (initRedis created outcome w).2)
  /\ ((closeRedis quit_outcome w).1 = Normal tt ->
      cache_layer_off JSON_parse (closeRedis quit_outcome w).2).
Proof.
  split; intros H; apply no_client_cache_layer_off.
  - rewrite initRedis_returns_handle in H. by injection H.
  - revert H. unfold closeRedis, redis_quit. mstep.
    destruct (redisClient w) eqn:E; [|done].
    by destruct quit_outcome as [[]|e].
Qed.

(** X12 on a start without a reachable server, and on a connection that is
    closed again. *)
Lemma cache_layer_off_without_handle_witness :
  cache_layer_off sample_parse
    (initRedis (Normal RedisClient) (Throw (RedisError "ECONNREFUSED"))
       offline_world).2
  /\ cache_layer_off sample_parse (closeRedis (Normal tt) fresh_world).2.
Proof.
  split.
  - apply (cache_layer_off_without_handle sample_parse (Normal RedisClient)
             (Throw (RedisError "ECONNREFUSED")) (Normal tt) offline_world).
    reflexivity.
  - apply (cache_layer_off_without_handle sample_parse (Normal RedisClient)
             (Normal tt) (Normal tt) fresh_world).
    reflexivity.
Defined.

(** ** Start-up *)

(** X15: [startServer] reaches [app.listen] exactly when the database
    connection succeeds, whatever Redis does, and hands it
    [process.env.PORT || 5000].  After a resolved [mongoose.connect] it ends
    as that call ends, in the world [initRedis] left: it returns when
    [app.listen] returns, and its promise is rejected with what [app.listen]
    throws, and with nothing else.  After a rejected [mongoose.connect] the
    process exits with code 1, the error logged, Redis never initialised and
    [app.listen] never called. *)
Theorem startServer_listens env_PORT mongoose_connect created outcome app_listen w :
  startServer env_PORT mongoose_connect created outcome app_listen w
  = match mongoose_connect with
    | Normal _ =>
        (match app_listen (PORT env_PORT) with
         | Normal _ => Returned (PORT env_PORT)
         | Throw e => Rejected e
         end,
         (initRedis created outcome w).2)
    | Throw e =>
        (ProcessExit 1, log (EvConsoleError "Database connection failed" e) w)
    end.
Proof.
  unfold startServer, connectDB. destruct mongoose_connect as [[]|e]; [|done].
  pose proof (initRedis_returns_handle created outcome w) as E.
  destruct (initRedis created outcome w) as [[c|e] w']; cbn in *; [|discriminate].
  by destruct (app_listen (PORT env_PORT)) as [[]|e].
Qed.

(** A port that [app.listen] refuses rejects the promise, with the database
    connected and Redis unreachable. *)
Example startServer_refused_port :
  startServer (Some "70000") (Normal tt) (Normal RedisClient)
    (Throw (RedisError "ECONNREFUSED"))
    (fun port => Throw (OtherError "RangeError" "ERR_SOCKET_BAD_PORT")) offline_world
  = (Rejected (OtherError "RangeError" "ERR_SOCKET_BAD_PORT"),
     log (EvConsoleError "Redis connection failed" (RedisError "ECONNREFUSED"))
       offline_world).
Proof. reflexivity. Qed.

(** ** The CORS origins *)

Lemma app_cons c (s t : string) : String c s ++ t = String c (s ++ t).
Proof. reflexivity. Qed.

Lemma trim_start_not_blank s : starts_blank (trim_start s) = false.
Proof.
  induction s as [|c s IH]; [done|]. cbn.
  destruct (is_white_space c) eqn:E; [done|]. cbn. done.
Qed.

Lemma trim_end_not_blank s : ends_blank (trim_end s) = false.
Proof.
  induction s as [|c s IH]; [done|]. cbn.
  destruct (trim_end s) as [|c' s'] eqn:E.
  - destruct (is_white_space c) eqn:E'; [done|]. cbn. done.
  - cbn in *. exact IH.
Qed.

Lemma trim_end_keeps_start s :
  starts_blank s = false -> starts_blank (trim_end s) = false.
Proof.
  destruct s as [|c s]; [done|]. cbn. intros H.
  destruct (trim_end s); [|done]. by rewrite H.
Qed.

Lemma trim_start_comma_free s : comma_free s = true -> comma_free (trim_start s) = true.
Proof.
  unfold comma_free. induction s as [|c s IH]; [done|]. cbn. intros H.
  apply andb_prop in H as [H1 H2]. destruct (is_white_space c); [by apply IH|].
  cbn. by rewrite H1, H2.
Qed.

Lemma trim_end_comma_free s : comma_free s = true -> comma_free (trim_end s) = true.
Proof.
  unfold comma_free. induction s as [|c s IH]; [done|]. cbn. intros H.
  apply andb_prop in H as [H1 H2]. specialize (IH H2).
  destruct (trim_end s) as [|c' s'].
  - destruct (is_white_space c); [done|]. cbn. by rewrite H1.
  - cbn in *. by rewrite H1, IH.
Qed.

Lemma trim_clean s : comma_free s = true -> clean_origin (trim s) = true.
Proof.
  intros H. unfold clean_origin, trim.
  rewrite trim_end_comma_free by (by apply trim_start_comma_free).
  rewrite trim_end_keeps_start by apply trim_start_not_blank.
  by rewrite trim_end_not_blank.
Qed.

Lemma split_on_not_nil sep s : split_on sep s <> [].
Proof.
  destruct s as [|c s]; [done|]. cbn. destruct (Ascii.eqb c sep); [done|].
  by destruct (split_on sep s).
Qed.

Lemma split_on_comma_free s : Forall (fun p => comma_free p = true) (split_on "," s).
Proof.
  induction s as [|c s IH]; [by repeat constructor|].
  cbn [split_on]. destruct (Ascii.eqb c ",") eqn:E.
  - by constructor.
  - destruct (split_on "," s) as [|p ps];
      [by repeat constructor; unfold comma_free; cbn; rewrite E|].
    inversion IH as [|? ? Hp Hps]; subst. constructor; [|done].
    unfold comma_free in *. cbn. by rewrite E, Hp.
Qed.

Lemma split_on_length s : length (split_on "," s) = S (count_commas s).
Proof.
  unfold count_commas. induction s as [|c s IH]; [done|].
  cbn [split_on list_ascii_of_string List.filter]. destruct (Ascii.eqb c ",").
  - cbn. by rewrite IH.
  - destruct (split_on "," s) as [|p ps] eqn:E; [by apply split_on_not_nil in E|].
    cbn in *. done.
Qed.

(** X13: the list of allowed origins is never empty, and every origin in it
    is free of commas and of white space at either end; when the variable is
    set to a non-empty text, there is one origin per comma and one more
    (an empty piece between two commas included). *)
Theorem allowedOrigins_clean env :
  0 < length (allowedOrigins env)
  /\ Forall (fun origin => clean_origin origin = true) (allowedOrigins env)
  /\ (forall s, env = Some s -> s <> "" ->
        length (allowedOrigins env) = S (count_commas s)).
Proof.
  unfold allowedOrigins. destruct env as [s|].
  - destruct (String.eqb_spec s "") as [->|Hs].
    + repeat split; [cbn; lia|by repeat constructor|]. by intros s [= <-].
    + rewrite length_map, split_on_length. repeat split; [lia| |].
      * apply Forall_map. eapply Forall_impl; [apply split_on_comma_free|].
        intros p Hp. cbn. by apply trim_clean.
      * by intros s' [= <-].
  - repeat split; [cbn; lia|by repeat constructor|done].
Qed.

Lemma blank_comma_free a : blank a = true -> comma_free a = true.
Proof.
  unfold blank, comma_free. induction a as [|c a IH]; [done|]. cbn. intros H.
  apply andb_prop in H as [H1 H2]. rewrite IH by done.
  destruct (Ascii.eqb_spec c ",") as [->|]; [done|done].
Qed.

Lemma comma_free_app a b :
  comma_free (a ++ b) = comma_free a && comma_free b.
Proof.
  unfold comma_free. induction a as [|c a IH]; [done|].
  rewrite app_cons. cbn. by rewrite IH, andb_assoc.
Qed.

Lemma split_on_piece x rest :
  comma_free x = true ->
  split_on "," (x ++ String "," rest) = x :: split_on "," rest.
Proof.
  unfold comma_free. induction x as [|c x IH]; [done|].
  rewrite app_cons. cbn. intros H. apply andb_prop in H as [H1 H2].
  apply negb_true_iff in H1. rewrite H1, IH by done. done.
Qed.

Lemma split_on_last x : comma_free x = true -> split_on "," x = [x].
Proof.
  unfold comma_free. induction x as [|c x IH]; [done|].
  cbn. intros H. apply andb_prop in H as [H1 H2].
  apply negb_true_iff in H1. rewrite H1, IH by done. done.
Qed.

(** Splitting undoes joining. *)
Lemma split_on_concat l :
  l <> [] -> Forall (fun p => comma_free p = true) l ->
  split_on "," (String.concat "," l) = l.
Proof.
  induction l as [|x l IH]; [done|]. intros _ H.
  inversion H as [|? ? Hx Hl]; subst.
  destruct l as [|y l].
  - cbn. by apply split_on_last.
  - change (String.concat "," (x :: y :: l))
      with (x ++ String "," (String.concat "," (y :: l))).
    rewrite split_on_piece by done. by rewrite IH.
Qed.

Lemma trim_start_blank a s : blank a = true -> trim_start (a ++ s) = trim_start s.
Proof.
  unfold blank. induction a as [|c a IH]; [done|]. rewrite app_cons. cbn.
  intros H. apply andb_prop in H as [H1 H2]. rewrite H1. by apply IH.
Qed.

Lemma trim_start_clean s : starts_blank s = false -> trim_start s = s.
Proof. destruct s as [|c s]; [done|]. cbn. by intros ->. Qed.

Lemma trim_end_blank_all b : blank b = true -> trim_end b = "".
Proof.
  unfold blank. induction b as [|c b IH]; [done|]. cbn.
  intros H. apply andb_prop in H as [H1 H2]. by rewrite IH, H1.
Qed.

Lemma trim_end_blank s b :
  blank b = true -> ends_blank s = false -> trim_end (s ++ b) = s.
Proof.
  intros Hb. induction s as [|c s IH].
  - intros _. by apply trim_end_blank_all.
  - intros H. rewrite app_cons. destruct s as [|c' s].
    + cbn in *. change ("" ++ b) with b. rewrite trim_end_blank_all by done. by rewrite H.
    + change (ends_blank (String c (String c' s))) with (ends_blank (String c' s)) in H.
      cbn [trim_end]. rewrite IH by done. done.
Qed.

Lemma trim_padded a o b :
  blank a = true -> clean_origin o = true -> blank b = true ->
  trim (a ++ o ++ b) = o.
Proof.
  intros Ha Ho Hb. unfold clean_origin in Ho.
  apply andb_prop in Ho as [Ho Hend]. apply andb_prop in Ho as [_ Hstart].
  apply negb_true_iff in Hend, Hstart.
  unfold trim. rewrite trim_start_blank by done.
  destruct o as [|c o].
  - change ("" ++ b) with b.
    assert (trim_start b = "") as ->; [|done].
    clear -Hb. unfold blank in Hb. induction b as [|c b IH]; [done|]. cbn in *.
    apply andb_prop in Hb as [-> H2]. by apply IH.
  - rewrite trim_start_clean by (rewrite app_cons; exact Hstart).
    by apply trim_end_blank.
Qed.

(** X14: reading the variable undoes writing it.  A non-empty list of clean
    origins, each with any white space around it, joined by commas, is read
    back as exactly that list of origins. *)
Theorem allowedOrigins_round_trip (entries : list (string * string * string)) :
  entries <> [] ->
  Forall (fun entry => blank entry.1.1 = true /\ clean_origin entry.1.2 = true
                       /\ blank entry.2 = true) entries ->
  String.concat "," (map padded entries) <> "" ->
  allowedOrigins (Some (String.concat "," (map padded entries)))
  = map (fun entry => entry.1.2) entries.
Proof.
  intros Hne Hall Htext. unfold allowedOrigins.
  apply String.eqb_neq in Htext. rewrite Htext.
  rewrite split_on_concat.
  - rewrite map_map. apply map_ext_Forall. eapply Forall_impl; [exact Hall|].
    intros [[a o] b] (Ha & Ho & Hb). cbn [fst snd] in *. by apply trim_padded.
  - by destruct entries.
  - apply Forall_map. eapply Forall_impl; [exact Hall|].
    intros [[a o] b] (Ha & Ho & Hb). cbn [fst snd] in *. unfold padded. cbn [fst snd].
    rewrite !comma_free_app, (blank_comma_free a), (blank_comma_free b) by done.
    unfold clean_origin in Ho. apply andb_prop in Ho as [Ho _].
    apply andb_prop in Ho as [-> _]. done.
Qed.

(** X14 on two origins, written with a space after the comma and one at the
    end. *)
Lemma allowedOrigins_round_trip_witness :
  allowedOrigins (Some "https://portfolio.example, http://localhost:3000 ")
  = ["https://portfolio.example"; "http://localhost:3000"].
Proof.
  apply (allowedOrigins_round_trip
           [("", "https://portfolio.example", ""); (" ", "http://localhost:3000", " ")]).
  - discriminate.
  - repeat constructor.
  - discriminate.
Defined.

(** ** Slugs *)

Lemma is_slug_char_not_dash c : is_slug_char c = true -> Ascii.eqb c "-" = false.
Proof.
  destruct c as [[] [] [] [] [] [] [] []]; vm_compute; congruence.
Qed.

Lemma is_slug_char_lower c : is_slug_char c = true -> to_lower c = c.
Proof.
  destruct c as [[] [] [] [] [] [] [] []]; vm_compute; congruence.
Qed.

Lemma dashes_single s : forall b, single_dashes (dashes s b) b = true.
Proof.
  induction s as [|c s IH]; intros b; [done|].
  cbn. destruct (is_slug_char (to_lower c)) eqn:E.
  - cbn. rewrite E. apply IH.
  - destruct b; [apply IH|]. cbn.
    assert (is_slug_char "-" = false) as -> by reflexivity. cbn. apply IH.
Qed.

Lemma drop_first_dash_single s :
  single_dashes s false = true -> single_dashes (drop_first_dash s) true = true.
Proof.
  destruct s as [|c s]; [done|]. cbn.
  destruct (is_slug_char c) eqn:E.
  - intros H. destruct c as [[] [] [] [] [] [] [] []]; try (cbn; by rewrite ?E);
      vm_compute in E; discriminate.
  - intros H. apply andb_prop in H as [H1 H2]. apply andb_prop in H1 as [H1 _].
    apply Ascii.eqb_eq in H1. subst c. exact H2.
Qed.

Lemma drop_last_dash_words s : forall b,
  single_dashes s (negb b) = true ->
  slug_words (drop_last_dash s) b = true \/ (s = "" /\ b = false).
Proof.
  induction s as [|c s IH]; intros b H.
  - destruct b; [by left|by right].
  - left. cbn in H. destruct (is_slug_char c) eqn:E.
    + destruct (IH true H) as [IH'|[-> ?]]; [|done].
      destruct s as [|c' s].
      * cbn. rewrite (is_slug_char_not_dash c E). cbn. by rewrite E.
      * change (drop_last_dash (String c (String c' s)))
          with (String c (drop_last_dash (String c' s))).
        cbn [slug_words]. by rewrite E.
    + apply andb_prop in H as [H1 H2]. apply andb_prop in H1 as [H1 H3].
      apply Ascii.eqb_eq in H1. subst c. destruct b; [|done].
      destruct (IH false H2) as [IH'|[-> _]]; [|done].
      destruct s as [|c' s]; [done|].
      change (drop_last_dash (String "-" (String c' s)))
        with (String "-"%char (drop_last_dash (String c' s))).
      cbn [slug_words]. by rewrite E, IH'.
Qed.

Lemma createSlug_shape t :
  well_formed_slug (drop_last_dash (drop_first_dash (dashes t false))) = true.
Proof.
  unfold well_formed_slug.
  destruct (drop_last_dash_words (drop_first_dash (dashes t false)) false) as [H|[H _]].
  - apply drop_first_dash_single, dashes_single.
  - rewrite H. apply orb_true_r.
  - by rewrite H.
Qed.

Lemma slug_words_dashes s : forall b,
  slug_words s b = true -> dashes s (negb b) = s.
Proof.
  induction s as [|c s IH]; intros b H; [done|].
  cbn in *. destruct (is_slug_char c) eqn:E.
  - rewrite (is_slug_char_lower c E), E. f_equal. apply (IH true H).
  - apply andb_prop in H as [H1 H2]. apply andb_prop in H1 as [H1 H3].
    apply Ascii.eqb_eq in H1. subst c b. cbn. f_equal. apply (IH false H2).
Qed.

Lemma slug_words_no_last_dash s : forall b,
  slug_words s b = true -> drop_last_dash s = s.
Proof.
  induction s as [|c s IH]; intros b H; [done|].
  cbn in H. destruct s as [|c' s].
  - cbn. destruct (is_slug_char c) eqn:E.
    + by rewrite (is_slug_char_not_dash c E).
    + cbn in H. by rewrite !andb_false_r in H.
  - change (drop_last_dash (String c (String c' s)))
      with (String c (drop_last_dash (String c' s))).
    f_equal. destruct (is_slug_char c).
    + by apply (IH true).
    + apply andb_prop in H as [_ H]. by apply (IH false).
Qed.

Lemma slug_words_no_first_dash s :
  slug_words s false = true -> drop_first_dash s = s.
Proof.
  destruct s as [|c s]; [done|]. cbn. destruct (is_slug_char c) eqn:E.
  - intros _. destruct c as [[] [] [] [] [] [] [] []]; try reflexivity;
      vm_compute in E; discriminate.
  - by rewrite andb_false_r.
Qed.

Lemma well_formed_slug_fixed s :
  well_formed_slug s = true -> drop_last_dash (drop_first_dash (dashes s false)) = s.
Proof.
  unfold well_formed_slug. intros H. apply orb_prop in H as [H|H].
  - apply String.eqb_eq in H. by subst s.
  - assert (dashes s false = s) as ->.
    { destruct s as [|c s]; [done|]. cbn in *. destruct (is_slug_char c) eqn:E.
      - rewrite (is_slug_char_lower c E), E. f_equal.
        apply (slug_words_dashes s true H).
      - by rewrite andb_false_r in H. }
    rewrite (slug_words_no_first_dash s H). by apply (slug_words_no_last_dash s false).
Qed.

Lemma no_slug_char_dashes t :
  no_slug_char t = true ->
  dashes t true = "" /\ (dashes t false = "" \/ dashes t false = "-").
Proof.
  unfold no_slug_char. induction t as [|c t IH]; [by auto|].
  cbn. intros H. apply andb_prop in H as [H1 H2]. apply negb_true_iff in H1.
  rewrite H1. destruct (IH H2) as [IH1 IH2]. rewrite IH1. by auto.
Qed.

Lemma dashes_has_slug_char t : forall b,
  has_slug_char (dashes t b) = negb (no_slug_char t).
Proof.
  unfold has_slug_char, no_slug_char. induction t as [|c t IH]; intros b; [done|].
  cbn. destruct (is_slug_char (to_lower c)) eqn:E; cbn.
  - by rewrite E.
  - destruct b; cbn; apply IH.
Qed.

Lemma drop_first_dash_has_slug_char s :
  has_slug_char (drop_first_dash s) = has_slug_char s.
Proof.
  destruct s as [|c s]; [done|].
  destruct c as [[] [] [] [] [] [] [] []]; reflexivity.
Qed.

Lemma drop_last_dash_has_slug_char s :
  has_slug_char (drop_last_dash s) = has_slug_char s.
Proof.
  unfold has_slug_char. induction s as [|c s IH]; [done|].
  destruct s as [|c' s].
  - cbn. destruct (Ascii.eqb_spec c "-") as [->|]; [done|]. cbn. done.
  - change (drop_last_dash (String c (String c' s)))
      with (String c (drop_last_dash (String c' s))).
    cbn [list_ascii_of_string existsb] in *. by rewrite IH.
Qed.

(** X16: whatever the title, [createSlug] returns a well-formed slug: only
    lower-case letters, digits and dashes, no dash at either end, no two
    dashes in a row. *)
Theorem createSlug_well_formed t :
  exists s, createSlug (JStr t) = Normal s /\ well_formed_slug s = true.
Proof. eexists. split; [reflexivity|]. apply createSlug_shape. Qed.



(** X18: among the titles the model's strings cover, those of 8-bit code
    units (Latin-1 text), the slug is empty exactly for the titles that hold
    no ASCII letter and no digit, the empty title among them.  In that range
    [toLowerCase] turns no other character into one of [a-z]; beyond it, it
    does (the Kelvin sign becomes [k]), and such titles are outside this
    statement. *)
Theorem createSlug_empty t :
  createSlug (JStr t) = Normal "" <-> no_slug_char t = true.
Proof.
  unfold createSlug. split.
  - intros [= H]. apply (f_equal has_slug_char) in H.
    rewrite drop_last_dash_has_slug_char, drop_first_dash_has_slug_char,
      dashes_has_slug_char in H.
    by apply negb_false_iff in H.
  - intros H. destruct (no_slug_char_dashes t H) as [_ [->| ->]]; reflexivity.
Qed.

(** X18 on a title of punctuation. *)
Lemma createSlug_empty_witness : createSlug (JStr "?!... --") = Normal "".
Proof. apply (createSlug_empty "?!... --"). reflexivity. Defined.

(** ** The slug search *)

Lemma later_candidate_S baseSlug n : forall slug counter,
  later_candidate baseSlug slug counter (S n)
  = baseSlug ++ "-" ++ pretty (counter + Z.of_nat n)%Z.
Proof.
  induction n as [|n IH]; intros slug counter.
  - cbn. by rewrite Z.add_0_r.
  - change (later_candidate baseSlug slug counter (S (S n)))
      with (later_candidate baseSlug (baseSlug ++ "-" ++ pretty counter)
              (counter + 1) (S n)).
    rewrite IH. do 3 f_equal. lia.
Qed.

Lemma later_candidate_top baseSlug n :
  later_candidate baseSlug baseSlug 1 n = candidate baseSlug n.
Proof.
  destruct n as [|n]; [done|]. rewrite later_candidate_S. unfold candidate.
  do 3 f_equal. lia.
Qed.

Section SlugSearch.

Variable DB : Type.
Variable Model_findOne : string -> jsval -> M DB jsval.

Lemma unique_slug_search (found : string -> jsval) model baseSlug s :
  (forall slug, Model_findOne model (JObj [("slug", JStr slug)]) (database s)
                = (Normal (found slug), database s)) ->
  forall n fuel slug counter,
    n < fuel ->
    (forall i, i < n ->
       ToBoolean (found (later_candidate baseSlug slug counter i)) = true) ->
    ToBoolean (found (later_candidate baseSlug slug counter n)) = false ->
    unique_slug DB Model_findOne fuel model baseSlug slug counter s
    = Some (Normal (later_candidate baseSlug slug counter n), s).
Proof.
  intros Hread. destruct s as [d w]. cbn in Hread.
  induction n as [|n IH]; intros fuel slug counter Hfuel Htaken Hfree;
    (destruct fuel as [|fuel]; [lia|]); rewrite unique_slug_step; cbn [database cache];
    rewrite Hread; cbn zeta.
  - cbn in Hfree. by rewrite Hfree.
  - pose proof (Htaken 0 ltac:(lia)) as H0. cbn in H0. rewrite H0.
    apply IH; [lia| |exact Hfree].
    intros i Hi. apply (Htaken (S i)). lia.
Qed.

(** X19: the slug search returns the first candidate nobody holds.  Against
    a database whose lookups by slug only read, when the base slug and its
    first [n - 1] numbered variants are taken and the next one is free, the
    search ends (given fuel for [n + 1] lookups) with that variant and leaves
    the database and the cache as they were. *)
Theorem unique_slug_takes_first_free (found : string -> jsval) model baseSlug s n fuel :
  (forall slug, Model_findOne model (JObj [("slug", JStr slug)]) (database s)
                = (Normal (found slug), database s)) ->
  (forall i, i < n -> ToBoolean (found (candidate baseSlug i)) = true) ->
  ToBoolean (found (candidate baseSlug n)) = false ->
  n < fuel ->
  unique_slug DB Model_findOne fuel model baseSlug baseSlug 1 s
  = Some (Normal (candidate baseSlug n), s).
Proof.
  intros Hread Htaken Hfree Hfuel.
  rewrite <- later_candidate_top.
  apply (unique_slug_search found); [done|done| |].
  - intros i Hi. rewrite later_candidate_top. by apply Htaken.
  - by rewrite later_candidate_top.
Qed.

End SlugSearch.

(** X19 against a store that holds [hello-world] and [hello-world-1]. *)
Lemma unique_slug_takes_first_free_witness :
  unique_slug (list string) shelf_findOne 3 "BlogPost" "hello-world" "hello-world" 1
    crowded_backend
  = Some (Normal "hello-world-2", crowded_backend).
Proof.
  apply (unique_slug_takes_first_free (list string) shelf_findOne
           (fun slug => if bool_decide (slug ∈ ["hello-world"; "hello-world-1"])
                        then JObj [("slug", JStr slug)] else JNull)
           "BlogPost" "hello-world" crowded_backend 2 3).
  - intros slug. reflexivity.
  - intros [|[|i]] Hi; [reflexivity|reflexivity|lia].
  - reflexivity.
  - lia.
Defined.

(** ** The write routes, continued *)

Lemma mongo_code_dispatch {A} (code : Z) (duplicate other : A) :
  match code with
  | 11000%Z => duplicate
  | _ => other
  end = if (code =? 11000)%Z then duplicate else other.
Proof.
  destruct code as [|p|p]; try reflexivity.
  repeat (destruct p as [p|p|]; try reflexivity).
Qed.

(** Unfold a route as [crack] does, and settle what the serializer does:
    the fixed answers always serialize, an object never serializes to
    [undefined], and the serializer throws one exception only. *)
Ltac crack_json :=
  repeat (progress rstep
          || rewrite invalidateResourceCache_eq
          || rewrite invalidateRouteCache_eq
          || rewrite JSON_stringify_failure
          || rewrite JSON_stringify_validation_failure
          || rewrite JSON_stringify_deleted
          || match goal with
             | |- context [match JSON_stringify ?v with _ => _ end] =>
                 let E := fresh "Ejson" in
                 destruct (JSON_stringify v) as [[?|]|?] eqn:E;
                 [ | apply JSON_stringify_undefined in E; discriminate E
                   | apply JSON_stringify_throws in E; subst ]
             | |- context [match ?x with _ => _ end] =>
                 lazymatch x with
                 | context [match _ with _ => _ end] => fail
                 | _ => destruct x eqn:?
                 end
             end).

Ltac pick_payload :=
  first [ eassumption
        | apply JSON_stringify_failure
        | apply JSON_stringify_validation_failure
        | apply JSON_stringify_deleted ].

Ltac in_codes :=
  repeat (first [apply list_elem_of_here | apply list_elem_of_further]).

(** Two memberships in lists of status codes that cannot both hold. *)
Ltac codes_clash :=
  exfalso;
  repeat match goal with
         | H : _ ∈ _ :: _ |- _ => apply elem_of_cons in H as [H|H]; subst
         | H : _ ∈ [] |- _ => by apply elem_of_nil in H
         end;
  try discriminate; try lia.

Ltac settle_outcome H200 :=
  first
    [ by (cbn in *; discriminate)
    | split; [reflexivity|];
      unfold route_outcome; cbn [cache];
      eexists _, _, _; split; [|split; [|split]];
      [ | cbn; rewrite ?invalidated_all_sent, ?invalidated_all_statusCode; cbn;
          rewrite ?H200; reflexivity
        | cbn; rewrite ?invalidated_all_now; reflexivity | ];
      [ pick_payload
      | first
          [ left; split; [reflexivity|]; split; [reflexivity|];
            split; [in_codes|reflexivity]
          | right; eexists; cbn zeta; split; [reflexivity|]; split; [reflexivity|];
            first [ left; split; [in_codes|reflexivity]
                  | right; split; reflexivity ] ] ] ].

Section RouteOutcomes.

Variable DB : Type.
Variable Model_new : string -> jsval -> jsval.
Variable Model_findOne : string -> jsval -> M DB jsval.
Variable Document_save : string -> jsval -> M DB jsval.
Variable Model_findByIdAndUpdate : string -> string -> jsval -> M DB jsval.
Variable Model_findByIdAndDelete : string -> string -> M DB jsval.

Lemma delete_by_id_outcome model resource deleted missing failed req s :
  statusCode (cache s) = 200 ->
  let r := delete_by_id DB Model_findByIdAndDelete model resource deleted missing
             failed req s in
  r.1 = Normal tt /\ route_outcome (resource_patterns resource) (cache s) (cache r.2).
Proof.
  intros H200 r. subst r. unfold delete_by_id. crack_json.
  all: settle_outcome H200.
Qed.

Lemma update_with_slug_outcome model resource updated missing failed req s :
  statusCode (cache s) = 200 ->
  let r := update_with_slug DB Model_findOne Model_findByIdAndUpdate model resource
             updated missing failed req s in
  r.1 = Normal tt /\ route_outcome (resource_patterns resource) (cache s) (cache r.2).
Proof.
  intros H200 r. subst r. unfold update_with_slug. crack_json.
  all: settle_outcome H200.
Qed.

Lemma skills_post_outcome req s :
  statusCode (cache s) = 200 ->
  let r := skills_post DB Model_new Document_save req s in
  r.1 = Normal tt /\ route_outcome (resource_patterns "skills") (cache s) (cache r.2).
Proof.
  intros H200 r. subst r. unfold skills_post. rstep.
  destruct (Document_save _ _ _) as [[doc|e] d']; cbn.
  - crack_json; settle_outcome H200.
  - destruct e; rewrite ?mongo_code_dispatch; crack_json; settle_outcome H200.
Qed.

Lemma skills_put_outcome req s :
  statusCode (cache s) = 200 ->
  let r := skills_put DB Model_findByIdAndUpdate req s in
  r.1 = Normal tt /\ route_outcome (resource_patterns "skills") (cache s) (cache r.2).
Proof.
  intros H200 r. subst r. unfold skills_put. crack_json.
  all: settle_outcome H200.
Qed.

Lemma profile_put_outcome req s :
  statusCode (cache s) = 200 ->
  let r := profile_put DB Model_new Model_findOne Document_save req s in
  r.1 = Normal tt /\ route_outcome ["GET:/api/profile*"] (cache s) (cache r.2).
Proof.
  intros H200 r. subst r. unfold profile_put. crack_json.
  all: settle_outcome H200.
Qed.

Lemma profile_upload_image_outcome req s :
  statusCode (cache s) = 200 ->
  let r := profile_upload_image DB Model_findOne Document_save req s in
  r.1 = Normal tt /\ route_outcome ["GET:/api/profile*"] (cache s) (cache r.2).
Proof.
  intros H200 r. subst r. unfold profile_upload_image, profile_upload. crack_json.
  all: settle_outcome H200.
Qed.

Lemma profile_upload_resume_outcome req s :
  statusCode (cache s) = 200 ->
  let r := profile_upload_resume DB Model_findOne Document_save req s in
  r.1 = Normal tt /\ route_outcome ["GET:/api/profile*"] (cache s) (cache r.2).
Proof.
  intros H200 r. subst r. unfold profile_upload_resume, profile_upload. crack_json.
  all: settle_outcome H200.
Qed.

Lemma create_with_slug_outcome model resource created failed fuel req s c s' :
  statusCode (cache s) = 200 ->
  create_with_slug DB Model_new Model_findOne Document_save model resource created
    failed fuel req s = Some (c, s') ->
  c = Normal tt /\ route_outcome (resource_patterns resource) (cache s) (cache s').
Proof.
  intros H200. unfold create_with_slug. rstep.
  destruct (get_property (body req) "title") as [title|e]; cbn.
  - destruct (createSlug title) as [baseSlug|e]; cbn.
    + destruct (unique_slug _ _ _ _ _ _ _ _) as [[[slug|e] s1]|] eqn:Hslug;
        [| |done]; apply unique_slug_cache in Hslug.
      * crack_json; intros [= <- <-]; cbn [cache]; rewrite ?Hslug; settle_outcome H200.
      * crack_json; intros [= <- <-]; cbn [cache]; rewrite ?Hslug; settle_outcome H200.
    + crack_json; intros [= <- <-]; settle_outcome H200.
  - crack_json; intros [= <- <-]; settle_outcome H200.
Qed.

(** Every run of every write route, on a fresh response object, ends
    normally with one of the outcomes of [route_outcome]. *)
Lemma write_routes_outcome fuel name pats route req s c s' :
  (name, pats, route)
    ∈ write_routes DB Model_new Model_findOne Document_save
        Model_findByIdAndUpdate Model_findByIdAndDelete fuel ->
  statusCode (cache s) = 200 ->
  route req s = Some (c, s') ->
  c = Normal tt /\ route_outcome pats (cache s) (cache s').
Proof.
  intros Hin H200 Hrun. unfold write_routes in Hin.
  repeat (apply elem_of_cons in Hin as [Hin|Hin]);
    [..|by apply elem_of_nil in Hin];
    injection Hin as -> -> ->;
    try (unfold total in Hrun; injection Hrun as Hrun;
         pose proof (f_equal fst Hrun) as Hc; apply (f_equal snd) in Hrun;
         cbn in Hrun, Hc; subst s' c).
  - unfold blog_post in Hrun.
    exact (create_with_slug_outcome _ _ _ _ _ _ _ _ _ H200 Hrun).
  - by apply update_with_slug_outcome.
  - by apply delete_by_id_outcome.
  - unfold projects_post in Hrun.
    exact (create_with_slug_outcome _ _ _ _ _ _ _ _ _ H200 Hrun).
  - by apply update_with_slug_outcome.
  - by apply delete_by_id_outcome.
  - by apply skills_post_outcome.
  - by apply skills_put_outcome.
  - by apply delete_by_id_outcome.
  - by apply profile_put_outcome.
  - by apply profile_upload_image_outcome.
  - by apply profile_upload_resume_outcome.
Qed.

(** X22: every run of every write route that comes to an end sends exactly
    one answer and then returns normally, whatever the database and the
    cache do; the answer is a serialized object whose [success] flag agrees
    with its status: [true] under 200 and 201, [false] under 400, 404 and
    500. *)
Theorem write_route_answers_once fuel name pats route req s c s' :
  (name, pats, route)
    ∈ write_routes DB Model_new Model_findOne Document_save
        Model_findByIdAndUpdate Model_findByIdAndDelete fuel ->
  statusCode (cache s) = 200 ->
  route req s = Some (c, s') ->
  c = Normal tt
  /\ exists code data body,
       JSON_stringify data = Normal (Some body)
       /\ sent (cache s') = (sent (cache s) ++ [(code, Some body)])%list
       /\ ((code ∈ [200; 201] /\ reports data true)
           \/ (code ∈ [400; 404; 500] /\ reports data false)).
Proof.
  intros Hin H200 Hrun.
  destruct (write_routes_outcome _ _ _ _ _ _ _ _ Hin H200 Hrun)
    as (-> & code & data & body & Hjson & Hsent & _ & Hcases).
  split; [done|]. exists code, data, body. split; [done|]. split; [done|].
  destruct Hcases as [(_ & _ & Hcode & Hflag)|(what & _ & _ & [[Hcode Hflag]|[-> Hflag]])].
  - by right.
  - by left.
  - right. split; [in_codes|done].
Qed.

(** X23: the status of the answer tells what the route did.  Under 200 or
    201 a write has resolved and the patterns of the route were invalidated
    after it; under 400 or 404 nothing was written, no invalidation was
    called and the keyspace is as it was. *)
Theorem write_route_status_tells fuel name pats route req s c s' code body :
  (name, pats, route)
    ∈ write_routes DB Model_new Model_findOne Document_save
        Model_findByIdAndUpdate Model_findByIdAndDelete fuel ->
  statusCode (cache s) = 200 ->
  route req s = Some (c, s') ->
  sent (cache s') = (sent (cache s) ++ [(code, body)])%list ->
  (code ∈ [200; 201] ->
   exists what, markers (new_events (cache s) (cache s'))
                = EvPersisted what :: map EvInvalidate pats)
  /\ (code ∈ [400; 404] ->
      markers (new_events (cache s) (cache s')) = []
      /\ store (cache s') = store (cache s)).
Proof.
  intros Hin H200 Hrun Hlast.
  destruct (write_routes_outcome _ _ _ _ _ _ _ _ Hin H200 Hrun)
    as (_ & code' & data & body' & _ & Hsent & _ & Hcases).
  rewrite Hsent in Hlast. apply app_inj_tail in Hlast as [_ [= <- <-]].
  destruct Hcases as [(Htr & Hst & Hcode & _)|(what & Htr & Hst & Hcode)].
  - split.
    + intros H. codes_clash.
    + intros _. split; [|done].
      rewrite (new_events_app _ _ []); [done|]. by rewrite app_nil_r.
  - cbn zeta in *. split.
    + intros _. exists what.
      destruct (invalidated_all_trace pats (log (EvPersisted what) (cache s)))
        as (d & Hd & Hm & _).
      rewrite (new_events_app _ _ (EvPersisted what :: d)).
      * change (markers (EvPersisted what :: d)) with (EvPersisted what :: markers d).
        by rewrite Hm.
      * rewrite Htr, Hd. cbn. by rewrite <- app_assoc.
    + intros H. destruct Hcode as [[Hcode _]|[-> _]]; codes_clash.
Qed.

(** X24: a write route only ever removes cache entries, and only entries
    one of its patterns matches: every entry in the store afterwards was
    there before with the same value and expiry, and a key that none of the
    patterns matches is untouched. *)
Theorem write_route_only_removes fuel name pats route req s c s' :
  (name, pats, route)
    ∈ write_routes DB Model_new Model_findOne Document_save
        Model_findByIdAndUpdate Model_findByIdAndDelete fuel ->
  statusCode (cache s) = 200 ->
  route req s = Some (c, s') ->
  (forall key entry, store (cache s') !! key = Some entry ->
                     store (cache s) !! key = Some entry)
  /\ (forall key, (forall p, p ∈ pats -> glob_match p key = false) ->
                  store (cache s') !! key = store (cache s) !! key).
Proof.
  intros Hin H200 Hrun.
  destruct (write_routes_outcome _ _ _ _ _ _ _ _ Hin H200 Hrun)
    as (_ & code & data & body & _ & _ & _ & Hcases).
  destruct Hcases as [(_ & -> & _)|(what & _ & -> & _)]; [done|].
  split.
  - intros key entry H. by apply invalidated_all_store_sub in H.
  - intros key H. by rewrite invalidated_all_keeps_other_keys.
Qed.

(** X25: after a write route has answered 200 or 201 on a working
    connection, no key under a prefix it invalidates can be read back, now
    or later: the next read of the resource is a miss. *)
Theorem write_route_purges_its_resource
    fuel name pats route req s c s' client code body prefix :
  (name, pats, route)
    ∈ write_routes DB Model_new Model_findOne Document_save
        Model_findByIdAndUpdate Model_findByIdAndDelete fuel ->
  statusCode (cache s) = 200 ->
  route req s = Some (c, s') ->
  redisClient (cache s) = Some client -> connected (cache s) = true ->
  sent (cache s') = (sent (cache s) ++ [(code, body)])%list ->
  code ∈ [200; 201] ->
  literal prefix = true -> prefix ++ "*" ∈ pats ->
  purged prefix (cache s').
Proof.
  intros Hin H200 Hrun Hcl Hcon Hlast Hcode Hlit Hpat.
  destruct (write_routes_outcome _ _ _ _ _ _ _ _ Hin H200 Hrun)
    as (_ & code' & data & body' & _ & Hsent & Hnow & Hcases).
  rewrite Hsent in Hlast. apply app_inj_tail in Hlast as [_ [= <- <-]].
  destruct Hcases as [(_ & _ & Hcode' & _)|(what & _ & Hst & _)]; [codes_clash|].
  cbn zeta in Hst.
  assert (purged prefix (invalidated_all pats (log (EvPersisted what) (cache s))))
    as Hp by (by apply (invalidated_all_purges prefix pats _ client)).
  intros key t Hk Ht. rewrite Hst. apply Hp; [done|].
  rewrite invalidated_all_now. cbn. by rewrite <- Hnow.
Qed.

End RouteOutcomes.

Lemma stocked_post_run :
  blog_post nat counter_new counter_findOne counter_save 1 new_post stocked_backend
  = Some (Normal tt, stocked_after_post).
Proof. vm_compute. reflexivity. Qed.

Lemma stocked_post_sent :
  sent (cache stocked_after_post)
  = (sent (cache stocked_backend) ++ [(201, post_answer)])%list.
Proof. vm_compute. reflexivity. Qed.

(** X22 on [POST /api/blog] against the counting store and the stocked
    cache. *)
Lemma write_route_answers_once_witness :
  Normal tt = Normal tt
  /\ exists code data body,
       JSON_stringify data = Normal (Some body)
       /\ sent (cache stocked_after_post)
          = (sent (cache stocked_backend) ++ [(code, Some body)])%list
       /\ ((code ∈ [200; 201] /\ reports data true)
           \/ (code ∈ [400; 404; 500] /\ reports data false)).
Proof.
  apply (write_route_answers_once nat counter_new counter_findOne counter_save
           counter_update counter_delete 1 "POST /api/blog" blog_patterns
           (blog_post nat counter_new counter_findOne counter_save 1)
           new_post stocked_backend (Normal tt) stocked_after_post).
  - left.
  - reflexivity.
  - exact stocked_post_run.
Defined.

(** X23 on the same run, which answers 201. *)
Lemma write_route_status_tells_witness :
  (201 ∈ [200; 201] ->
   exists what, markers (new_events (cache stocked_backend) (cache stocked_after_post))
                = EvPersisted what :: map EvInvalidate blog_patterns)
  /\ (201 ∈ [400; 404] ->
      markers (new_events (cache stocked_backend) (cache stocked_after_post)) = []
      /\ store (cache stocked_after_post) = store (cache stocked_backend)).
Proof.
  apply (write_route_status_tells nat counter_new counter_findOne counter_save
           counter_update counter_delete 1 "POST /api/blog" blog_patterns
           (blog_post nat counter_new counter_findOne counter_save 1)
           new_post stocked_backend (Normal tt) stocked_after_post 201 post_answer).
  - left.
  - reflexivity.
  - exact stocked_post_run.
  - exact stocked_post_sent.
Defined.

(** X24 on the same run. *)
Lemma write_route_only_removes_witness :
  (forall key entry, store (cache stocked_after_post) !! key = Some entry ->
                     store (cache stocked_backend) !! key = Some entry)
  /\ (forall key, (forall p, p ∈ blog_patterns -> glob_match p key = false) ->
                  store (cache stocked_after_post) !! key
                  = store (cache stocked_backend) !! key).
Proof.
  apply (write_route_only_removes nat counter_new counter_findOne counter_save
           counter_update counter_delete 1 "POST /api/blog" blog_patterns
           (blog_post nat counter_new counter_findOne counter_save 1)
           new_post stocked_backend (Normal tt) stocked_after_post).
  - left.
  - reflexivity.
  - exact stocked_post_run.
Defined.

(** X25 on the same run: the two blog keys of the stocked cache are gone. *)
Lemma write_route_purges_its_resource_witness :
  purged "GET:/api/blog" (cache stocked_after_post).
Proof.
  apply (write_route_purges_its_resource nat counter_new counter_findOne counter_save
           counter_update counter_delete 1 "POST /api/blog" blog_patterns
           (blog_post nat counter_new counter_findOne counter_save 1)
           new_post stocked_backend (Normal tt) stocked_after_post RedisClient
           201 post_answer "GET:/api/blog").
  - left.
  - reflexivity.
  - exact stocked_post_run.
  - reflexivity.
  - reflexivity.
  - exact stocked_post_sent.
  - right. left.
  - reflexivity.
  - left.
Defined.

Section EdgeCases.

Variable DB : Type.
Variable Model_new : string -> jsval -> jsval.
Variable Model_findOne : string -> jsval -> M DB jsval.
Variable Document_save : string -> jsval -> M DB jsval.

Lemma create_with_slug_needs_title model resource created failed fuel req s :
  (forall t, get_property (body req) "title" <> Normal (JStr t)) ->
  exists text,
    JSON_stringify (failure failed) = Normal (Some text)
    /\ create_with_slug DB Model_new Model_findOne Document_save model resource
         created failed fuel req s
       = Some (Normal tt,
               {| database := database s;
                  cache := push_sent (500, Some text) (set_statusCode 500 (cache s)) |}).
Proof.
  intros Hno. eexists. split; [apply JSON_stringify_failure|].
  unfold create_with_slug. rstep.
  destruct (get_property (body req) "title") as [title|e] eqn:E; cbn.
  - destruct title; unfold createSlug; cbn; rstep;
      rewrite ?JSON_stringify_failure; try reflexivity.
    by destruct (Hno s0).
  - assert (exists m, e = TypeError m) as [m ->]
      by (unfold get_property in E; destruct (body req); try discriminate;
          injection E as <-; by eexists).
    rstep. by rewrite JSON_stringify_failure.
Qed.

(** X20: [POST /api/blog] and [POST /api/projects] with a title that is not
    a string (a missing one, say) answer 500 with their server-error text,
    whatever fuel the slug search is given: the database is not touched, no
    Redis command is sent and nothing is invalidated. *)
Theorem create_needs_a_title fuel req s :
  (forall t, get_property (body req) "title" <> Normal (JStr t)) ->
  (exists text,
     JSON_stringify (failure "Server error creating blog post") = Normal (Some text)
     /\ blog_post DB Model_new Model_findOne Document_save fuel req s
        = Some (Normal tt,
                {| database := database s;
                   cache := push_sent (500, Some text)
                              (set_statusCode 500 (cache s)) |}))
  /\ (exists text,
        JSON_stringify (failure "Server error creating project") = Normal (Some text)
        /\ projects_post DB Model_new Model_findOne Document_save fuel req s
           = Some (Normal tt,
                   {| database := database s;
                      cache := push_sent (500, Some text)
                                 (set_statusCode 500 (cache s)) |})).
Proof.
  intros Hno. split; by apply create_with_slug_needs_title.
Qed.

Lemma profile_upload_needs_file field no_file uploaded failed payload req s :
  ToBoolean (file req) = false
  \/ (exists p, get_property (file req) "path" = Normal p /\ ToBoolean p = false) ->
  exists text,
    JSON_stringify (failure no_file) = Normal (Some text)
    /\ profile_upload DB Model_findOne Document_save field no_file uploaded failed
         payload req s
       = (Normal tt,
          {| database := database s;
             cache := push_sent (400, Some text) (set_statusCode 400 (cache s)) |}).
Proof.
  intros H. eexists. split; [apply JSON_stringify_failure|].
  unfold profile_upload. rstep.
  destruct (ToBoolean (file req)) eqn:Hfile; cbn.
  - destruct H as [H|(p & Hp & Hfalse)]; [done|].
    rewrite Hp. cbn. rewrite Hfalse. cbn. rstep. by rewrite JSON_stringify_failure.
  - change (ToBoolean JUndefined) with false. cbn. rstep.
    by rewrite JSON_stringify_failure.
Qed.

(** X21: the two upload routes, called without an uploaded file or with one
    that has no path, answer 400 and do nothing else: the database is not
    read, nothing is saved and nothing is invalidated. *)
Theorem upload_needs_a_file req s :
  ToBoolean (file req) = false
  \/ (exists p, get_property (file req) "path" = Normal p /\ ToBoolean p = false) ->
  (exists text,
     JSON_stringify (failure "No image file provided") = Normal (Some text)
     /\ profile_upload_image DB Model_findOne Document_save req s
        = (Normal tt,
           {| database := database s;
              cache := push_sent (400, Some text) (set_statusCode 400 (cache s)) |}))
  /\ (exists text,
        JSON_stringify (failure "No resume file provided") = Normal (Some text)
        /\ profile_upload_resume DB Model_findOne Document_save req s
           = (Normal tt,
              {| database := database s;
                 cache := push_sent (400, Some text) (set_statusCode 400 (cache s)) |})).
Proof.
  intros H. split; by apply profile_upload_needs_file.
Qed.

End EdgeCases.

(** X20 on a body without a title. *)
Lemma create_needs_a_title_witness :
  (exists text,
     JSON_stringify (failure "Server error creating blog post") = Normal (Some text)
     /\ blog_post nat counter_new counter_findOne counter_save 1 untitled_post
          empty_backend
        = Some (Normal tt,
                {| database := database empty_backend;
                   cache := push_sent (500, Some text)
                              (set_statusCode 500 (cache empty_backend)) |}))
  /\ (exists text,
        JSON_stringify (failure "Server error creating project") = Normal (Some text)
        /\ projects_post nat counter_new counter_findOne counter_save 1 untitled_post
             empty_backend
           = Some (Normal tt,
                   {| database := database empty_backend;
                      cache := push_sent (500, Some text)
                                 (set_statusCode 500 (cache empty_backend)) |})).
Proof.
  apply (create_needs_a_title nat counter_new counter_findOne counter_save 1
           untitled_post empty_backend).
  intros t. discriminate.
Defined.

(** X21 on a request that carries no file. *)
Lemma upload_needs_a_file_witness :
  (exists text,
     JSON_stringify (failure "No image file provided") = Normal (Some text)
     /\ profile_upload_image nat counter_findOne counter_save new_post empty_backend
        = (Normal tt,
           {| database := database empty_backend;
              cache := push_sent (400, Some text)
                         (set_statusCode 400 (cache empty_backend)) |}))
  /\ (exists text,
        JSON_stringify (failure "No resume file provided") = Normal (Some text)
        /\ profile_upload_resume nat counter_findOne counter_save new_post empty_backend
           = (Normal tt,
              {| database := database empty_backend;
                 cache := push_sent (400, Some text)
                            (set_statusCode 400 (cache empty_backend)) |})).
Proof.
  apply (upload_needs_a_file nat counter_findOne counter_save new_post empty_backend).
  left. reflexivity.
Defined.

(** ** The write routes do not read the cache *)

Create HintDb oblivious.

Section Oblivious.

Variable DB : Type.
Implicit Types s : backend DB.

Lemma oblivious_total_ret {A} (a : A) : oblivious (DB:=DB) (total (mret a)).
Proof. intros s1 s2 H. by cbn. Qed.

Lemma oblivious_ret {A} (a : A) : oblivious (DB:=DB) (mret a).
Proof. intros s1 s2 H. by cbn. Qed.

Lemma oblivious_bind {A B} (m : MF (backend DB) A) (f : A -> MF (backend DB) B) :
  oblivious m -> (forall a, oblivious (f a)) -> oblivious (m ≫= f).
Proof.
  intros Hm Hf s1 s2 H. specialize (Hm s1 s2 H).
  unfold mbind, MF_bind.
  destruct (m s1) as [[[a1|e1] s1']|], (m s2) as [[[a2|e2] s2']|]; try done;
    destruct Hm as [Hc Hs]; try discriminate.
  - injection Hc as <-. by apply Hf.
  - by injection Hc as <-.
Qed.

Lemma oblivious_try_catch {A} (m : MF (backend DB) A) h :
  oblivious m -> (forall e, oblivious (h e)) -> oblivious (try_catchF m h).
Proof.
  intros Hm Hh s1 s2 H. specialize (Hm s1 s2 H).
  unfold try_catchF.
  destruct (m s1) as [[[a1|e1] s1']|], (m s2) as [[[a2|e2] s2']|]; try done;
    destruct Hm as [Hc Hs]; try discriminate.
  injection Hc as <-. by apply Hh.
Qed.

(** The same for computations that need no fuel. *)
Lemma oblivious_total_bind {A B} (m : M (backend DB) A) (f : A -> M (backend DB) B) :
  oblivious (total m) -> (forall a, oblivious (total (f a))) ->
  oblivious (total (m ≫= f)).
Proof.
  intros Hm Hf s1 s2 H. specialize (Hm s1 s2 H).
  unfold total, mbind, M_bind in *.
  destruct (m s1) as [[a1|e1] s1'], (m s2) as [[a2|e2] s2'];
    destruct Hm as [Hc Hs]; try discriminate.
  - injection Hc as <-. by apply (Hf a1).
  - by injection Hc as <-.
Qed.

Lemma oblivious_total_try_catch {A} (m : M (backend DB) A) h :
  oblivious (total m) -> (forall e, oblivious (total (h e))) ->
  oblivious (total (try_catch m h)).
Proof.
  intros Hm Hh s1 s2 H. specialize (Hm s1 s2 H).
  unfold total, try_catch in *.
  destruct (m s1) as [[a1|e1] s1'], (m s2) as [[a2|e2] s2'];
    destruct Hm as [Hc Hs]; try discriminate; [done|].
  injection Hc as <-. by apply (Hh e1).
Qed.

Lemma oblivious_lift {A} (c : completion A) :
  oblivious (DB:=DB) (total (lift_completion c)).
Proof. intros s1 s2 H. by cbn. Qed.

Lemma oblivious_db_read {A} (m : M DB A) : oblivious (total (db_read DB m)).
Proof.
  intros [d1 w1] [d2 w2] (Hd & Hs & Hc). cbn in *. subst d2.
  unfold db_read. cbn. by destruct (m d1) as [c d'].
Qed.

Lemma oblivious_db_save what (m : M DB jsval) : oblivious (total (db_save DB what m)).
Proof.
  intros [d1 w1] [d2 w2] (Hd & Hs & Hc). cbn in *. subst d2.
  unfold db_save. cbn. by destruct (m d1) as [[doc|e] d'].
Qed.

Lemma oblivious_db_change what (m : M DB jsval) :
  oblivious (total (db_change DB what m)).
Proof.
  intros [d1 w1] [d2 w2] (Hd & Hs & Hc). cbn in *. subst d2.
  unfold db_change. cbn. destruct (m d1) as [[doc|e] d']; [|done].
  by destruct (ToBoolean doc).
Qed.

Lemma oblivious_invalidateResourceCache resource :
  oblivious (total (in_cache DB (invalidateResourceCache resource))).
Proof.
  intros [d1 w1] [d2 w2] (Hd & Hs & Hc). cbn in *.
  unfold in_cache. cbn. rewrite !invalidateResourceCache_eq.
  split; [done|]. repeat split; cbn; [done|..].
  - by rewrite !invalidated_all_sent.
  - by rewrite !invalidated_all_statusCode.
Qed.

Lemma oblivious_invalidateRouteCache route :
  oblivious (total (in_cache DB (invalidateRouteCache route))).
Proof.
  intros [d1 w1] [d2 w2] (Hd & Hs & Hc). cbn in *.
  unfold in_cache. cbn. rewrite !invalidateRouteCache_eq.
  split; [done|]. repeat split; cbn; [done|..].
  - by rewrite !invalidated_all_sent.
  - by rewrite !invalidated_all_statusCode.
Qed.

Lemma oblivious_respond code data : oblivious (total (respond DB code data)).
Proof.
  intros [d1 w1] [d2 w2] (Hd & Hs & Hc). cbn in *.
  unfold respond, in_cache, express_json. mstep.
  destruct (JSON_stringify data) as [body|e]; cbn; [|done].
  split; [done|]. repeat split; cbn; [done|]. by rewrite Hs.
Qed.

Lemma oblivious_respond_json data : oblivious (total (respond_json DB data)).
Proof.
  intros [d1 w1] [d2 w2] (Hd & Hs & Hc). cbn in *.
  unfold respond_json, in_cache, express_json. cbn.
  destruct (JSON_stringify data) as [body|e]; cbn; [|done].
  split; [done|]. repeat split; cbn; [done| |done]. by rewrite Hs, Hc.
Qed.

End Oblivious.

#[export] Hint Resolve oblivious_ret oblivious_total_ret oblivious_lift oblivious_db_read
  oblivious_db_save oblivious_db_change oblivious_invalidateResourceCache
  oblivious_invalidateRouteCache oblivious_respond oblivious_respond_json : oblivious.

(** Take a route apart along its binds, handlers and branches. *)
Ltac oblivious_steps :=
  repeat first
    [ progress intros
    | apply oblivious_total_bind
    | apply oblivious_total_try_catch
    | apply oblivious_bind
    | apply oblivious_try_catch
    | solve [auto with oblivious]
    | match goal with
      | |- oblivious (total (if ?b then _ else _)) => destruct b
      | |- oblivious (total (match ?e with _ => _ end)) => destruct e
      | |- oblivious (if ?b then _ else _) => destruct b
      | |- oblivious (match ?e with _ => _ end) => destruct e
      end ].

Section ObliviousRoutes.

Variable DB : Type.
Variable Model_new : string -> jsval -> jsval.
Variable Model_findOne : string -> jsval -> M DB jsval.
Variable Document_save : string -> jsval -> M DB jsval.
Variable Model_findByIdAndUpdate : string -> string -> jsval -> M DB jsval.
Variable Model_findByIdAndDelete : string -> string -> M DB jsval.

Lemma delete_by_id_oblivious model resource deleted missing failed req :
  oblivious (total (delete_by_id DB Model_findByIdAndDelete model resource deleted
                      missing failed req)).
Proof. unfold delete_by_id. oblivious_steps. Qed.

Lemma update_with_slug_oblivious model resource updated missing failed req :
  oblivious (total (update_with_slug DB Model_findOne Model_findByIdAndUpdate model
                      resource updated missing failed req)).
Proof. unfold update_with_slug. oblivious_steps. Qed.

Lemma skills_put_oblivious req :
  oblivious (total (skills_put DB Model_findByIdAndUpdate req)).
Proof. unfold skills_put. oblivious_steps. Qed.

Lemma profile_put_oblivious req :
  oblivious (total (profile_put DB Model_new Model_findOne Document_save req)).
Proof. unfold profile_put. oblivious_steps. Qed.

Lemma profile_upload_oblivious field no_file uploaded failed payload req :
  oblivious (total (profile_upload DB Model_findOne Document_save field no_file
                      uploaded failed payload req)).
Proof. unfold profile_upload. oblivious_steps. Qed.

Lemma skills_post_oblivious req :
  oblivious (total (skills_post DB Model_new Document_save req)).
Proof.
  unfold skills_post. apply oblivious_total_try_catch; [oblivious_steps|].
  intros [| | |code| |]; rewrite ?mongo_code_dispatch; oblivious_steps.
Qed.

Lemma unique_slug_oblivious fuel : forall model baseSlug slug counter,
  oblivious (unique_slug DB Model_findOne fuel model baseSlug slug counter).
Proof.
  induction fuel as [|fuel IH]; intros model baseSlug slug counter; [done|].
  cbn [unique_slug]. apply oblivious_bind; [auto with oblivious|].
  intros existing. destruct (ToBoolean existing); [apply IH|auto with oblivious].
Qed.

Lemma create_with_slug_oblivious model resource created failed fuel req :
  oblivious (create_with_slug DB Model_new Model_findOne Document_save model resource
               created failed fuel req).
Proof.
  unfold create_with_slug. apply oblivious_try_catch.
  - apply oblivious_bind; [auto with oblivious|]. intros title.
    apply oblivious_bind; [auto with oblivious|]. intros baseSlug.
    apply oblivious_bind; [apply unique_slug_oblivious|]. intros slug.
    oblivious_steps.
  - oblivious_steps.
Qed.

(** X26: the state of the cache has no influence on what a write route does
    to the database, on how it ends, or on the answer it sends.  Two runs of
    the same route on the same request, from the same database and the same
    response under construction, agree on all three, whatever the two caches
    hold and whether or not Redis is there at all. *)
Theorem write_routes_do_not_depend_on_the_cache fuel name pats route req s1 s2 :
  (name, pats, route)
    ∈ write_routes DB Model_new Model_findOne Document_save
        Model_findByIdAndUpdate Model_findByIdAndDelete fuel ->
  database s1 = database s2 ->
  sent (cache s1) = sent (cache s2) ->
  statusCode (cache s1) = statusCode (cache s2) ->
  match route req s1, route req s2 with
  | Some (c1, s1'), Some (c2, s2') =>
      c1 = c2 /\ database s1' = database s2'
      /\ sent (cache s1') = sent (cache s2')
      /\ statusCode (cache s1') = statusCode (cache s2')
  | None, None => True
  | _, _ => False
  end.
Proof.
  intros Hin Hd Hs Hc.
  assert (oblivious (route req)) as Hobl.
  { unfold write_routes in Hin.
    repeat (apply elem_of_cons in Hin as [Hin|Hin]);
      [..|by apply elem_of_nil in Hin]; injection Hin as -> -> ->.
    - apply create_with_slug_oblivious.
    - apply update_with_slug_oblivious.
    - apply delete_by_id_oblivious.
    - apply create_with_slug_oblivious.
    - apply update_with_slug_oblivious.
    - apply delete_by_id_oblivious.
    - apply skills_post_oblivious.
    - apply skills_put_oblivious.
    - apply delete_by_id_oblivious.
    - apply profile_put_oblivious.
    - apply profile_upload_oblivious.
    - apply profile_upload_oblivious. }
  exact (Hobl s1 s2 (conj Hd (conj Hs Hc))).
Qed.

End ObliviousRoutes.

(** X26 on [POST /api/blog] behind the stocked cache and behind no cache. *)
Lemma write_routes_do_not_depend_on_the_cache_witness :
  match blog_post nat counter_new counter_findOne counter_save 1 new_post
          stocked_backend,
        blog_post nat counter_new counter_findOne counter_save 1 new_post
          offline_backend with
  | Some (c1, s1'), Some (c2, s2') =>
      c1 = c2 /\ database s1' = database s2'
      /\ sent (cache s1') = sent (cache s2')
      /\ statusCode (cache s1') = statusCode (cache s2')
  | None, None => True
  | _, _ => False
  end.
Proof.
  apply (write_routes_do_not_depend_on_the_cache nat counter_new counter_findOne
           counter_save counter_update counter_delete 1 "POST /api/blog" blog_patterns
           (blog_post nat counter_new counter_findOne counter_save 1)
           new_post stocked_backend offline_backend).
  - left.
  - reflexivity.
  - reflexivity.
  - reflexivity.
Defined.

(** ** The read routes *)

Lemma call_json_cached c key ttl d w :
  call_json d {| env := w; res := {| json := json_with_cache (Some c) key ttl express_json |} |}
  = ((json_with_cache (Some c) key ttl express_json d w).1,
     {| env := (json_with_cache (Some c) key ttl express_json d w).2;
        res := {| json := json_with_cache (Some c) key ttl express_json |} |}).
Proof.
  unfold call_json, in_world. cbn. by destruct (json_with_cache _ _ _ _ _ _).
Qed.

Section ReadRouteFacts.

Variable JSON_parse : string -> completion jsval.

(** X27: on a miss with a working store, a handler that looks up one
    document caches what it found and nothing else.  A found document is
    sent under 200 and stored under the key of the request until [t + ttl];
    a missing document is answered 404, a rejected query or a document that
    does not serialize 500, and these answers are not stored. *)
Theorem found_documents_are_cached_failures_are_not
    ttl req found label missing failed t w c :
  method req = "GET" -> includes (path req) "/admin" = false ->
  ToBoolean (user req) = false ->
  redisClient w = Some c -> connected w = true ->
  redis_lookup (store w) t (generateCacheKey req) = None ->
  0 < ttl ->
  let w' := serve_route JSON_parse ttl req (find_or_404 found label missing failed) t w in
  let key := generateCacheKey req in
  match found with
  | Normal doc =>
      if ToBoolean doc then
        match JSON_stringify (JObj [("success", JBool true); ("data", doc)]) with
        | Normal body =>
            sent w' = (sent w ++ [(200, body)])%list
            /\ exists text, body = Some text
                            /\ store w' = <[key := (text, t + ttl)]> (store w)
        | Throw e =>
            (exists text, JSON_stringify (failure failed) = Normal (Some text)
                          /\ sent w' = (sent w ++ [(500, Some text)])%list)
            /\ store w' = store w
        end
      else
        (exists text, JSON_stringify (failure missing) = Normal (Some text)
                      /\ sent w' = (sent w ++ [(404, Some text)])%list)
        /\ store w' = store w
  | Throw e =>
      (exists text, JSON_stringify (failure failed) = Normal (Some text)
                    /\ sent w' = (sent w ++ [(500, Some text)])%list)
      /\ store w' = store w
  end.
Proof.
  intros Hm Ha Hu Hc Hcon Hmiss Httl w' key. subst w' key. unfold serve_route.
  rewrite (cacheMiddleware_miss _ _ _ _ _ c) by done.
  set (key := generateCacheKey req).
  assert (Hfail : forall m w0, connected w0 = true ->
            json_with_cache (Some c) key ttl express_json (failure m) w0
            = (Normal tt, push_sent (statusCode w0, Some (text_of (failure m))) w0)).
  { intros m w0 Hw0. rewrite json_with_cache_skips by done.
    by rewrite (express_json_sends _ _ _ (JSON_stringify_failure m)). }
  unfold try_catch at 1, next_async, detached, find_or_404. repeat (progress mstep).
  destruct found as [doc|e]; cbn.
  - destruct (ToBoolean doc) eqn:Hdoc; cbn.
    + destruct (JSON_stringify (JObj [("success", JBool true); ("data", doc)]))
        as [body|e] eqn:Hjson.
      * destruct body as [text|]; [|by apply JSON_stringify_undefined in Hjson].
        rewrite (json_with_cache_stores _ _ _ _ _ (JBool true) text) by done.
        rewrite (express_json_sends _ _ _ Hjson). cbn. split; [done|].
        by exists text.
      * rewrite (json_with_cache_throws _ _ _ _ _ (JBool true) e) by done. cbn.
        rewrite Hfail by done. cbn.
        split; [|done]. eexists. split; [apply JSON_stringify_failure|done].
    + rewrite Hfail by done. cbn.
      split; [|done]. eexists. split; [apply JSON_stringify_failure|done].
  - rewrite Hfail by done. cbn.
    split; [|done]. eexists. split; [apply JSON_stringify_failure|done].
Qed.

End ReadRouteFacts.

(** X27 on [GET /api/profile] with an active profile in the database. *)
Lemma found_documents_are_cached_failures_are_not_witness :
  let w' := serve_route sample_parse 3600 profile_request
              (profile_get (fun _ => Normal sample_profile)) 100 fresh_world in
  sent w' = (sent fresh_world ++ [(200, Some sample_profile_text)])%list
  /\ exists text,
       Some sample_profile_text = Some text
       /\ store w' = <[generateCacheKey profile_request := (text, 100 + 3600)]>
                       (store fresh_world).
Proof.
  apply (found_documents_are_cached_failures_are_not sample_parse 3600 profile_request
           (Normal sample_profile) "Error fetching profile" "Profile not found"
           "Server error fetching profile" 100 fresh_world RedisClient);
    try reflexivity.
  lia.
Defined.

Lemma slug_chars_words s : forall b,
  s <> "" -> forallb is_slug_char (list_ascii_of_string s) = true ->
  slug_words s b = true.
Proof.
  induction s as [|c s IH]; intros b Hne H; [done|].
  cbn in *. apply andb_prop in H as [-> H].
  destruct s as [|c' s]; [done|]. by apply IH.
Qed.

(** X28: a project whose slug is made of 24 lower-case hexadecimal digits
    cannot be fetched by its slug.  Such a text is a slug [createSlug]
    produces (it is its own slug), and [GET /api/projects/:identifier] reads
    it as a document id: the answer does not depend on the lookup by slug,
    which is never made. *)
Theorem hex_slug_is_read_as_id identifier :
  is_object_id identifier = true ->
  forallb is_slug_char (list_ascii_of_string identifier) = true ->
  createSlug (JStr identifier) = Normal identifier
  /\ forall findById findOne findOne',
       projects_get_one findById findOne identifier
       = projects_get_one findById findOne' identifier.
Proof.
  intros Hid Hslug. split.
  - unfold createSlug. f_equal. apply well_formed_slug_fixed.
    unfold well_formed_slug. rewrite slug_chars_words; [apply orb_true_r| |done].
    intros ->. discriminate.
  - intros findById findOne findOne'. unfold projects_get_one. by rewrite Hid.
Qed.

Lemma hex_slug_is_read_as_id_witness :
  createSlug (JStr "deadbeefdeadbeefdeadbeef") = Normal "deadbeefdeadbeefdeadbeef"
  /\ forall findById findOne findOne',
       projects_get_one findById findOne "deadbeefdeadbeefdeadbeef"
       = projects_get_one findById findOne' "deadbeefdeadbeefdeadbeef".
Proof.
  apply (hex_slug_is_read_as_id "deadbeefdeadbeefdeadbeef"); reflexivity.
Defined.

(** ** Grouping the skills *)

Lemma filed_under_snoc key skills skill :
  filed_under key (skills ++ [skill])
  = (filed_under key skills
     ++ if bool_decide (category_key skill = Some key) then [skill] else [])%list.
Proof.
  unfold filed_under. rewrite filter_app. f_equal.
  rewrite filter_cons, filter_nil. by case_decide; case_bool_decide.
Qed.

Lemma reduce_groups_spec skills : forall acc seen,
  (forall key, acc !! key = nonempty (filed_under key seen)) ->
  forallb groupable skills = true ->
  exists groups,
    reduce_groups acc skills = Normal groups
    /\ forall key, groups !! key = nonempty (filed_under key (seen ++ skills)).
Proof.
  induction skills as [|skill skills IH]; intros acc seen Hacc Hok.
  - exists acc. split; [done|]. intros key. by rewrite app_nil_r.
  - cbn in Hok. apply andb_prop in Hok as [Hskill Hok].
    unfold groupable, category_key in Hskill.
    destruct (get_property skill "category") as [category|e] eqn:Hcat; [|done].
    apply negb_true_iff, bool_decide_eq_false in Hskill.
    assert (exists acc', group_step acc skill = Normal acc'
              /\ forall key, acc' !! key = nonempty (filed_under key (seen ++ [skill])))
      as (acc' & Hstep & Hacc').
    { unfold group_step. rewrite Hcat. cbn zeta.
      destruct (acc !! ToString category) as [group|] eqn:Hgroup.
      - eexists. split; [done|]. intros key. rewrite filed_under_snoc.
        unfold category_key. rewrite Hcat.
        destruct (decide (ToString category = key)) as [<-|Hne].
        + rewrite lookup_insert_eq, bool_decide_eq_true_2 by done.
          rewrite Hacc in Hgroup.
          destruct (filed_under (ToString category) seen); [done|].
          by injection Hgroup as <-.
        + rewrite lookup_insert_ne by done.
          rewrite bool_decide_eq_false_2 by congruence. by rewrite app_nil_r.
      - rewrite bool_decide_eq_false_2 by done.
        eexists. split; [done|]. intros key. rewrite filed_under_snoc.
        unfold category_key. rewrite Hcat.
        destruct (decide (ToString category = key)) as [<-|Hne].
        + rewrite lookup_insert_eq, bool_decide_eq_true_2 by done.
          rewrite Hacc in Hgroup.
          by destruct (filed_under (ToString category) seen).
        + rewrite lookup_insert_ne by done.
          rewrite bool_decide_eq_false_2 by congruence. by rewrite app_nil_r. }
    cbn [reduce_groups]. rewrite Hstep.
    destruct (IH acc' (seen ++ [skill])%list Hacc' Hok) as (groups & Hrun & Hgroups).
    exists groups. split; [done|]. intros key. by rewrite Hgroups, <- app_assoc.
Qed.

Lemma reduce_groups_throws skills : forall acc seen,
  (forall key, acc !! key = nonempty (filed_under key seen)) ->
  forallb groupable seen = true ->
  forallb groupable skills = false ->
  exists e, reduce_groups acc skills = Throw e.
Proof.
  induction skills as [|skill skills IH]; intros acc seen Hacc Hseen Hbad; [done|].
  cbn in Hbad. cbn [reduce_groups].
  destruct (groupable skill) eqn:Hskill.
  - destruct (reduce_groups_spec [skill] acc seen Hacc) as (acc' & Hstep & Hacc').
    { cbn. by rewrite Hskill. }
    cbn in Hstep. destruct (group_step acc skill) as [acc0|e]; [|done].
    injection Hstep as ->.
    apply (IH acc' (seen ++ [skill])%list); [done| |done].
    rewrite forallb_app, Hseen. cbn. by rewrite Hskill.
  - unfold groupable, category_key in Hskill. unfold group_step.
    destruct (get_property skill "category") as [category|e]; [|by eexists].
    apply negb_false_iff, bool_decide_eq_true in Hskill. cbn zeta.
    destruct (acc !! ToString category) as [group|] eqn:Hgroup.
    + exfalso. rewrite Hacc in Hgroup.
      assert (exists x, x ∈ filed_under (ToString category) seen) as [x Hx].
      { destruct (filed_under _ seen) as [|x l]; [done|]. exists x. left. }
      apply list_elem_of_filter in Hx as [Hkey Hin].
      rewrite forallb_forall in Hseen.
      specialize (Hseen x (proj1 (list_elem_of_In _ _) Hin)).
      unfold groupable in Hseen. rewrite Hkey in Hseen.
      apply negb_true_iff, bool_decide_eq_false in Hseen. done.
    + rewrite bool_decide_eq_true_2 by done. by eexists.
Qed.

(** X29: the grouping of the skills listing files every skill under the
    text of its category, each group in the order of the listing, and has no
    other groups.  It throws exactly when some category cannot be read (the
    skill is [null] or [undefined]) or names a property every object
    inherits, such as [constructor] or [toString]. *)
Theorem groupedSkills_files_by_category skills :
  if forallb groupable skills then
    exists groups,
      groupedSkills skills = Normal groups
      /\ forall key, groups !! key = nonempty (filed_under key skills)
  else exists e, groupedSkills skills = Throw e.
Proof.
  destruct (forallb groupable skills) eqn:H.
  - by apply (reduce_groups_spec skills ∅ []).
  - by apply (reduce_groups_throws skills ∅ []).
Qed.

Example groupedSkills_sample :
  match groupedSkills sample_skills with
  | Normal groups => length <$> groups !! "languages"
  | Throw _ => None
  end = Some 2.
Proof. vm_compute. reflexivity. Qed.
